(** * qtask: a cooperative tick-driven task scheduler (qtask.c / qtask.h)

    Shallow embedding of the scheduler and the properties of its
    registration, tick and execute passes.

    Memory model.  The scheduler owns two sentinel list nodes; every task
    object is allocated by the caller and embeds one list node.  A node
    pointer is therefore one of: QNULL, the address of one of the two
    sentinels, or the address of the node embedded in the task object at a
    given address.  Task objects live in a finite store indexed by their
    address; dereferencing QNULL or an address that holds no object is a
    fault.  Functions are state transformers over this store that can
    fault; loops that walk a list carry a step budget derived from the
    number of allocated objects.  A task callback is external code: its
    invocation is recorded in a log.  [qtask_exec_with] runs the callback
    as code given by the caller, which may call back into the scheduler;
    [qtask_exec] is the pass over callbacks that return without touching
    the store. *)

From stdpp Require Import gmap list strings.
From Stdlib Require Import ZArith Lia.

#[local] Set Warnings "-clear-no-such-hyp".
Local Open Scope Z_scope.

(** ** Data model (qtask.h) *)

(** [QTaskList *]: a pointer to a list node. *)
Inductive nodeptr : Type :=
| NodeNull                (* QNULL *)
| TaskListHead            (* &sched->task_list *)
| SuspendListHead         (* &sched->suspend_list *)
| TaskNode (t : Z).       (* &t->task_node, for the task object at address t *)

#[global] Instance nodeptr_eq_dec : EqDecision nodeptr.
Proof. solve_decision. Defined.

(** [struct _task_list] *)
Record QTaskList : Type := mkQTaskList {
  prev : nodeptr;
  next : nodeptr
}.

(** [struct _qtask].  [name] is the string the borrowed pointer designates
    ([None] for a null pointer); [handle] is the address of the callback
    (0 for a null function pointer); the [size_t] and fixed-width fields
    hold their unsigned value. *)
Record QTaskObj : Type := mkQTaskObj {
  name : option string;
  id : Z;
  isready : Z;
  handle : Z;
  timer : Z;
  period : Z;
  rtime : Z;
  rtick : Z;
  task_node : QTaskList
}.

(** [QTaskSched]; the [args] field is never read or written by qtask.c.
    [run_task] is a task address, 0 for QNULL. *)
Record QTaskSched : Type := mkQTaskSched {
  run_task : Z;
  task_list : QTaskList;
  suspend_list : QTaskList
}.

(** The store: the scheduler, the caller-allocated task objects by address,
    and the log of callbacks invoked so far (most recent first). *)
Record mem : Type := mkMem {
  sched : QTaskSched;
  objs : gmap Z QTaskObj;
  calls : list Z
}.

(** Width of [size_t] (LP64). Nothing below depends on the exact value. *)
Definition SIZE_WIDTH : Z := 64.
Definition size_wrap (z : Z) : Z := z mod 2 ^ SIZE_WIDTH.
Definition uint16_wrap (z : Z) : Z := z mod 2 ^ 16.

(** ** Field updates *)

Definition set_prev (v : nodeptr) (n : QTaskList) : QTaskList :=
  {| prev := v; next := next n |}.
Definition set_next (v : nodeptr) (n : QTaskList) : QTaskList :=
  {| prev := prev n; next := v |}.

Definition set_name (v : option string) (o : QTaskObj) : QTaskObj :=
  mkQTaskObj v (id o) (isready o) (handle o) (timer o) (period o) (rtime o) (rtick o) (task_node o).
Definition set_id (v : Z) (o : QTaskObj) : QTaskObj :=
  mkQTaskObj (name o) v (isready o) (handle o) (timer o) (period o) (rtime o) (rtick o) (task_node o).
Definition set_isready (v : Z) (o : QTaskObj) : QTaskObj :=
  mkQTaskObj (name o) (id o) v (handle o) (timer o) (period o) (rtime o) (rtick o) (task_node o).
Definition set_handle (v : Z) (o : QTaskObj) : QTaskObj :=
  mkQTaskObj (name o) (id o) (isready o) v (timer o) (period o) (rtime o) (rtick o) (task_node o).
Definition set_timer (v : Z) (o : QTaskObj) : QTaskObj :=
  mkQTaskObj (name o) (id o) (isready o) (handle o) v (period o) (rtime o) (rtick o) (task_node o).
Definition set_period (v : Z) (o : QTaskObj) : QTaskObj :=
  mkQTaskObj (name o) (id o) (isready o) (handle o) (timer o) v (rtime o) (rtick o) (task_node o).
Definition set_rtime (v : Z) (o : QTaskObj) : QTaskObj :=
  mkQTaskObj (name o) (id o) (isready o) (handle o) (timer o) (period o) v (rtick o) (task_node o).
Definition set_rtick (v : Z) (o : QTaskObj) : QTaskObj :=
  mkQTaskObj (name o) (id o) (isready o) (handle o) (timer o) (period o) (rtime o) v (task_node o).
Definition set_task_node (v : QTaskList) (o : QTaskObj) : QTaskObj :=
  mkQTaskObj (name o) (id o) (isready o) (handle o) (timer o) (period o) (rtime o) (rtick o) v.

Definition set_run_task (v : Z) (c : QTaskSched) : QTaskSched :=
  {| run_task := v; task_list := task_list c; suspend_list := suspend_list c |}.
Definition set_task_list (v : QTaskList) (c : QTaskSched) : QTaskSched :=
  {| run_task := run_task c; task_list := v; suspend_list := suspend_list c |}.
Definition set_suspend_list (v : QTaskList) (c : QTaskSched) : QTaskSched :=
  {| run_task := run_task c; task_list := task_list c; suspend_list := v |}.

Definition with_sched (c : QTaskSched) (s : mem) : mem :=
  {| sched := c; objs := objs s; calls := calls s |}.
Definition with_objs (m : gmap Z QTaskObj) (s : mem) : mem :=
  {| sched := sched s; objs := m; calls := calls s |}.
Definition with_calls (l : list Z) (s : mem) : mem :=
  {| sched := sched s; objs := objs s; calls := l |}.

(** ** Reading and writing the store *)

(** The task object at address [t]; QNULL and unallocated addresses hold none. *)
Definition get_obj (s : mem) (t : Z) : option QTaskObj :=
  if decide (t = 0) then None else objs s !! t.

Definition upd_obj (s : mem) (t : Z) (f : QTaskObj → QTaskObj) : option mem :=
  match get_obj s t with
  | Some o => Some (with_objs (<[t := f o]> (objs s)) s)
  | None => None
  end.

(** The list node a node pointer designates. *)
Definition get_node (s : mem) (p : nodeptr) : option QTaskList :=
  match p with
  | NodeNull => None
  | TaskListHead => Some (task_list (sched s))
  | SuspendListHead => Some (suspend_list (sched s))
  | TaskNode t => task_node <$> get_obj s t
  end.

Definition upd_node (s : mem) (p : nodeptr) (f : QTaskList → QTaskList) : option mem :=
  match p with
  | NodeNull => None
  | TaskListHead =>
      Some (with_sched (set_task_list (f (task_list (sched s))) (sched s)) s)
  | SuspendListHead =>
      Some (with_sched (set_suspend_list (f (suspend_list (sched s))) (sched s)) s)
  | TaskNode t => upd_obj s t (λ o, set_task_node (f (task_node o)) o)
  end.

(** ** The monad of scheduler code: state, faults and a step budget *)

Inductive result (A : Type) : Type :=
| Ok (a : A)
| Fault          (* dereference of QNULL or of an address holding no object *)
| OutOfFuel.     (* a list walk exceeded its step budget *)
Arguments Ok {A} a.
Arguments Fault {A}.
Arguments OutOfFuel {A}.

Definition M (A : Type) : Type := mem → result (A * mem).

Definition ret {A} (a : A) : M A := λ s, Ok (a, s).
Definition bind {A B} (c : M A) (k : A → M B) : M B :=
  λ s, match c s with
       | Ok (a, s') => k a s'
       | Fault => Fault
       | OutOfFuel => OutOfFuel
       end.
Definition fault {A} : M A := λ _, Fault.
Definition out_of_fuel {A} : M A := λ _, OutOfFuel.

Notation "x <~ c ;; k" := (bind c (λ x, k))
  (at level 100, c at next level, right associativity).
Notation "c ;;; k" := (bind c (λ _, k))
  (at level 100, right associativity).

Definition lift_get {A} (g : mem → option A) : M A :=
  λ s, match g s with Some a => Ok (a, s) | None => Fault end.
Definition lift_upd (u : mem → option mem) : M unit :=
  λ s, match u s with Some s' => Ok (tt, s') | None => Fault end.

Definition load_task (t : Z) : M QTaskObj := lift_get (λ s, get_obj s t).
Definition store_task (t : Z) (f : QTaskObj → QTaskObj) : M unit :=
  lift_upd (λ s, upd_obj s t f).
Definition load_field {A} (t : Z) (f : QTaskObj → A) : M A :=
  o <~ load_task t ;; ret (f o).

Definition load_next (p : nodeptr) : M nodeptr :=
  lift_get (λ s, next <$> get_node s p).
Definition load_prev (p : nodeptr) : M nodeptr :=
  lift_get (λ s, prev <$> get_node s p).
Definition store_next (p v : nodeptr) : M unit :=
  lift_upd (λ s, upd_node s p (set_next v)).
Definition store_prev (p v : nodeptr) : M unit :=
  lift_upd (λ s, upd_node s p (set_prev v)).

Definition load_run_task : M Z := λ s, Ok (run_task (sched s), s).
Definition store_run_task (t : Z) : M unit :=
  λ s, Ok (tt, with_sched (set_run_task t (sched s)) s).

(** [task->handle()] for a callback that returns without touching the
    store: calling through a null function pointer faults; otherwise the
    call is logged.  [call_handle_with] below is the call of a callback
    that runs code of its own. *)
Definition call_handle (h : Z) : M unit :=
  λ s, if decide (h = 0) then Fault else Ok (tt, with_calls (h :: calls s) s).

(** Step budget of a list walk: one more than the number of allocated
    objects.  A walk over a list of distinct allocated nodes never needs
    more. *)
Definition walk_fuel : M nat := λ s, Ok (S (size (objs s)), s).

(** [QTASK_ENTRY(ptr, QTaskObj, task_node)]: the object that embeds a node. *)
Definition QTASK_ENTRY (p : nodeptr) : M Z :=
  match p with
  | TaskNode t => ret t
  | _ => fault
  end.

(** ** qtask.c *)

(** [_list_insert] *)
Definition _list_insert (list node : nodeptr) : M unit :=
  n <~ load_next list ;;
  store_prev n node ;;;             (* list->next->prev = node; *)
  n <~ load_next list ;;
  store_next node n ;;;             (* node->next = list->next; *)
  store_next list node ;;;          (* list->next = node; *)
  store_prev node list.             (* node->prev = list; *)

(** [_list_remove] *)
Definition _list_remove (node : nodeptr) : M unit :=
  n <~ load_next node ;;
  p <~ load_prev node ;;
  store_prev n p ;;;                (* node->next->prev = node->prev; *)
  p <~ load_prev node ;;
  n <~ load_next node ;;
  store_next p n ;;;                (* node->prev->next = node->next; *)
  store_prev node node ;;;
  store_next node node.             (* node->next = node->prev = node; *)

(** The body of [_qtask_isexist] and [_qdtask_isexsit]: QTASK_ITERATOR over
    the list with sentinel [list], looking for an entry whose id equals that
    of [task]. *)
Fixpoint isexist_loop (fuel : nat) (list : nodeptr) (task : Z) (node : nodeptr) : M Z :=
  match fuel with
  | O => out_of_fuel
  | S fuel' =>
      if decide (node = list) then ret 0
      else
        _task <~ QTASK_ENTRY node ;;
        tid <~ load_field task id ;;
        _tid <~ load_field _task id ;;
        if tid =? _tid then ret 1
        else
          nxt <~ load_next node ;;
          isexist_loop fuel' list task nxt
  end.

Definition isexist_in (list : nodeptr) (task : Z) : M Z :=
  fuel <~ walk_fuel ;;
  first <~ load_next list ;;
  isexist_loop fuel list task first.

Definition _qtask_isexist (task : Z) : M Z := isexist_in TaskListHead task.
Definition _qdtask_isexsit (task : Z) : M Z := isexist_in SuspendListHead task.

(** [c = *name++]: the value of a plain [char] converted to [int].  Plain
    [char] is signed on the platform modelled (x86-64, System V ABI), so a
    byte of 128 or more reads as a negative number; a 7-bit character
    reads as its code whatever the signedness of [char]. *)
Definition char_value (ch : Ascii.ascii) : Z :=
  let b := Z.of_N (Ascii.N_of_ascii ch) in
  if 128 <=? b then b - 256 else b.

(** [_id_calc]: DJB2 over the characters of the name up to the terminating
    NUL.  The sum is computed in [int] and kept in a [uint16_t]. *)
Fixpoint _id_calc_loop (hash : Z) (name : string) : Z :=
  match name with
  | EmptyString => hash
  | String ch rest =>
      let c := char_value ch in
      if c =? 0 then hash
      else _id_calc_loop (uint16_wrap (Z.shiftl hash 5 + hash + c)) rest
  end.

Definition _id_calc (name : option string) : Z :=
  match name with
  | None => 0
  | Some n => _id_calc_loop 5381 n
  end.

(** [qtask_sched_init] *)
Definition qtask_sched_init : M unit :=
  store_next TaskListHead TaskListHead ;;;
  store_prev TaskListHead TaskListHead ;;;
  store_next SuspendListHead SuspendListHead ;;;
  store_prev SuspendListHead SuspendListHead.

(** The block shared by del, suspend and resume when the task is found in
    the list it is leaving:
    [task->isready = 0; task->timer = task->period; _list_remove(&task->task_node);] *)
Definition reset_and_remove (task : Z) : M unit :=
  store_task task (set_isready 0) ;;;
  p <~ load_field task period ;;
  store_task task (set_timer p) ;;;
  _list_remove (TaskNode task).

(** [qtask_add] *)
Definition qtask_add (task : Z) (nm : option string) (h : Z) (tick : Z) : M Z :=
  store_task task (set_name nm) ;;;
  store_task task (set_id (_id_calc nm)) ;;;
  store_task task (set_isready 0) ;;;
  store_task task (set_handle h) ;;;
  store_task task (set_timer tick) ;;;
  store_task task (set_period tick) ;;;
  store_task task (set_rtime 0) ;;;
  store_task task (set_rtick 0) ;;;
  e <~ _qdtask_isexsit task ;;
  (if e =? 0 then ret tt else reset_and_remove task) ;;;
  e <~ _qtask_isexist task ;;
  if e =? 0 then
    _list_insert TaskListHead (TaskNode task) ;;;
    ret 0
  else ret 1.

(** [qtask_del] *)
Definition qtask_del (task : Z) : M Z :=
  e <~ _qtask_isexist task ;;
  (if e =? 0 then ret tt else reset_and_remove task) ;;;
  e <~ _qdtask_isexsit task ;;
  if e =? 0 then
    _list_insert SuspendListHead (TaskNode task) ;;;
    ret 0
  else ret (-1).

(** [QTASK_ITERATOR_SAFE]: the successor is read before the body runs.
    [safe_start] is the initialiser, [safe_advance] the increment. *)
Definition load_next_or_null (p : nodeptr) : M nodeptr :=
  if decide (p = NodeNull) then ret NodeNull else load_next p.

Definition safe_start (list : nodeptr) : M (nodeptr * nodeptr) :=
  node <~ load_next_or_null list ;;
  safe <~ load_next_or_null node ;;
  ret (node, safe).

Definition safe_advance (safe : nodeptr) : M (nodeptr * nodeptr) :=
  safe' <~ load_next_or_null safe ;;
  ret (safe, safe').

(** The loop condition [node && node != (list)]. *)
Definition safe_continue (list node : nodeptr) : bool :=
  bool_decide (node ≠ NodeNull) && bool_decide (node ≠ list).

(** [qtask_suspend] *)
Fixpoint qtask_suspend_loop (fuel : nat) (tid : Z) (node safe : nodeptr) : M Z :=
  match fuel with
  | O => out_of_fuel
  | S fuel' =>
      if safe_continue TaskListHead node then
        task <~ QTASK_ENTRY node ;;
        i <~ load_field task id ;;
        if i =? tid then
          e <~ _qtask_isexist task ;;
          (if e =? 0 then ret tt else reset_and_remove task) ;;;
          e <~ _qdtask_isexsit task ;;
          if e =? 0 then
            _list_insert SuspendListHead (TaskNode task) ;;;
            ret 0
          else ret (-1)
        else
          ns <~ safe_advance safe ;;
          qtask_suspend_loop fuel' tid ns.1 ns.2
      else ret (-1)
  end.

Definition qtask_suspend (nm : option string) : M Z :=
  fuel <~ walk_fuel ;;
  ns <~ safe_start TaskListHead ;;
  qtask_suspend_loop fuel (_id_calc nm) ns.1 ns.2.

(** [qtask_resume] *)
Fixpoint qtask_resume_loop (fuel : nat) (tid : Z) (node safe : nodeptr) : M Z :=
  match fuel with
  | O => out_of_fuel
  | S fuel' =>
      if safe_continue SuspendListHead node then
        task <~ QTASK_ENTRY node ;;
        i <~ load_field task id ;;
        if i =? tid then
          e <~ _qdtask_isexsit task ;;
          (if e =? 0 then ret tt else reset_and_remove task) ;;;
          e <~ _qtask_isexist task ;;
          if e =? 0 then
            _list_insert TaskListHead (TaskNode task) ;;;
            ret 0
          else
            ns <~ safe_advance safe ;;
            qtask_resume_loop fuel' tid ns.1 ns.2
        else
          ns <~ safe_advance safe ;;
          qtask_resume_loop fuel' tid ns.1 ns.2
      else ret (-1)
  end.

Definition qtask_resume (nm : option string) : M Z :=
  fuel <~ walk_fuel ;;
  ns <~ safe_start SuspendListHead ;;
  qtask_resume_loop fuel (_id_calc nm) ns.1 ns.2.

(** [qtask_obj]: the address of the first active task with the id of the
    name, 0 (QNULL) when there is none. *)
Fixpoint qtask_obj_loop (fuel : nat) (tid : Z) (node : nodeptr) : M Z :=
  match fuel with
  | O => out_of_fuel
  | S fuel' =>
      if decide (node = TaskListHead) then ret 0
      else
        task <~ QTASK_ENTRY node ;;
        i <~ load_field task id ;;
        if i =? tid then ret task
        else
          nxt <~ load_next node ;;
          qtask_obj_loop fuel' tid nxt
  end.

Definition qtask_obj (taskname : option string) : M Z :=
  fuel <~ walk_fuel ;;
  first <~ load_next TaskListHead ;;
  qtask_obj_loop fuel (_id_calc taskname) first.

(** [qtask_exec] *)
Definition exec_body (task : Z) : M unit :=
  r <~ load_field task isready ;;
  if r =? 0 then ret tt
  else
    h <~ load_field task handle ;;
    call_handle h ;;;                       (* task->handle(); *)
    rt <~ load_field task rtick ;;
    store_task task (set_rtime rt) ;;;      (* task->rtime = task->rtick; *)
    store_task task (set_isready 0) ;;;     (* task->isready = 0; *)
    store_task task (set_rtick 0).          (* task->rtick = 0; *)

Fixpoint qtask_exec_loop (fuel : nat) (node safe : nodeptr) : M unit :=
  match fuel with
  | O => out_of_fuel
  | S fuel' =>
      if safe_continue TaskListHead node then
        task <~ QTASK_ENTRY node ;;
        exec_body task ;;;
        ns <~ safe_advance safe ;;
        qtask_exec_loop fuel' ns.1 ns.2
      else ret tt
  end.

Definition qtask_exec : M unit :=
  fuel <~ walk_fuel ;;
  ns <~ safe_start TaskListHead ;;
  qtask_exec_loop fuel ns.1 ns.2.

(** [qtask_exec] with callbacks that run code: [cb h] is what the function
    at address [h] does to the store when it is called, which can be any
    scheduler code.  The successor is captured before the body, as in
    [qtask_exec_loop]; the step budget is that of the list as it stands
    when the pass starts. *)
Definition call_handle_with (cb : Z → M unit) (h : Z) : M unit :=
  call_handle h ;;; cb h.

Definition exec_body_with (cb : Z → M unit) (task : Z) : M unit :=
  r <~ load_field task isready ;;
  if r =? 0 then ret tt
  else
    h <~ load_field task handle ;;
    call_handle_with cb h ;;;               (* task->handle(); *)
    rt <~ load_field task rtick ;;
    store_task task (set_rtime rt) ;;;      (* task->rtime = task->rtick; *)
    store_task task (set_isready 0) ;;;     (* task->isready = 0; *)
    store_task task (set_rtick 0).          (* task->rtick = 0; *)

Fixpoint qtask_exec_loop_with (cb : Z → M unit) (fuel : nat) (node safe : nodeptr) : M unit :=
  match fuel with
  | O => out_of_fuel
  | S fuel' =>
      if safe_continue TaskListHead node then
        task <~ QTASK_ENTRY node ;;
        exec_body_with cb task ;;;
        ns <~ safe_advance safe ;;
        qtask_exec_loop_with cb fuel' ns.1 ns.2
      else ret tt
  end.

Definition qtask_exec_with (cb : Z → M unit) : M unit :=
  fuel <~ walk_fuel ;;
  ns <~ safe_start TaskListHead ;;
  qtask_exec_loop_with cb fuel ns.1 ns.2.

(** [qtask_tick_increase].  [tick_body] is the statement
    [if(task->timer > 0) { if(--task->timer <= 0) { ... } }]. *)
Definition tick_body (task : Z) : M unit :=
  tm <~ load_field task timer ;;
  if 0 <? tm then
    let tm' := size_wrap (tm - 1) in
    store_task task (set_timer tm') ;;;     (* --task->timer *)
    if tm' <=? 0 then
      store_task task (set_isready 1) ;;;
      store_run_task task ;;;
      p <~ load_field task period ;;
      store_task task (set_timer p)
    else ret tt
  else ret tt.

(** The scan leaves the loop by [return] once [count] exceeds 1000, so the
    number of bodies run is bounded and [fuel] only has to cover them. *)
Fixpoint qtask_tick_increase_loop (fuel : nat) (count : Z) (node safe : nodeptr) : M unit :=
  match fuel with
  | O => out_of_fuel
  | S fuel' =>
      if safe_continue TaskListHead node then
        (* node is not QNULL here; node->next and node->prev are read *)
        nn <~ load_next node ;;
        np <~ load_prev node ;;
        if bool_decide (nn = NodeNull) || bool_decide (np = NodeNull) then ret tt
        else
          task <~ QTASK_ENTRY node ;;
          if task =? 0 then ret tt
          else
            tick_body task ;;;
            let count' := count + 1 in
            if 1000 <? count' then ret tt
            else
              ns <~ safe_advance safe ;;
              qtask_tick_increase_loop fuel' count' ns.1 ns.2
      else ret tt
  end.

Definition qtask_tick_increase : M unit :=
  ns <~ safe_start TaskListHead ;;
  qtask_tick_increase_loop 1002 0 ns.1 ns.2.

(** [qtask_runtime_increase] *)
Definition runtime_body (task : Z) : M unit :=
  r <~ load_field task isready ;;
  if r =? 0 then ret tt
  else
    rt <~ load_field task rtick ;;
    store_task task (set_rtick (size_wrap (rt + 1))).

Fixpoint qtask_runtime_increase_loop (fuel : nat) (node : nodeptr) : M unit :=
  match fuel with
  | O => out_of_fuel
  | S fuel' =>
      if decide (node = TaskListHead) then ret tt
      else
        task <~ QTASK_ENTRY node ;;
        runtime_body task ;;;
        nxt <~ load_next node ;;
        qtask_runtime_increase_loop fuel' nxt
  end.

Definition qtask_runtime_increase : M unit :=
  fuel <~ walk_fuel ;;
  first <~ load_next TaskListHead ;;
  qtask_runtime_increase_loop fuel first.

(** [qtask_sleep]: the store is guarded by [!sched->run_task]. *)
Definition qtask_sleep (tick : Z) : M unit :=
  rt <~ load_run_task ;;
  if rt =? 0 then store_task rt (set_timer tick)
  else ret tt.

(** [qtask_tick_set] *)
Definition qtask_tick_set (obj : Z) (tick : Z) : M unit :=
  store_task obj (set_period tick).

(** ** Specification vocabulary *)

(** Successor and predecessor of a node, when the node exists. *)
Definition nxt (s : mem) (p : nodeptr) : option nodeptr := next <$> get_node s p.
Definition prv (s : mem) (p : nodeptr) : option nodeptr := prev <$> get_node s p.

(** [chain s p l q]: following [next] from [p] visits exactly the nodes of
    the tasks [l], in order, and then reaches [q]; every [prev] points one
    step back. *)
Fixpoint chain (s : mem) (p : nodeptr) (l : list Z) (q : nodeptr) : Prop :=
  match l with
  | [] => nxt s p = Some q ∧ prv s q = Some p
  | t :: l' =>
      nxt s p = Some (TaskNode t) ∧ prv s (TaskNode t) = Some p ∧
      chain s (TaskNode t) l' q
  end.

(** A circular list with sentinel [h] holding the tasks [l], head first. *)
Definition dlist (s : mem) (h : nodeptr) (l : list Z) : Prop := chain s h l h.

Definition is_head (h : nodeptr) : Prop := h = TaskListHead ∨ h = SuspendListHead.

(** The scheduler's representation invariant: [act] is the content of the
    active list, [sus] that of the suspended list, and no task object is
    linked twice. *)
Definition Inv (s : mem) (act sus : list Z) : Prop :=
  dlist s TaskListHead act ∧ dlist s SuspendListHead sus ∧ NoDup (act ++ sus).

(** The id stored in the task object at [t]. *)
Definition id_of (s : mem) (t : Z) : option Z := id <$> get_obj s t.

(** Some task of [l] carries the id [i]. *)
Definition has_id (s : mem) (i : Z) (l : list Z) : bool :=
  existsb (λ u, bool_decide (id_of s u = Some i)) l.

(** The tasks of [l] carry pairwise different ids. *)
Definition ids_distinct (s : mem) (l : list Z) : Prop :=
  ∀ u v, u ∈ l → v ∈ l → id_of s u = id_of s v → u = v.

(** The descriptor without its list node. *)
Definition strip (o : QTaskObj) : QTaskObj :=
  set_task_node (mkQTaskList NodeNull NodeNull) o.
Definition payload (s : mem) (t : Z) : option QTaskObj := strip <$> get_obj s t.

(** [s'] differs from [s] at most in list links. *)
Definition same_payload (s s' : mem) : Prop :=
  (∀ u, payload s' u = payload s u) ∧
  run_task (sched s') = run_task (sched s) ∧
  calls s' = calls s ∧
  size (objs s') = size (objs s).

(** [s'] has the links of [s]. *)
Definition same_links (s s' : mem) : Prop := ∀ p, get_node s' p = get_node s p.

(** [s'] differs from [s] in list links and in the descriptor at [t], whose
    fields are now those of [o']. *)
Definition payload_upd (s s' : mem) (t : Z) (o' : QTaskObj) : Prop :=
  (∀ u, payload s' u = if decide (u = t) then Some (strip o') else payload s u) ∧
  run_task (sched s') = run_task (sched s) ∧
  calls s' = calls s ∧
  size (objs s') = size (objs s).

(** Overwriting the object at [t]. *)
Definition put_obj (s : mem) (t : Z) (o : QTaskObj) : mem :=
  with_objs (<[t := o]> (objs s)) s.

(** What [qtask_add] writes into the descriptor before it looks at the lists. *)
Definition init_obj (nm : option string) (h tick : Z) (o : QTaskObj) : QTaskObj :=
  mkQTaskObj nm (_id_calc nm) 0 h tick tick 0 0 (task_node o).

(** What leaving a list does to the descriptor. *)
Definition reset_obj (o : QTaskObj) : QTaskObj :=
  set_timer (period o) (set_isready 0 o).

(** One tick on one descriptor. *)
Definition expires (o : QTaskObj) : bool :=
  (0 <? timer o) && (size_wrap (timer o - 1) <=? 0).
Definition tick_obj (o : QTaskObj) : QTaskObj :=
  if 0 <? timer o then
    if size_wrap (timer o - 1) <=? 0 then set_timer (period o) (set_isready 1 o)
    else set_timer (size_wrap (timer o - 1)) o
  else o.
Definition tick_task (s : mem) (t : Z) : mem :=
  match get_obj s t with
  | Some o =>
      let s1 := put_obj s t (tick_obj o) in
      if expires o then with_sched (set_run_task t (sched s1)) s1 else s1
  | None => s
  end.

(** One execute step on one descriptor. *)
Definition exec_obj (o : QTaskObj) : QTaskObj :=
  if isready o =? 0 then o
  else set_rtick 0 (set_isready 0 (set_rtime (rtick o) o)).
Definition exec_task (s : mem) (t : Z) : mem :=
  match get_obj s t with
  | Some o =>
      if isready o =? 0 then s
      else with_calls (handle o :: calls s) (put_obj s t (exec_obj o))
  | None => s
  end.

(** The node a walk stands on when the tasks [l] remain before [q]. *)
Definition first_of (l : list Z) (q : nodeptr) : nodeptr :=
  match l with
  | [] => q
  | t :: _ => TaskNode t
  end.

(** The last node of a chain that starts at [p] and runs through [l]. *)
Definition last_node (p : nodeptr) (l : list Z) : nodeptr :=
  match last l with
  | Some u => TaskNode u
  | None => p
  end.

(** The last task of [l], scanned head first, whose timer expires in this
    tick; [r] when there is none. *)
Definition last_expired (s : mem) (l : list Z) (r : Z) : Z :=
  foldl (λ r u, match get_obj s u with
                | Some o => if expires o then u else r
                | None => r
                end) r l.

(** The callbacks of the ready tasks of [l], in list order. *)
Definition ready_handles (s : mem) (l : list Z) : list Z :=
  omap (λ u, match get_obj s u with
             | Some o => if isready o =? 0 then None else Some (handle o)
             | None => None
             end) l.

(** The statement sequence that [qtask_add], [qtask_del], [qtask_suspend]
    and [qtask_resume] share: leave the list with sentinel [h] if the id is
    found there, then join the list with sentinel [h'] unless the id is
    found there; [K] is what the function does in the latter case. *)
Definition move_block (h h' : nodeptr) (K : M Z) (t : Z) : M Z :=
  e <~ isexist_in h t ;;
  (if e =? 0 then ret tt else reset_and_remove t) ;;;
  e <~ isexist_in h' t ;;
  if e =? 0 then
    _list_insert h' (TaskNode t) ;;;
    ret 0
  else K.

(** ** The interface as a set of operations *)

Inductive op : Type :=
| OpAdd (t : Z) (nm : option string) (h tick : Z)
| OpDel (t : Z)
| OpSuspend (nm : option string)
| OpResume (nm : option string)
| OpTick
| OpRuntime
| OpExec
| OpSleep (tick : Z)
| OpTickSet (t : Z) (tick : Z).

(** Running one operation; the [void] functions report 0. *)
Definition run_op (o : op) : M Z :=
  match o with
  | OpAdd t nm h tick => qtask_add t nm h tick
  | OpDel t => qtask_del t
  | OpSuspend nm => qtask_suspend nm
  | OpResume nm => qtask_resume nm
  | OpTick => qtask_tick_increase ;;; ret 0
  | OpRuntime => qtask_runtime_increase ;;; ret 0
  | OpExec => qtask_exec ;;; ret 0
  | OpSleep tick => qtask_sleep tick ;;; ret 0
  | OpTickSet t tick => qtask_tick_set t tick ;;; ret 0
  end.

(** Arguments of type [size_t] are not negative. *)
Definition op_args_ok (o : op) : Prop :=
  match o with
  | OpAdd _ _ _ tick => 0 ≤ tick
  | OpSleep tick => 0 ≤ tick
  | OpTickSet _ tick => 0 ≤ tick
  | _ => True
  end.

(** The timing invariant of one descriptor and of the store. *)
Definition obj_ok (o : QTaskObj) : Prop := 0 ≤ timer o ≤ period o.
Definition timer_ok (s : mem) : Prop := ∀ t o, get_obj s t = Some o → obj_ok o.
Definition timer_nonneg (s : mem) : Prop := ∀ t o, get_obj s t = Some o → 0 ≤ timer o.

(** What a registration operation needs in order not to create two
    registered tasks with one id. *)
Definition reg_op_ok (s : mem) (act sus : list Z) (o : op) : Prop :=
  match o with
  | OpAdd t nm _ _ =>
      is_Some (get_obj s t) ∧
      ∀ u, u ∈ act ++ sus → u ≠ t → id_of s u ≠ Some (_id_calc nm)
  | OpDel t =>
      is_Some (get_obj s t) ∧
      (t ∈ act ++ sus ∨ ∀ u, u ∈ act ++ sus → id_of s u ≠ id_of s t)
  | OpSuspend _ | OpResume _ => True
  | _ => False
  end.

(** The operations that drive and tune the scheduler without registering
    anything. *)
Definition drive_op (o : op) : Prop :=
  match o with
  | OpTick | OpRuntime | OpExec | OpSleep _ | OpTickSet _ _ => True
  | _ => False
  end.

(** [s] has the links and the ids of [s0]. *)
Definition keeps_shape (s0 s : mem) : Prop :=
  same_links s0 s ∧ ∀ u, id_of s u = id_of s0 u.

(** The states reached from an initialised scheduler by calls that return,
    when no registration call gives a task an id that another registered
    task carries. *)
Inductive reaches : mem → Prop :=
| reaches_init s s' :
    qtask_sched_init s = Ok (tt, s') → reaches s'
| reaches_register s o r s' :
    reaches s →
    (∀ act sus, Inv s act sus → reg_op_ok s act sus o) →
    run_op o s = Ok (r, s') →
    reaches s'
| reaches_drive s o r s' :
    reaches s → drive_op o → run_op o s = Ok (r, s') → reaches s'.

(** The tasks an operation registers. *)
Definition op_target (o : op) (u : Z) : Prop :=
  match o with
  | OpAdd t _ _ _ | OpDel t => u = t
  | _ => False
  end.

(** Every allocated descriptor satisfies [Q]. *)
Definition all_objs (Q : QTaskObj → Prop) (s : mem) : Prop :=
  ∀ t o, get_obj s t = Some o → Q o.

(** A computation that, when it returns, has kept [P]. *)
Definition preserves {A} (P : mem → Prop) (c : M A) : Prop :=
  ∀ s a s', P s → c s = Ok (a, s') → P s'.

(** Timer and period as unsigned quantities. *)
Definition obj_nonneg (o : QTaskObj) : Prop := 0 ≤ timer o ∧ 0 ≤ period o.

(** ** Executable checks and concrete scenarios *)

(** Readiness flag and countdown of the task at [t]. *)
Definition ready_timer (s : mem) (t : Z) : option (Z * Z) :=
  (λ o, (isready o, timer o)) <$> get_obj s t.

(** Countdown and period of the task at [t]. *)
Definition timer_period (s : mem) (t : Z) : option (Z * Z) :=
  (λ o, (timer o, period o)) <$> get_obj s t.

Definition is_ok {A} (r : result (A * mem)) : bool :=
  match r with
  | Ok _ => true
  | _ => false
  end.

(** Static storage: zero-initialised scheduler and task objects at the
    addresses [ts]. *)
Definition zero_node : QTaskList := mkQTaskList NodeNull NodeNull.
Definition zero_obj : QTaskObj := mkQTaskObj None 0 0 0 0 0 0 0 zero_node.
Definition zero_mem (ts : list Z) : mem :=
  mkMem (mkQTaskSched 0 zero_node zero_node)
        (list_to_map ((λ t, (t, zero_obj)) <$> ts)) [].

Definition state_of {A} (r : result (A * mem)) : mem :=
  match r with
  | Ok (_, s) => s
  | _ => zero_mem []
  end.

Definition value_of {A} (d : A) (r : result (A * mem)) : A :=
  match r with
  | Ok (a, _) => a
  | _ => d
  end.

(** Running operations in sequence, collecting their statuses. *)
Fixpoint run_ops (os : list op) : M (list Z) :=
  match os with
  | [] => ret []
  | o :: os' => r <~ run_op o ;; rs <~ run_ops os' ;; ret (r :: rs)
  end.

(** The scheduler after [qtask_sched_init] on static storage. *)
Definition boot (ts : list Z) : mem := state_of (qtask_sched_init (zero_mem ts)).

(** Decision procedures for the representation predicates. *)
Fixpoint chain_b (s : mem) (p : nodeptr) (l : list Z) (q : nodeptr) : bool :=
  match l with
  | [] => bool_decide (nxt s p = Some q) && bool_decide (prv s q = Some p)
  | t :: l' =>
      bool_decide (nxt s p = Some (TaskNode t)) &&
      bool_decide (prv s (TaskNode t) = Some p) &&
      chain_b s (TaskNode t) l' q
  end.

Definition Inv_b (s : mem) (act sus : list Z) : bool :=
  chain_b s TaskListHead act TaskListHead &&
  chain_b s SuspendListHead sus SuspendListHead &&
  bool_decide (NoDup (act ++ sus)).

Definition objs_forallb (f : QTaskObj → bool) (s : mem) : bool :=
  forallb (λ p, f p.2) (map_to_list (objs s)).

Definition obj_ok_b (o : QTaskObj) : bool :=
  (0 <=? timer o) && (timer o <=? period o).
Definition obj_nonneg_b (o : QTaskObj) : bool :=
  (0 <=? timer o) && (0 <=? period o).

(** Two names with one id: ["led"] and ["guud"] both hash to 35770. *)
Definition collide_script : list op :=
  [ OpAdd 1 (Some "led") 7 3;
    OpAdd 2 (Some "key") 7 3;
    OpSuspend (Some "led");
    OpAdd 2 (Some "guud") 7 3;
    OpSuspend (Some "guud") ].

(** A crowd of [n] tasks at addresses 1..n, each with a two-character name
    of its own id, registered one after the other with period 5. *)
Definition name_of (k : nat) : option string :=
  Some (String (Ascii.ascii_of_nat (48 + k / 33))
          (String (Ascii.ascii_of_nat (48 + k mod 33)) EmptyString)).
Definition addrs (n : nat) : list Z := Z.of_nat <$> seq 1 n.
Definition crowd_script (n : nat) : list op :=
  (λ k, OpAdd (Z.of_nat k) (name_of k) 7 5) <$> seq 1 n.
Definition crowd (n : nat) : mem :=
  state_of (run_ops (crowd_script n) (boot (addrs n))).

(** One task, registered as ["led"] with period 3, after [n] ticks. *)
Definition led_after (n : nat) : mem :=
  state_of (run_ops (OpAdd 1 (Some "led") 7 3 :: replicate n OpTick) (boot [1])).

(** The descriptor of the ["led"] task, linked alone in a list with
    sentinel [h], with ready flag [r] and countdown [tm]. *)
Definition led_obj (h : nodeptr) (r tm : Z) : QTaskObj :=
  mkQTaskObj (Some "led") 35770 r 7 tm 3 0 0 (mkQTaskList h h).

(** Stages of [collide_script] on two task objects: after the first three
    operations task 1 (["led"]) is suspended and task 2 (["key"]) active;
    the fourth re-registers task 2 under ["guud"]. *)
Definition collide_base : mem :=
  state_of (run_ops (take 3 collide_script) (boot [1; 2])).
Definition collide_before : mem :=
  state_of (run_ops (take 4 collide_script) (boot [1; 2])).
Definition collide_after : mem :=
  state_of (qtask_suspend (Some "guud") collide_before).

(** Task 1 registered under a name that hashes to 0 and then suspended;
    task 2 is zero-initialised and was never passed to the scheduler. *)
Definition zero_id_state : mem :=
  state_of (run_ops [OpAdd 1 (Some "afhl") 7 3; OpSuspend (Some "afhl")] (boot [1; 2])).

(** The ["led"] task suspended. *)
Definition led_suspended : mem :=
  state_of (run_ops [OpAdd 1 (Some "led") 7 3; OpSuspend (Some "led")] (boot [1])).
Definition collide_resumed : mem :=
  state_of (qtask_resume (Some "guud") collide_after).

(** ** Further vocabulary and scenarios *)

(** One runtime-accounting step on one descriptor. *)
Definition runtime_obj (o : QTaskObj) : QTaskObj :=
  if isready o =? 0 then o else set_rtick (size_wrap (rtick o + 1)) o.
Definition runtime_task (s : mem) (t : Z) : mem :=
  match get_obj s t with
  | Some o => if isready o =? 0 then s else put_obj s t (runtime_obj o)
  | None => s
  end.

(** A computation that stops on every store: it returns or faults, and
    never exhausts a step budget. *)
Definition halts {A} (c : M A) : Prop := ∀ s, c s ≠ OutOfFuel.

(** The code of a character, as an unsigned byte. *)
Definition char_code (ch : Ascii.ascii) : Z := Z.of_N (Ascii.N_of_ascii ch).

(** The name has no NUL byte before its end. *)
Fixpoint nul_free (n : string) : bool :=
  match n with
  | EmptyString => true
  | String ch rest => negb (char_code ch =? 0) && nul_free rest
  end.

(** Callbacks that return without touching the store. *)
Definition inert (cb : Z → M unit) (h : Z) : Prop := ∀ s, cb h s = Ok (tt, s).
Definition no_callback_code : Z → M unit := λ _, ret tt.

(** Three tasks registered one after the other: ["led"] with period 3,
    ["key"] with period 2, ["adc"] with period 4. *)
Definition trio_script : list op :=
  [ OpAdd 1 (Some "led") 7 3;
    OpAdd 2 (Some "key") 8 2;
    OpAdd 3 (Some "adc") 9 4 ].
Definition trio : mem := state_of (run_ops trio_script (boot [1; 2; 3; 4])).

(** The descriptor stored at [t] (the zero descriptor when there is none). *)
Definition the_obj (s : mem) (t : Z) : QTaskObj := default zero_obj (get_obj s t).

(** One task registered as ["led"] with a tick count of 0. *)
Definition idle_led : mem :=
  state_of (run_ops [OpAdd 1 (Some "led") 7 0] (boot [1])).

(** One task registered with a null callback and period 1, after one tick. *)
Definition null_callback : mem :=
  state_of (run_ops [OpAdd 1 (Some "led") 0 1; OpTick] (boot [1])).

(** The ["led"] task made ready by three ticks and left waiting for four
    calls of [qtask_runtime_increase]. *)
Definition led_waiting : mem :=
  state_of (run_ops (OpAdd 1 (Some "led") 7 3 :: replicate 3 OpTick
                       ++ replicate 4 OpRuntime) (boot [1])).

(** A callback that registers its own task again, as the ["led"] task at
    address 1 with callback 7 would; other callbacks do nothing. *)
Definition reregister_self : Z → M unit :=
  λ h, if h =? 7 then qtask_add 1 (Some "led") 7 3 ;;; ret tt else ret tt.

(** Task 1 registered under ["afhl"], whose id is 0, and active; task 2
    is zero-initialised and was never passed to the scheduler. *)
Definition zero_id_active : mem :=
  state_of (run_ops [OpAdd 1 (Some "afhl") 7 3] (boot [1; 2])).

(** The three registered tasks after two ticks, which make ["key"] ready,
    and three calls of [qtask_runtime_increase]. *)
Definition key_waiting : mem :=
  state_of (run_ops (trio_script ++ replicate 2 OpTick ++ replicate 3 OpRuntime)
              (boot [1; 2; 3; 4])).

(** Every ready task of [l] has a callback. *)
Definition ready_have_handles_b (s : mem) (l : list Z) : bool :=
  forallb (λ u, match get_obj s u with
                | Some o => (isready o =? 0) || negb (handle o =? 0)
                | None => true
                end) l.

(** * Proofs *)

(** ** Store lemmas *)

Lemma get_obj_put_obj s t o u :
  t ≠ 0 → get_obj (put_obj s t o) u = if decide (u = t) then Some o else get_obj s u.
Proof.
  intros Ht. unfold get_obj, put_obj; simpl.
  destruct (decide (u = 0)) as [->|Hu].
  - destruct (decide (0 = t)); congruence.
  - destruct (decide (u = t)) as [->|Hne].
    + apply lookup_insert_eq.
    + by apply lookup_insert_ne.
Qed.

Lemma get_obj_nonnull s t o : get_obj s t = Some o → t ≠ 0.
Proof. unfold get_obj. destruct (decide (t = 0)); congruence. Qed.

Lemma get_obj_lookup s t o : get_obj s t = Some o → objs s !! t = Some o.
Proof. unfold get_obj. destruct (decide (t = 0)); congruence. Qed.

Lemma upd_obj_put s t f o : get_obj s t = Some o → upd_obj s t f = Some (put_obj s t (f o)).
Proof. unfold upd_obj. by intros ->. Qed.

Lemma size_put_obj s t o o' :
  get_obj s t = Some o → size (objs (put_obj s t o')) = size (objs s).
Proof.
  intros H%get_obj_lookup. simpl.
  rewrite <- (insert_id (objs s) t o H) at 2.
  rewrite <- (insert_delete_eq (objs s)), <- (insert_delete_eq (objs s) t o).
  rewrite !map_size_insert_None by apply lookup_delete_eq. done.
Qed.

Lemma put_obj_put_obj s t o o' : put_obj (put_obj s t o) t o' = put_obj s t o'.
Proof. unfold put_obj, with_objs; simpl. by rewrite insert_insert_eq. Qed.

Lemma put_obj_id s t o : get_obj s t = Some o → put_obj s t o = s.
Proof.
  intros H%get_obj_lookup. unfold put_obj, with_objs.
  rewrite insert_id by done. by destruct s.
Qed.

Lemma get_node_put_obj s t o o' p :
  get_obj s t = Some o → task_node o' = task_node o →
  get_node (put_obj s t o') p = get_node s p.
Proof.
  intros H Hn. destruct p as [| | |u]; simpl; try done.
  rewrite get_obj_put_obj by eauto using get_obj_nonnull.
  destruct (decide (u = t)) as [->|]; [|done]. rewrite H; simpl. by f_equal.
Qed.

Lemma get_node_upd_node s p f s' q :
  upd_node s p f = Some s' →
  get_node s' q = if decide (q = p) then f <$> get_node s p else get_node s q.
Proof.
  destruct p as [| | |t]; simpl; try done.
  - intros [= <-]. destruct q; simpl; try done; by case_decide.
  - intros [= <-]. destruct q; simpl; try done; by case_decide.
  - unfold upd_obj. destruct (get_obj s t) as [o|] eqn:Ho; [|done].
    intros [= <-]. fold (put_obj s t (set_task_node (f (task_node o)) o)).
    destruct q as [| | |u]; simpl; try done.
    rewrite get_obj_put_obj by eauto using get_obj_nonnull.
    destruct (decide (u = t)) as [->|Hne].
    + rewrite decide_True by done. done.
    + rewrite decide_False by congruence. done.
Qed.

Lemma upd_node_is_Some s p f : is_Some (get_node s p) → is_Some (upd_node s p f).
Proof.
  destruct p as [| | |t]; simpl; eauto.
  - by intros [? ?].
  - unfold upd_obj. destruct (get_obj s t); simpl; eauto. by intros [? ?].
Qed.

Lemma strip_set_task_node n o : strip (set_task_node n o) = strip o.
Proof. done. Qed.

Lemma upd_node_same_payload s p f s' : upd_node s p f = Some s' → same_payload s s'.
Proof.
  destruct p as [| | |t]; simpl; try done.
  - intros [= <-]. by repeat split.
  - intros [= <-]. by repeat split.
  - unfold upd_obj. destruct (get_obj s t) as [o|] eqn:Ho; [|done].
    intros [= <-]. fold (put_obj s t (set_task_node (f (task_node o)) o)).
    unfold same_payload. split_and!; try done.
    + intros u. unfold payload. rewrite get_obj_put_obj by eauto using get_obj_nonnull.
      destruct (decide (u = t)) as [->|]; [|done]. by rewrite Ho.
    + by eapply size_put_obj.
Qed.

Lemma same_payload_refl s : same_payload s s.
Proof. by repeat split. Qed.

Lemma same_payload_trans s1 s2 s3 :
  same_payload s1 s2 → same_payload s2 s3 → same_payload s1 s3.
Proof.
  intros (A1 & A2 & A3 & A4) (B1 & B2 & B3 & B4).
  unfold same_payload. split_and!; [|congruence..]. intros u. by rewrite B1, A1.
Qed.

Lemma same_payload_id_of s s' t : same_payload s s' → id_of s' t = id_of s t.
Proof.
  intros [H _]. specialize (H t). unfold payload, id_of in *.
  destruct (get_obj s' t) as [o1|], (get_obj s t) as [o2|]; simpl in *; try done.
  assert (strip o1 = strip o2) as E by congruence.
  f_equal. change (id (strip o1) = id (strip o2)). by rewrite E.
Qed.

Lemma same_payload_is_Some s s' t :
  same_payload s s' → is_Some (get_obj s t) → is_Some (get_obj s' t).
Proof.
  intros [H _] [o Ho]. specialize (H t). unfold payload in H. rewrite Ho in H.
  destruct (get_obj s' t); eauto.
Qed.

(** ** Running monadic code *)

Lemma bind_ok {A B} (c : M A) (k : A → M B) s a s' :
  c s = Ok (a, s') → bind c k s = k a s'.
Proof. unfold bind. by intros ->. Qed.

Lemma load_next_ok s p n : nxt s p = Some n → load_next p s = Ok (n, s).
Proof. unfold load_next, lift_get, nxt. by intros ->. Qed.

Lemma load_prev_ok s p n : prv s p = Some n → load_prev p s = Ok (n, s).
Proof. unfold load_prev, lift_get, prv. by intros ->. Qed.

Lemma load_field_ok {A} s t (f : QTaskObj → A) o :
  get_obj s t = Some o → load_field t f s = Ok (f o, s).
Proof. unfold load_field, load_task, lift_get, bind. by intros ->. Qed.

Lemma store_task_ok s t f o :
  get_obj s t = Some o → store_task t f s = Ok (tt, put_obj s t (f o)).
Proof. intros H. unfold store_task, lift_upd. by rewrite (upd_obj_put _ _ _ _ H). Qed.

(** A link store succeeds on an existing node, changes that one link and
    nothing else. *)
Lemma store_next_ok s p v :
  is_Some (get_node s p) →
  ∃ s', store_next p v s = Ok (tt, s') ∧
        (∀ q, nxt s' q = if decide (q = p) then Some v else nxt s q) ∧
        (∀ q, prv s' q = prv s q) ∧
        same_payload s s'.
Proof.
  intros Hp. destruct (upd_node_is_Some s p (set_next v) Hp) as [s' Hs'].
  exists s'. unfold store_next, lift_upd. rewrite Hs'. split; [done|].
  destruct Hp as [n Hn].
  split; [|split]; [| |by eapply upd_node_same_payload].
  - intros q. unfold nxt. rewrite (get_node_upd_node _ _ _ _ q Hs').
    case_decide; [|done]. by rewrite Hn.
  - intros q. unfold prv. rewrite (get_node_upd_node _ _ _ _ q Hs').
    case_decide; [|done]. subst. by rewrite Hn.
Qed.

Lemma store_prev_ok s p v :
  is_Some (get_node s p) →
  ∃ s', store_prev p v s = Ok (tt, s') ∧
        (∀ q, prv s' q = if decide (q = p) then Some v else prv s q) ∧
        (∀ q, nxt s' q = nxt s q) ∧
        same_payload s s'.
Proof.
  intros Hp. destruct (upd_node_is_Some s p (set_prev v) Hp) as [s' Hs'].
  exists s'. unfold store_prev, lift_upd. rewrite Hs'. split; [done|].
  destruct Hp as [n Hn].
  split; [|split]; [| |by eapply upd_node_same_payload].
  - intros q. unfold prv. rewrite (get_node_upd_node _ _ _ _ q Hs').
    case_decide; [|done]. by rewrite Hn.
  - intros q. unfold nxt. rewrite (get_node_upd_node _ _ _ _ q Hs').
    case_decide; [|done]. subst. by rewrite Hn.
Qed.

Lemma nxt_is_Some s p n : nxt s p = Some n → is_Some (get_node s p).
Proof. unfold nxt. destruct (get_node s p); [eauto|done]. Qed.
Lemma prv_is_Some s p n : prv s p = Some n → is_Some (get_node s p).
Proof. unfold prv. destruct (get_node s p); [eauto|done]. Qed.
Lemma node_nxt_is_Some s p : is_Some (get_node s p) → is_Some (nxt s p).
Proof. unfold nxt. intros [n ->]. simpl; eauto. Qed.
Lemma node_prv_is_Some s p : is_Some (get_node s p) → is_Some (prv s p).
Proof. unfold prv. intros [n ->]. simpl; eauto. Qed.
Lemma nxt_node s p : is_Some (nxt s p) → is_Some (get_node s p).
Proof. intros [n H]. by eapply nxt_is_Some. Qed.

Ltac mrun H := rewrite (bind_ok _ _ _ _ _ H).

(** ** The list primitives on links *)

Lemma _list_insert_ok s list node first :
  nxt s list = Some first →
  is_Some (nxt s first) → is_Some (nxt s node) →
  ∃ s', _list_insert list node s = Ok (tt, s') ∧
    (∀ q, nxt s' q = if decide (q = list) then Some node
                      else if decide (q = node) then Some first else nxt s q) ∧
    (∀ q, prv s' q = if decide (q = node) then Some list
                      else if decide (q = first) then Some node else prv s q) ∧
    same_payload s s'.
Proof.
  intros Hl Hf Hn. unfold _list_insert.
  mrun (load_next_ok _ _ _ Hl).
  destruct (store_prev_ok s first node) as (s1 & R1 & P1 & N1 & S1);
    [by apply nxt_node|]. mrun R1.
  assert (nxt s1 list = Some first) as Hl1 by (by rewrite N1).
  mrun (load_next_ok _ _ _ Hl1).
  destruct (store_next_ok s1 node first) as (s2 & R2 & N2 & P2 & S2);
    [apply nxt_node; by rewrite N1|]. mrun R2.
  destruct (store_next_ok s2 list node) as (s3 & R3 & N3 & P3 & S3).
  { apply nxt_node. rewrite N2, N1, Hl. case_decide; eauto. }
  mrun R3.
  destruct (store_prev_ok s3 node list) as (s4 & R4 & P4 & N4 & S4).
  { apply nxt_node. rewrite N3, N2, N1. repeat case_decide; eauto. }
  exists s4. split; [done|]. split_and!.
  - intros q. rewrite N4, N3, N2, N1. done.
  - intros q. rewrite P4, P3, P2, P1. done.
  - eauto using same_payload_trans.
Qed.

Lemma _list_remove_ok s node n p :
  nxt s node = Some n → prv s node = Some p →
  is_Some (nxt s n) → is_Some (nxt s p) →
  ∃ s', _list_remove node s = Ok (tt, s') ∧
    (∀ q, nxt s' q = if decide (q = node) then Some node
                      else if decide (q = p) then Some n else nxt s q) ∧
    (∀ q, prv s' q = if decide (q = node) then Some node
                      else if decide (q = n) then Some p else prv s q) ∧
    same_payload s s'.
Proof.
  intros Hn Hp Hnn Hpn. unfold _list_remove.
  mrun (load_next_ok _ _ _ Hn). mrun (load_prev_ok _ _ _ Hp).
  destruct (store_prev_ok s n p) as (s1 & R1 & P1 & N1 & S1);
    [by apply nxt_node|]. mrun R1.
  assert (prv s1 node = Some p) as Hp1.
  { rewrite P1. by case_decide. }
  assert (nxt s1 node = Some n) as Hn1 by (by rewrite N1).
  mrun (load_prev_ok _ _ _ Hp1). mrun (load_next_ok _ _ _ Hn1).
  destruct (store_next_ok s1 p n) as (s2 & R2 & N2 & P2 & S2);
    [apply nxt_node; by rewrite N1|]. mrun R2.
  destruct (store_prev_ok s2 node node) as (s3 & R3 & P3 & N3 & S3).
  { apply nxt_node. rewrite N2, N1, Hn. case_decide; eauto. }
  mrun R3.
  destruct (store_next_ok s3 node node) as (s4 & R4 & N4 & P4 & S4).
  { apply nxt_node. rewrite N3, N2, N1, Hn. case_decide; eauto. }
  exists s4. split; [done|]. split_and!.
  - intros q. rewrite N4, N3, N2, N1. done.
  - intros q. rewrite P4, P3, P2, P1. done.
  - eauto using same_payload_trans.
Qed.

(** ** Chains *)

Lemma last_node_cons p u l : last_node p (u :: l) = last_node (TaskNode u) l.
Proof.
  unfold last_node. destruct l as [|v l]; [done|].
  rewrite last_cons_cons. destruct (last (v :: l)) eqn:E; [done|].
  by apply last_None in E.
Qed.

Lemma last_node_elem p l :
  last_node p l = p ∨ ∃ u, u ∈ l ∧ last_node p l = TaskNode u.
Proof.
  unfold last_node. destruct (last l) as [u|] eqn:E; [|by left].
  right. exists u. split; [|done]. by apply last_Some_elem_of.
Qed.

Lemma chain_first s p l q :
  chain s p l q → nxt s p = Some (first_of l q) ∧ prv s (first_of l q) = Some p.
Proof. destruct l; simpl; tauto. Qed.

Lemma chain_last s p l q :
  chain s p l q → nxt s (last_node p l) = Some q ∧ prv s q = Some (last_node p l).
Proof.
  revert p. induction l as [|u l IH]; intros p; simpl.
  - done.
  - intros (_ & _ & H). rewrite last_node_cons. by apply IH.
Qed.

Lemma chain_app s p l1 t l2 q :
  chain s p (l1 ++ t :: l2) q ↔ chain s p l1 (TaskNode t) ∧ chain s (TaskNode t) l2 q.
Proof.
  revert p. induction l1 as [|u l1 IH]; intros p; simpl.
  - tauto.
  - rewrite IH. tauto.
Qed.

Lemma chain_alloc s p l q u : chain s p l q → u ∈ l → is_Some (get_obj s u).
Proof.
  revert p. induction l as [|v l IH]; intros p; simpl.
  - intros _ H. by apply elem_of_nil in H.
  - intros (_ & Hp & Hc) [->|Hin]%elem_of_cons; [|by eapply IH].
    apply prv_is_Some in Hp. simpl in Hp. destruct (get_obj s v); [eauto|].
    by destruct Hp.
Qed.

Lemma chain_nxt_is_Some s p l q u : chain s p l q → u ∈ l → is_Some (nxt s (TaskNode u)).
Proof.
  intros Hc Hin. apply node_nxt_is_Some. simpl.
  destruct (chain_alloc _ _ _ _ _ Hc Hin) as [o ->]. simpl; eauto.
Qed.

Lemma chain_frame s s' p l q :
  chain s p l q →
  nxt s' p = nxt s p → prv s' q = prv s q →
  (∀ u, u ∈ l → nxt s' (TaskNode u) = nxt s (TaskNode u) ∧
                 prv s' (TaskNode u) = prv s (TaskNode u)) →
  chain s' p l q.
Proof.
  revert p. induction l as [|u l IH]; intros p; simpl.
  - intros [H1 H2] -> -> _. done.
  - intros (H1 & H2 & H3) -> Hq Hl.
    destruct (Hl u) as [Hn Hp]; [by left|].
    split_and!; [done|by rewrite Hp|].
    apply IH; [done|done|done|]. intros v Hv. apply Hl. by right.
Qed.

(** Re-targeting the end of a chain: the interior is untouched, the last
    node now points to [y] and [y] points back to it. *)
Lemma chain_relink s s' p l x y :
  chain s p l x → NoDup l → (∀ u, u ∈ l → p ≠ TaskNode u) →
  (∀ u, u ∈ l → prv s' (TaskNode u) = prv s (TaskNode u)) →
  (∀ z, (z = p ∨ ∃ u, u ∈ l ∧ z = TaskNode u) → z ≠ last_node p l →
        nxt s' z = nxt s z) →
  nxt s' (last_node p l) = Some y → prv s' y = Some (last_node p l) →
  chain s' p l y.
Proof.
  revert p. induction l as [|u l IH]; intros p; simpl.
  - done.
  - intros (H1 & H2 & H3) [Hu Hnd]%NoDup_cons Hp Hprv Hnxt.
    rewrite last_node_cons. intros Hl1 Hl2.
    assert (p ≠ last_node (TaskNode u) l) as Hpl.
    { destruct (last_node_elem (TaskNode u) l) as [->|(v & Hv & ->)].
      - apply Hp. by left.
      - apply Hp. by right. }
    split_and!.
    + rewrite Hnxt; [done|by left|by rewrite last_node_cons].
    + rewrite Hprv; [done|by left].
    + apply (IH (TaskNode u)); try done.
      * intros v Hv [= ->]. done.
      * intros v Hv. apply Hprv. by right.
      * intros z Hz Hne. apply Hnxt; [|by rewrite last_node_cons].
        right. destruct Hz as [->|(v & Hv & ->)].
        -- exists u. split; [by left|done].
        -- exists v. split; [by right|done].
Qed.

(** The content of a circular list is determined by the links. *)
Lemma chain_unique s p l l' h :
  is_head h → chain s p l h → chain s p l' h → l = l'.
Proof.
  intros Hh. revert p l'. induction l as [|u l IH]; intros p [|u' l']; simpl.
  - done.
  - intros [H1 _] (H2 & _). rewrite H1 in H2. destruct Hh; congruence.
  - intros (H1 & _) [H2 _]. rewrite H1 in H2. destruct Hh; congruence.
  - intros (H1 & _ & H3) (H2 & _ & H4). rewrite H1 in H2. injection H2 as <-.
    f_equal. by eapply IH.
Qed.

Lemma dlist_unique s h l l' : is_head h → dlist s h l → dlist s h l' → l = l'.
Proof. intros. by eapply chain_unique. Qed.

Lemma first_of_cases l q :
  (l = [] ∧ first_of l q = q) ∨ (∃ u l0, l = u :: l0 ∧ first_of l q = TaskNode u).
Proof. destruct l; [by left|right; eauto]. Qed.

Lemma get_obj_nxt_is_Some s t : is_Some (get_obj s t) → is_Some (nxt s (TaskNode t)).
Proof. intros [o Ho]. unfold nxt; simpl. rewrite Ho; simpl; eauto. Qed.

Lemma head_nxt_is_Some s h : is_head h → is_Some (nxt s h).
Proof. intros [-> | ->]; unfold nxt; simpl; eauto. Qed.

Ltac decide_links :=
  repeat case_decide; simplify_eq; try done;
  try (exfalso; set_solver).

(** ** Insertion at the head of a circular list *)
Lemma insert_dlist s h h' l l' t :
  is_head h → is_head h' → h ≠ h' →
  dlist s h l → dlist s h' l' → NoDup (l ++ l') →
  t ∉ l ++ l' → is_Some (get_obj s t) →
  ∃ s', _list_insert h (TaskNode t) s = Ok (tt, s') ∧
        dlist s' h (t :: l) ∧ dlist s' h' l' ∧ same_payload s s'.
Proof.
  intros Hh Hh' Hne Hl Hl' Hnd Ht Hal.
  apply NoDup_app in Hnd as (Hnd1 & Hdisj & Hnd2).
  apply not_elem_of_app in Ht as [Ht1 Ht2].
  destruct (chain_first _ _ _ _ Hl) as [Hf1 Hf2].
  destruct (_list_insert_ok s h (TaskNode t) (first_of l h)) as (s' & R & N & P & SP).
  - done.
  - destruct (first_of_cases l h) as [[-> ->]|(u & l0 & -> & ->)].
    + by apply head_nxt_is_Some.
    + eapply chain_nxt_is_Some; [exact Hl|by left].
  - by apply get_obj_nxt_is_Some.
  - exists s'. split; [done|]. split_and!; [| |done].
    + unfold dlist in *. simpl. split_and!.
      * rewrite N. decide_links.
      * rewrite P. decide_links.
      * destruct l as [|u l0]; simpl in *.
        -- rewrite N, P. destruct Hh as [-> | ->]; decide_links.
        -- destruct Hl as (H1 & H2 & H3).
           apply NoDup_cons in Hnd1 as [Hu Hnd1].
           split_and!.
           ++ rewrite N. destruct Hh as [-> | ->]; decide_links.
           ++ rewrite P. decide_links.
           ++ eapply chain_frame; [exact H3|..].
              ** rewrite N. destruct Hh as [-> | ->]; decide_links.
              ** rewrite P. destruct Hh as [-> | ->]; decide_links.
              ** intros v Hv. rewrite N, P.
                 destruct Hh as [-> | ->]; split; decide_links.
    + unfold dlist in *. eapply chain_frame; [exact Hl'|..].
      * rewrite N. destruct Hh' as [-> | ->]; decide_links.
      * rewrite P.
        destruct (first_of_cases l h) as [[E1 E]|(u & l0 & E1 & E)]; rewrite E;
        subst l; destruct Hh' as [-> | ->]; decide_links.
      * intros v Hv. rewrite N, P.
        destruct (first_of_cases l h) as [[E1 E]|(u & l0 & E1 & E)]; rewrite E;
        subst l; destruct Hh as [-> | ->]; split; decide_links.
Qed.

(** ** Removal of a linked node *)
Lemma remove_dlist s h h' la t lb l' :
  is_head h → is_head h' → h ≠ h' →
  dlist s h (la ++ t :: lb) → dlist s h' l' → NoDup ((la ++ t :: lb) ++ l') →
  ∃ s', _list_remove (TaskNode t) s = Ok (tt, s') ∧
        dlist s' h (la ++ lb) ∧ dlist s' h' l' ∧
        nxt s' (TaskNode t) = Some (TaskNode t) ∧
        prv s' (TaskNode t) = Some (TaskNode t) ∧
        same_payload s s'.
Proof.
  intros Hh Hh' Hne Hl Hl' Hnd.
  apply NoDup_app in Hnd as (Hnd1 & Hdisj & Hnd2).
  apply NoDup_app in Hnd1 as (Hnda & Hdab & Hndb).
  apply NoDup_cons in Hndb as [Htb Hndb].
  assert (t ∉ la) as Hta by (intros Hin; apply (Hdab _ Hin); by left).
  assert (t ∉ l') as Htl' by (apply Hdisj; set_solver).
  unfold dlist in Hl. apply chain_app in Hl as [Hca Hcb].
  destruct (chain_last _ _ _ _ Hca) as [La1 La2].
  destruct (chain_first _ _ _ _ Hcb) as [Fb1 Fb2].
  destruct (_list_remove_ok s (TaskNode t) (first_of lb h) (last_node h la))
    as (s' & R & N & P & SP); [exact Fb1|exact La2| |by rewrite La1|].
  { destruct (first_of_cases lb h) as [[-> ->]|(u & l0 & -> & ->)].
    - by apply head_nxt_is_Some.
    - eapply chain_nxt_is_Some; [exact Hcb|by left]. }
  exists s'. split; [done|].
  assert (last_node h la ≠ TaskNode t) as Hlt.
  { destruct (last_node_elem h la) as [->|(u & Hu & ->)].
    - destruct Hh as [-> | ->]; done.
    - intros [= ->]. done. }
  assert (first_of lb h ≠ TaskNode t) as Hft.
  { destruct (first_of_cases lb h) as [[-> ->]|(u & l0 & -> & ->)].
    - destruct Hh as [-> | ->]; done.
    - intros [= ->]. apply Htb. by left. }
  assert (∀ v, v ∈ la → TaskNode v ≠ first_of lb h) as Hlaf.
  { intros v Hv. destruct (first_of_cases lb h) as [[-> ->]|(u & l0 & -> & ->)].
    - destruct Hh as [-> | ->]; done.
    - intros [= ->]. apply (Hdab _ Hv). right. by left. }
  assert (∀ v, v ∈ lb → TaskNode v ≠ last_node h la) as Hlbl.
  { intros v Hv. destruct (last_node_elem h la) as [->|(u & Hu & ->)].
    - destruct Hh as [-> | ->]; done.
    - intros [= ->]. apply (Hdab _ Hu). by right. }
  assert (chain s' h la (first_of lb h)) as Hca'.
  { eapply chain_relink; [exact Hca|done|..].
    - intros u Hu. destruct Hh as [-> | ->]; done.
    - intros u Hu. rewrite P. rewrite decide_False by (intros [= ->]; done).
      rewrite decide_False by (by apply Hlaf). done.
    - intros z Hz Hzl. rewrite N. rewrite decide_False.
      + by rewrite decide_False.
      + destruct Hz as [->|(u & Hu & ->)].
        * destruct Hh as [-> | ->]; done.
        * intros [= ->]. done.
    - rewrite N. rewrite decide_False by done. by rewrite decide_True.
    - rewrite P. rewrite decide_False by done. by rewrite decide_True. }
  split_and!; [| |rewrite N; by rewrite decide_True|rewrite P; by rewrite decide_True|done].
  - unfold dlist. destruct lb as [|u lb0]; simpl in *.
    + by rewrite app_nil_r.
    + apply chain_app. split; [done|].
      destruct Hcb as (H1 & H2 & H3).
      apply NoDup_cons in Hndb as [Hub Hndb].
      eapply chain_frame; [exact H3|..].
      * rewrite N. rewrite decide_False by (intros [= ->]; apply Htb; by left).
        rewrite decide_False; [done|]. apply Hlbl. by left.
      * rewrite P. destruct Hh as [-> | ->]; decide_links.
      * intros v Hv. rewrite N, P. split.
        -- rewrite decide_False by (intros [= ->]; apply Htb; by right).
           rewrite decide_False; [done|]. apply Hlbl. by right.
        -- rewrite decide_False by (intros [= ->]; apply Htb; by right).
           rewrite decide_False; [done|]. intros [= ->]. done.
  - unfold dlist in *. eapply chain_frame; [exact Hl'|..].
    + rewrite N. rewrite decide_False by (destruct Hh' as [-> | ->]; done).
      rewrite decide_False; [done|].
      destruct (last_node_elem h la) as [->|(u & Hu & ->)]; [done|].
      destruct Hh' as [-> | ->]; done.
    + rewrite P. rewrite decide_False by (destruct Hh' as [-> | ->]; done).
      rewrite decide_False; [done|].
      destruct (first_of_cases lb h) as [[-> ->]|(u & l0 & -> & ->)]; [done|].
      destruct Hh' as [-> | ->]; done.
    + intros v Hv.
      assert (v ≠ t) by (intros ->; done).
      rewrite N, P. split.
      * rewrite decide_False by congruence.
        rewrite decide_False; [done|].
        destruct (last_node_elem h la) as [->|(u & Hu & ->)].
        -- destruct Hh as [-> | ->]; done.
        -- intros [= ->]. apply (Hdisj u); [set_solver|done].
      * rewrite decide_False by congruence.
        rewrite decide_False; [done|].
        destruct (first_of_cases lb h) as [[-> ->]|(u & l0 & -> & ->)].
        -- destruct Hh as [-> | ->]; done.
        -- intros [= ->]. apply (Hdisj u); [set_solver|done].
Qed.

(** ** Step budget *)
Lemma walk_fuel_bound s (l : list Z) :
  NoDup l → (∀ t, t ∈ l → is_Some (get_obj s t)) → (length l ≤ size (objs s))%nat.
Proof.
  intros Hnd Hal.
  rewrite <- size_dom. unfold size at 1, set_size. simpl.
  apply submseteq_length, NoDup_submseteq; [done|].
  intros t Ht. apply elem_of_elements, elem_of_dom.
  destruct (Hal t Ht) as [o Ho]. apply get_obj_lookup in Ho. eauto.
Qed.

Lemma dlist_fuel s h l : dlist s h l → NoDup l → (length l < S (size (objs s)))%nat.
Proof.
  intros Hl Hnd. apply Nat.lt_succ_r, walk_fuel_bound; [done|].
  intros t Ht. by eapply chain_alloc.
Qed.

(** ** Links are untouched by payload writes *)
Lemma chain_same_links s s' p l q : same_links s s' → chain s p l q → chain s' p l q.
Proof.
  intros H Hc.
  eapply chain_frame; [exact Hc|..]; try intros u _; unfold nxt, prv; by rewrite !H.
Qed.

Lemma put_obj_same_links s t o o' :
  get_obj s t = Some o → task_node o' = task_node o → same_links s (put_obj s t o').
Proof. intros H1 H2 p. by eapply get_node_put_obj. Qed.

Lemma put_obj_payload_upd s t o o' :
  get_obj s t = Some o → payload_upd s (put_obj s t o') t o'.
Proof.
  intros H. unfold payload_upd. split_and!; try done.
  - intros u. unfold payload. rewrite get_obj_put_obj by eauto using get_obj_nonnull.
    by case_decide.
  - by eapply size_put_obj.
Qed.

Lemma payload_upd_same_payload s s1 s2 t o' :
  payload_upd s s1 t o' → same_payload s1 s2 → payload_upd s s2 t o'.
Proof.
  intros (A1 & A2 & A3 & A4) (B1 & B2 & B3 & B4). unfold payload_upd.
  split_and!; [|congruence..]. intros u. by rewrite B1, A1.
Qed.

Lemma payload_upd_id_of s s' t o' u :
  payload_upd s s' t o' →
  id_of s' u = if decide (u = t) then Some (id o') else id_of s u.
Proof.
  intros [H _]. specialize (H u). unfold payload, id_of in *.
  destruct (get_obj s' u) as [o1|]; simpl in *.
  - case_decide.
    + assert (strip o1 = strip o') as E by congruence.
      f_equal. change (id (strip o1) = id (strip o')). by rewrite E.
    + destruct (get_obj s u) as [o2|]; simpl in *; [|done].
      assert (strip o1 = strip o2) as E by congruence.
      f_equal. change (id (strip o1) = id (strip o2)). by rewrite E.
  - case_decide; [done|]. by destruct (get_obj s u).
Qed.

(** ** Existence checks *)
Lemma has_id_true s i l : has_id s i l = true ↔ ∃ u, u ∈ l ∧ id_of s u = Some i.
Proof.
  unfold has_id. rewrite existsb_exists. split.
  - intros (u & Hu & Hb). exists u. apply list_elem_of_In in Hu.
    by apply bool_decide_eq_true in Hb.
  - intros (u & Hu & Hb). exists u. apply list_elem_of_In in Hu.
    by rewrite bool_decide_eq_true.
Qed.

Lemma has_id_false s i l : has_id s i l = false ↔ ∀ u, u ∈ l → id_of s u ≠ Some i.
Proof.
  rewrite <- not_true_iff_false, has_id_true. naive_solver.
Qed.

Lemma has_id_ext s s' i l :
  (∀ u, u ∈ l → id_of s' u = id_of s u) → has_id s' i l = has_id s i l.
Proof.
  intros H. destruct (has_id s i l) eqn:E.
  - apply has_id_true in E as (u & Hu & E). apply has_id_true. exists u.
    by rewrite H.
  - apply has_id_false. intros u Hu. rewrite H by done.
    revert u Hu. by apply has_id_false.
Qed.

Lemma isexist_loop_ok s h task o l p fuel :
  is_head h → chain s p l h → get_obj s task = Some o → (length l < fuel)%nat →
  isexist_loop fuel h task (first_of l h) s
  = Ok (if has_id s (id o) l then 1 else 0, s).
Proof.
  intros Hh. revert p fuel. induction l as [|u l IH]; intros p fuel Hc Ho Hf.
  - destruct fuel as [|fuel]; [simpl in Hf; lia|]. simpl.
    by rewrite decide_True.
  - destruct fuel as [|fuel]; [simpl in Hf; lia|].
    destruct Hc as (H1 & H2 & H3).
    destruct (chain_alloc s p (u :: l) h u) as [ou Hou]; [done|by left|].
    simpl. rewrite decide_False by (destruct Hh as [-> | ->]; done).
    unfold QTASK_ENTRY. rewrite (bind_ok _ _ _ u s) by done.
    mrun (load_field_ok s task id o Ho). mrun (load_field_ok s u id ou Hou).
    unfold id_of. rewrite Hou. simpl.
    destruct (id o =? id ou) eqn:E.
    + apply Z.eqb_eq in E. rewrite E. by rewrite bool_decide_eq_true_2.
    + apply Z.eqb_neq in E.
      rewrite bool_decide_eq_false_2 by congruence. simpl.
      destruct (chain_first _ _ _ _ H3) as [F1 _].
      mrun (load_next_ok _ _ _ F1).
      eapply IH; [done|done|]. simpl in Hf. lia.
Qed.

Lemma isexist_in_ok s h task o l :
  is_head h → dlist s h l → NoDup l → get_obj s task = Some o →
  isexist_in h task s = Ok (if has_id s (id o) l then 1 else 0, s).
Proof.
  intros Hh Hl Hnd Ho. unfold isexist_in, walk_fuel.
  rewrite (bind_ok _ _ _ (S (size (objs s))) s) by done.
  destruct (chain_first _ _ _ _ Hl) as [F1 _].
  mrun (load_next_ok _ _ _ F1).
  eapply isexist_loop_ok; eauto using dlist_fuel.
Qed.

(** ** Leaving a list *)
Lemma reset_and_remove_ok s h h' la t lb l' o :
  is_head h → is_head h' → h ≠ h' →
  dlist s h (la ++ t :: lb) → dlist s h' l' → NoDup ((la ++ t :: lb) ++ l') →
  get_obj s t = Some o →
  ∃ s', reset_and_remove t s = Ok (tt, s') ∧
        dlist s' h (la ++ lb) ∧ dlist s' h' l' ∧
        nxt s' (TaskNode t) = Some (TaskNode t) ∧
        prv s' (TaskNode t) = Some (TaskNode t) ∧
        payload_upd s s' t (reset_obj o).
Proof.
  intros Hh Hh' Hne Hl Hl' Hnd Ho. unfold reset_and_remove.
  mrun (store_task_ok s t (set_isready 0) o Ho).
  set (s1 := put_obj s t (set_isready 0 o)).
  assert (get_obj s1 t = Some (set_isready 0 o)) as Ho1.
  { unfold s1. rewrite get_obj_put_obj by eauto using get_obj_nonnull.
    by rewrite decide_True. }
  mrun (load_field_ok s1 t period _ Ho1).
  mrun (store_task_ok s1 t (set_timer (period (set_isready 0 o))) _ Ho1).
  unfold s1. rewrite put_obj_put_obj.
  change (set_timer _ (set_isready 0 o)) with (reset_obj o).
  set (s2 := put_obj s t (reset_obj o)).
  assert (same_links s s2) as SL by (by eapply put_obj_same_links).
  destruct (remove_dlist s2 h h' la t lb l') as (s' & R & D1 & D2 & N & P & SP);
    try done; [by eapply chain_same_links..|].
  exists s'. split_and!; try done.
  eapply payload_upd_same_payload; [|exact SP]. by eapply put_obj_payload_upd.
Qed.

Lemma NoDup_app_swap {A} (l k : list A) : NoDup (l ++ k) → NoDup (k ++ l).
Proof. intros H. by rewrite (Permutation_app_comm k l). Qed.

Lemma NoDup_remove_mid {A} (la lb l' : list A) t :
  NoDup ((la ++ t :: lb) ++ l') → NoDup ((t :: l') ++ (la ++ lb)).
Proof.
  intros H. eapply NoDup_Permutation_proper; [|exact H].
  rewrite <- !app_assoc. simpl.
  rewrite (Permutation_app_comm la (t :: lb ++ l')). simpl. constructor.
  rewrite <- !app_assoc.
  rewrite (Permutation_app_comm l' (la ++ lb)).
  rewrite <- !app_assoc.
  by rewrite (Permutation_app_comm la (lb ++ l')), <- app_assoc.
Qed.

Section Move.
(** The block shared by [qtask_add], [qtask_del], [qtask_suspend] and
    [qtask_resume]: leave the list with sentinel [h] if the id is found
    there, then join the list with sentinel [h'] unless the id is found
    there; [K] is what the function does in the latter case. *)
Variables (h h' : nodeptr) (K : M Z).
Hypothesis (Hh : is_head h) (Hh' : is_head h') (Hne : h ≠ h').

Local Abbreviation block := (move_block h h' K).

Lemma move_found s la t lb l' o :
  dlist s h (la ++ t :: lb) → dlist s h' l' → NoDup ((la ++ t :: lb) ++ l') →
  get_obj s t = Some o → has_id s (id o) l' = false →
  ∃ s', block t s = Ok (0, s') ∧
        dlist s' h (la ++ lb) ∧ dlist s' h' (t :: l') ∧
        payload_upd s s' t (reset_obj o).
Proof.
  intros Hl Hl' Hnd Ho Hid. unfold move_block.
  assert (NoDup (la ++ t :: lb) ∧ NoDup l') as [Hnd1 Hnd2].
  { apply NoDup_app in Hnd. tauto. }
  mrun (isexist_in_ok s h t o _ Hh Hl Hnd1 Ho).
  assert (has_id s (id o) (la ++ t :: lb) = true) as ->.
  { apply has_id_true. exists t. split; [set_solver|]. unfold id_of. by rewrite Ho. }
  simpl.
  destruct (reset_and_remove_ok s h h' la t lb l' o) as (s1 & R & D1 & D2 & N & P & PU);
    try done.
  mrun R.
  assert (∃ o1, get_obj s1 t = Some o1 ∧ id o1 = id o) as (o1 & Ho1 & Hid1).
  { pose proof (payload_upd_id_of _ _ _ _ t PU) as E.
    rewrite decide_True in E by done. unfold id_of in E.
    destruct (get_obj s1 t) as [o1|]; [|done]. exists o1. split; [done|].
    simpl in E. by injection E. }
  mrun (isexist_in_ok s1 h' t o1 _ Hh' D2 Hnd2 Ho1).
  assert (has_id s1 (id o1) l' = false) as ->.
  { rewrite Hid1. rewrite <- Hid. apply has_id_ext. intros u Hu.
    rewrite (payload_upd_id_of _ _ _ _ u PU). rewrite decide_False; [done|].
    intros ->. apply NoDup_app in Hnd as (_ & Hd & _). apply (Hd t); [set_solver|done]. }
  simpl.
  apply NoDup_remove_mid in Hnd. simpl in Hnd. apply NoDup_cons in Hnd as [Hnd3 Hnd4].
  destruct (insert_dlist s1 h' h l' (la ++ lb) t) as (s2 & R2 & D3 & D4 & SP);
    [done|done|by apply not_eq_sym|done|done|done|done|eauto|].
  mrun R2. exists s2. split_and!; try done.
  by eapply payload_upd_same_payload.
Qed.

Lemma move_absent s l t l' o :
  dlist s h l → dlist s h' l' → NoDup (l ++ l') → t ∉ l ++ l' →
  get_obj s t = Some o →
  has_id s (id o) l = false → has_id s (id o) l' = false →
  ∃ s', block t s = Ok (0, s') ∧
        dlist s' h l ∧ dlist s' h' (t :: l') ∧ same_payload s s'.
Proof.
  intros Hl Hl' Hnd Ht Ho Hid Hid'. unfold move_block.
  assert (NoDup l ∧ NoDup l') as [Hnd1 Hnd2].
  { apply NoDup_app in Hnd. tauto. }
  mrun (isexist_in_ok s h t o _ Hh Hl Hnd1 Ho). rewrite Hid. simpl.
  unfold ret at 1. unfold bind at 1.
  mrun (isexist_in_ok s h' t o _ Hh' Hl' Hnd2 Ho). rewrite Hid'. simpl.
  destruct (insert_dlist s h' h l' l t) as (s2 & R2 & D3 & D4 & SP);
    [done|done|by apply not_eq_sym|done|done|by apply NoDup_app_swap|set_solver|eauto|].
  mrun R2. exists s2. by split_and!.
Qed.

Lemma move_already s l t l' o :
  dlist s h l → dlist s h' l' → NoDup (l ++ l') →
  get_obj s t = Some o →
  has_id s (id o) l = false → has_id s (id o) l' = true →
  block t s = K s.
Proof.
  intros Hl Hl' Hnd Ho Hid Hid'. unfold move_block.
  assert (NoDup l ∧ NoDup l') as [Hnd1 Hnd2].
  { apply NoDup_app in Hnd. tauto. }
  mrun (isexist_in_ok s h t o _ Hh Hl Hnd1 Ho). rewrite Hid. simpl.
  unfold ret at 1. unfold bind at 1.
  mrun (isexist_in_ok s h' t o _ Hh' Hl' Hnd2 Ho). rewrite Hid'. done.
Qed.
End Move.

Lemma head_task : is_head TaskListHead. Proof. by left. Qed.
Lemma head_suspend : is_head SuspendListHead. Proof. by right. Qed.
Lemma heads_ts : TaskListHead ≠ SuspendListHead. Proof. done. Qed.
Lemma heads_st : SuspendListHead ≠ TaskListHead. Proof. done. Qed.

(** ** qtask_del *)
Lemma qtask_del_active s la t lb sus o :
  Inv s (la ++ t :: lb) sus → get_obj s t = Some o →
  has_id s (id o) sus = false →
  ∃ s', qtask_del t s = Ok (0, s') ∧ Inv s' (la ++ lb) (t :: sus) ∧
        payload_upd s s' t (reset_obj o).
Proof.
  intros (Ha & Hs & Hnd) Ho Hid.
  destruct (move_found TaskListHead SuspendListHead (ret (-1)) head_task head_suspend
              heads_ts s la t lb sus o) as (s' & R & D1 & D2 & PU); try done.
  exists s'. split_and!; try done.
  split_and!; try done. apply NoDup_app_swap. by apply NoDup_remove_mid.
Qed.

Lemma qtask_del_suspended s act sus t o :
  Inv s act sus → get_obj s t = Some o →
  has_id s (id o) act = false → has_id s (id o) sus = true →
  qtask_del t s = Ok (-1, s).
Proof.
  intros (Ha & Hs & Hnd) Ho Hid Hid'.
  by apply (move_already TaskListHead SuspendListHead (ret (-1)) head_task head_suspend
              s act t sus o).
Qed.

Lemma qtask_del_unlinked s act sus t o :
  Inv s act sus → t ∉ act ++ sus → get_obj s t = Some o →
  has_id s (id o) act = false → has_id s (id o) sus = false →
  ∃ s', qtask_del t s = Ok (0, s') ∧ Inv s' act (t :: sus) ∧ same_payload s s'.
Proof.
  intros (Ha & Hs & Hnd) Ht Ho Hid Hid'.
  destruct (move_absent TaskListHead SuspendListHead (ret (-1)) head_task head_suspend
              heads_ts s act t sus o) as (s' & R & D1 & D2 & SP); try done.
  exists s'. split_and!; try done. split_and!; try done.
  apply NoDup_app_swap. simpl. apply NoDup_cons. split; [set_solver|].
  by apply NoDup_app_swap.
Qed.

Lemma first_of_nxt_is_Some s p l h :
  is_head h → chain s p l h → is_Some (nxt s (first_of l h)).
Proof.
  intros Hh Hc. destruct (first_of_cases l h) as [[-> ->]|(u & l0 & -> & ->)].
  - by apply head_nxt_is_Some.
  - eapply chain_nxt_is_Some; [exact Hc|by left].
Qed.

Lemma first_of_not_null l h : is_head h → first_of l h ≠ NodeNull.
Proof. intros [-> | ->]; by destruct l. Qed.

Lemma safe_advance_ok s safe safe' :
  safe ≠ NodeNull → nxt s safe = Some safe' →
  safe_advance safe s = Ok ((safe, safe'), s).
Proof.
  intros Hn H. unfold safe_advance, load_next_or_null.
  rewrite decide_False by done. by mrun (load_next_ok _ _ _ H).
Qed.

Lemma safe_start_ok s h l :
  is_head h → dlist s h l →
  ∃ safe, nxt s (first_of l h) = Some safe ∧
          safe_start h s = Ok ((first_of l h, safe), s).
Proof.
  intros Hh Hl. destruct (chain_first _ _ _ _ Hl) as [F _].
  destruct (first_of_nxt_is_Some s h l h Hh Hl) as [safe Hsafe].
  exists safe. split; [done|]. unfold safe_start, load_next_or_null.
  rewrite decide_False by (destruct Hh as [-> | ->]; done).
  mrun (load_next_ok _ _ _ F).
  rewrite decide_False by (by apply first_of_not_null).
  by mrun (load_next_ok _ _ _ Hsafe).
Qed.

Lemma safe_continue_task h u : is_head h → safe_continue h (TaskNode u) = true.
Proof. intros [-> | ->]; done. Qed.

Lemma safe_continue_head h : safe_continue h h = false.
Proof.
  unfold safe_continue. rewrite (bool_decide_eq_false_2 (h ≠ h)) by tauto.
  apply andb_false_r.
Qed.

(** ** qtask_suspend *)

(** Entries whose id differs from the one looked for are stepped over. *)
Lemma qtask_suspend_loop_skip s tid la rest p fuel safe :
  chain s p (la ++ rest) TaskListHead →
  (∀ u, u ∈ la → id_of s u ≠ Some tid) →
  nxt s (first_of (la ++ rest) TaskListHead) = Some safe →
  (length la ≤ fuel)%nat →
  ∃ safe', nxt s (first_of rest TaskListHead) = Some safe' ∧
    qtask_suspend_loop fuel tid (first_of (la ++ rest) TaskListHead) safe s
    = qtask_suspend_loop (fuel - length la) tid (first_of rest TaskListHead) safe' s.
Proof.
  revert p fuel safe. induction la as [|u la IH]; intros p fuel safe Hc Hid Hs Hf.
  - exists safe. split; [done|]. simpl. by rewrite Nat.sub_0_r.
  - destruct fuel as [|fuel]; [simpl in Hf; lia|].
    simpl in Hc. destruct Hc as (H1 & H2 & H3).
    destruct (chain_alloc s p ((u :: la) ++ rest) TaskListHead u) as [ou Hou];
      [done|by left|].
    destruct (chain_first _ _ _ _ H3) as [F1 _]. simpl in Hs.
    rewrite F1 in Hs. injection Hs as <-.
    destruct (first_of_nxt_is_Some s _ _ _ head_task H3) as [safe2 Hs2].
    destruct (IH (TaskNode u) fuel safe2) as (safe' & Hs' & E); try done.
    { intros v Hv. apply Hid. by right. }
    { simpl in Hf. lia. }
    exists safe'. split; [done|]. simpl. rewrite <- E.
    unfold QTASK_ENTRY. rewrite (bind_ok _ _ _ u s) by done.
    mrun (load_field_ok s u id ou Hou).
    assert ((id ou =? tid) = false) as ->.
    { apply Z.eqb_neq. intros E'. apply (Hid u); [by left|].
      unfold id_of. rewrite Hou. simpl. by rewrite E'. }
    mrun (safe_advance_ok s _ _ (first_of_not_null _ _ head_task) Hs2). done.
Qed.

Lemma qtask_suspend_notfound s act sus nm :
  Inv s act sus → has_id s (_id_calc nm) act = false →
  qtask_suspend nm s = Ok (-1, s).
Proof.
  intros (Ha & Hs & Hnd) Hid. unfold qtask_suspend, walk_fuel.
  rewrite (bind_ok _ _ _ (S (size (objs s))) s) by done.
  destruct (safe_start_ok s _ _ head_task Ha) as (safe & Hsafe & R). mrun R. cbn [fst snd].
  assert (NoDup act) as Hnda by (apply NoDup_app in Hnd; tauto).
  pose proof (dlist_fuel _ _ _ Ha Hnda) as Hf.
  destruct (qtask_suspend_loop_skip s (_id_calc nm) act [] TaskListHead
              (S (size (objs s))) safe) as (safe' & _ & E).
  - by rewrite app_nil_r.
  - by apply has_id_false.
  - by rewrite app_nil_r.
  - lia.
  - rewrite app_nil_r in E. rewrite E.
    destruct (S (size (objs s)) - length act)%nat as [|n] eqn:En; [lia|].
    cbn [qtask_suspend_loop qtask_resume_loop first_of]. by rewrite safe_continue_head.
Qed.

Lemma qtask_suspend_found s la t lb sus nm o :
  Inv s (la ++ t :: lb) sus → get_obj s t = Some o → id o = _id_calc nm →
  has_id s (_id_calc nm) la = false → has_id s (_id_calc nm) sus = false →
  ∃ s', qtask_suspend nm s = Ok (0, s') ∧ Inv s' (la ++ lb) (t :: sus) ∧
        payload_upd s s' t (reset_obj o).
Proof.
  intros (Ha & Hs & Hnd) Ho Hio Hid Hid'. unfold qtask_suspend, walk_fuel.
  rewrite (bind_ok _ _ _ (S (size (objs s))) s) by done.
  destruct (safe_start_ok s _ _ head_task Ha) as (safe & Hsafe & R). mrun R. cbn [fst snd].
  assert (NoDup (la ++ t :: lb)) as Hnda by (apply NoDup_app in Hnd; tauto).
  pose proof (dlist_fuel _ _ _ Ha Hnda) as Hf.
  rewrite length_app in Hf. simpl in Hf.
  destruct (qtask_suspend_loop_skip s (_id_calc nm) la (t :: lb) TaskListHead
              (S (size (objs s))) safe) as (safe' & _ & E); try done.
  { by apply has_id_false. }
  { lia. }
  rewrite E.
  destruct (S (size (objs s)) - length la)%nat as [|n] eqn:En; [lia|].
  destruct (move_found TaskListHead SuspendListHead (ret (-1)) head_task head_suspend
              heads_ts s la t lb sus o) as (s' & R' & D1 & D2 & PU); try done.
  { by rewrite Hio. }
  exists s'. split_and!; try done.
  - cbn [qtask_suspend_loop qtask_resume_loop first_of].
    rewrite safe_continue_task by (by constructor).
    unfold QTASK_ENTRY. rewrite (bind_ok _ _ _ t s) by done.
    mrun (load_field_ok s t id o Ho). rewrite Hio, Z.eqb_refl. exact R'.
  - split_and!; try done. apply NoDup_app_swap. by apply NoDup_remove_mid.
Qed.

(** ** qtask_resume *)
Lemma qtask_resume_loop_skip s tid la rest p fuel safe :
  chain s p (la ++ rest) SuspendListHead →
  (∀ u, u ∈ la → id_of s u ≠ Some tid) →
  nxt s (first_of (la ++ rest) SuspendListHead) = Some safe →
  (length la ≤ fuel)%nat →
  ∃ safe', nxt s (first_of rest SuspendListHead) = Some safe' ∧
    qtask_resume_loop fuel tid (first_of (la ++ rest) SuspendListHead) safe s
    = qtask_resume_loop (fuel - length la) tid (first_of rest SuspendListHead) safe' s.
Proof.
  revert p fuel safe. induction la as [|u la IH]; intros p fuel safe Hc Hid Hs Hf.
  - exists safe. split; [done|]. simpl. by rewrite Nat.sub_0_r.
  - destruct fuel as [|fuel]; [simpl in Hf; lia|].
    simpl in Hc. destruct Hc as (H1 & H2 & H3).
    destruct (chain_alloc s p ((u :: la) ++ rest) SuspendListHead u) as [ou Hou];
      [done|by left|].
    destruct (chain_first _ _ _ _ H3) as [F1 _]. simpl in Hs.
    rewrite F1 in Hs. injection Hs as <-.
    destruct (first_of_nxt_is_Some s _ _ _ head_suspend H3) as [safe2 Hs2].
    destruct (IH (TaskNode u) fuel safe2) as (safe' & Hs' & E); try done.
    { intros v Hv. apply Hid. by right. }
    { simpl in Hf. lia. }
    exists safe'. split; [done|]. simpl. rewrite <- E.
    unfold QTASK_ENTRY. rewrite (bind_ok _ _ _ u s) by done.
    mrun (load_field_ok s u id ou Hou).
    assert ((id ou =? tid) = false) as ->.
    { apply Z.eqb_neq. intros E'. apply (Hid u); [by left|].
      unfold id_of. rewrite Hou. simpl. by rewrite E'. }
    mrun (safe_advance_ok s _ _ (first_of_not_null _ _ head_suspend) Hs2). done.
Qed.

Lemma qtask_resume_notfound s act sus nm :
  Inv s act sus → has_id s (_id_calc nm) sus = false →
  qtask_resume nm s = Ok (-1, s).
Proof.
  intros (Ha & Hs & Hnd) Hid. unfold qtask_resume, walk_fuel.
  rewrite (bind_ok _ _ _ (S (size (objs s))) s) by done.
  destruct (safe_start_ok s _ _ head_suspend Hs) as (safe & Hsafe & R). mrun R. cbn [fst snd].
  assert (NoDup sus) as Hnds by (apply NoDup_app in Hnd; tauto).
  pose proof (dlist_fuel _ _ _ Hs Hnds) as Hf.
  destruct (qtask_resume_loop_skip s (_id_calc nm) sus [] SuspendListHead
              (S (size (objs s))) safe) as (safe' & _ & E).
  - by rewrite app_nil_r.
  - by apply has_id_false.
  - by rewrite app_nil_r.
  - lia.
  - rewrite app_nil_r in E. rewrite E.
    destruct (S (size (objs s)) - length sus)%nat as [|n] eqn:En; [lia|].
    cbn [qtask_suspend_loop qtask_resume_loop first_of]. by rewrite safe_continue_head.
Qed.

Lemma qtask_resume_found s act la t lb nm o :
  Inv s act (la ++ t :: lb) → get_obj s t = Some o → id o = _id_calc nm →
  has_id s (_id_calc nm) la = false → has_id s (_id_calc nm) act = false →
  ∃ s', qtask_resume nm s = Ok (0, s') ∧ Inv s' (t :: act) (la ++ lb) ∧
        payload_upd s s' t (reset_obj o).
Proof.
  intros (Ha & Hs & Hnd) Ho Hio Hid Hid'. unfold qtask_resume, walk_fuel.
  rewrite (bind_ok _ _ _ (S (size (objs s))) s) by done.
  destruct (safe_start_ok s _ _ head_suspend Hs) as (safe & Hsafe & R). mrun R. cbn [fst snd].
  assert (NoDup (la ++ t :: lb)) as Hnds by (apply NoDup_app in Hnd; tauto).
  pose proof (dlist_fuel _ _ _ Hs Hnds) as Hf.
  rewrite length_app in Hf. simpl in Hf.
  destruct (qtask_resume_loop_skip s (_id_calc nm) la (t :: lb) SuspendListHead
              (S (size (objs s))) safe) as (safe' & Hsafe' & E); try done.
  { by apply has_id_false. }
  { lia. }
  rewrite E.
  destruct (S (size (objs s)) - length la)%nat as [|n] eqn:En; [lia|].
  set (K := ns <~ safe_advance safe' ;; qtask_resume_loop n (_id_calc nm) ns.1 ns.2).
  destruct (move_found SuspendListHead TaskListHead K head_suspend head_task
              heads_st s la t lb act o) as (s' & R' & D1 & D2 & PU); try done.
  { by apply NoDup_app_swap. }
  { by rewrite Hio. }
  exists s'. split_and!; try done.
  - cbn [qtask_suspend_loop qtask_resume_loop first_of].
    rewrite safe_continue_task by (by constructor).
    unfold QTASK_ENTRY. rewrite (bind_ok _ _ _ t s) by done.
    mrun (load_field_ok s t id o Ho). rewrite Hio, Z.eqb_refl. exact R'.
  - split_and!; try done. apply NoDup_app_swap in Hnd. by apply NoDup_remove_mid.
Qed.

Lemma get_obj_put_obj_eq s t o : t ≠ 0 → get_obj (put_obj s t o) t = Some o.
Proof. intros H. rewrite get_obj_put_obj by done. by rewrite decide_True. Qed.

Lemma store_task_put s t f o :
  t ≠ 0 → store_task t f (put_obj s t o) = Ok (tt, put_obj s t (f o)).
Proof.
  intros H. rewrite (store_task_ok _ t f o) by (by apply get_obj_put_obj_eq).
  by rewrite put_obj_put_obj.
Qed.

Lemma payload_upd_trans s s1 s2 t o1 o2 :
  payload_upd s s1 t o1 → payload_upd s1 s2 t o2 → payload_upd s s2 t o2.
Proof.
  intros (A1 & A2 & A3 & A4) (B1 & B2 & B3 & B4). unfold payload_upd.
  split_and!; [|congruence..]. intros u. rewrite B1. case_decide; [done|].
  rewrite A1. by rewrite decide_False.
Qed.

Lemma same_payload_upd s s1 s2 t o :
  same_payload s s1 → payload_upd s1 s2 t o → payload_upd s s2 t o.
Proof.
  intros (A1 & A2 & A3 & A4) (B1 & B2 & B3 & B4). unfold payload_upd.
  split_and!; [|congruence..]. intros u. rewrite B1. case_decide; [done|]. by rewrite A1.
Qed.

Lemma Inv_same_links s s' act sus : same_links s s' → Inv s act sus → Inv s' act sus.
Proof.
  intros SL (Ha & Hs & Hnd). split_and!; [..|done]; by eapply chain_same_links.
Qed.

(** ** qtask_add *)

(** The eight field stores at the top of [qtask_add]. *)
Lemma qtask_add_init s t o nm h tick :
  get_obj s t = Some o →
  qtask_add t nm h tick s
  = move_block SuspendListHead TaskListHead (ret 1) t (put_obj s t (init_obj nm h tick o)).
Proof.
  intros Ho. pose proof (get_obj_nonnull _ _ _ Ho) as Ht. unfold qtask_add.
  mrun (store_task_ok s t (set_name nm) o Ho).
  do 7 (erewrite bind_ok; [|by apply store_task_put]).
  done.
Qed.

Lemma has_id_put_other s t o' i l :
  t ≠ 0 → t ∉ l → has_id (put_obj s t o') i l = has_id s i l.
Proof.
  intros Ht Hl. apply has_id_ext. intros u Hu. unfold id_of.
  rewrite get_obj_put_obj by done. rewrite decide_False; [done|]. by intros ->.
Qed.

Lemma id_of_put_obj s t o' u :
  t ≠ 0 → id_of (put_obj s t o') u = if decide (u = t) then Some (id o') else id_of s u.
Proof.
  intros Ht. unfold id_of. rewrite get_obj_put_obj by done. by case_decide.
Qed.

Lemma qtask_add_fresh s act sus t o nm h tick :
  Inv s act sus → get_obj s t = Some o → t ∉ act ++ sus →
  has_id s (_id_calc nm) act = false → has_id s (_id_calc nm) sus = false →
  ∃ s', qtask_add t nm h tick s = Ok (0, s') ∧ Inv s' (t :: act) sus ∧
        payload_upd s s' t (init_obj nm h tick o).
Proof.
  intros HI Ho Ht Hid Hid'. pose proof (get_obj_nonnull _ _ _ Ho) as Ht0.
  rewrite (qtask_add_init _ _ _ _ _ _ Ho).
  set (s0 := put_obj s t (init_obj nm h tick o)).
  assert (same_links s s0) as SL by (by eapply put_obj_same_links).
  destruct (Inv_same_links _ _ _ _ SL HI) as (Ha & Hs & Hnd).
  apply not_elem_of_app in Ht as [Hta Hts].
  destruct (move_absent SuspendListHead TaskListHead (ret 1) head_suspend head_task
              heads_st s0 sus t act (init_obj nm h tick o)) as (s' & R & D1 & D2 & SP);
    try done.
  - by apply NoDup_app_swap.
  - set_solver.
  - by apply get_obj_put_obj_eq.
  - unfold s0. by rewrite has_id_put_other.
  - unfold s0. by rewrite has_id_put_other.
  - exists s'. split_and!; try done.
    + split_and!; try done. simpl. apply NoDup_cons. split; [set_solver|done].
    + eapply payload_upd_same_payload; [|exact SP]. by eapply put_obj_payload_upd.
Qed.

Lemma qtask_add_redundant s act sus t o nm h tick :
  Inv s act sus → get_obj s t = Some o → t ∉ sus →
  has_id s (_id_calc nm) sus = false →
  (t ∈ act ∨ has_id s (_id_calc nm) act = true) →
  qtask_add t nm h tick s = Ok (1, put_obj s t (init_obj nm h tick o)).
Proof.
  intros HI Ho Hts Hid Hact. pose proof (get_obj_nonnull _ _ _ Ho) as Ht0.
  rewrite (qtask_add_init _ _ _ _ _ _ Ho).
  set (s0 := put_obj s t (init_obj nm h tick o)).
  assert (same_links s s0) as SL by (by eapply put_obj_same_links).
  destruct (Inv_same_links _ _ _ _ SL HI) as (Ha & Hs & Hnd).
  rewrite (move_already SuspendListHead TaskListHead (ret 1) head_suspend head_task
              s0 sus t act (init_obj nm h tick o)); try done.
  - by apply NoDup_app_swap.
  - by apply get_obj_put_obj_eq.
  - unfold s0. by rewrite has_id_put_other.
  - apply has_id_true. destruct (decide (t ∈ act)) as [Hin|Hin].
    + exists t. split; [done|]. unfold s0. rewrite id_of_put_obj by done.
      by rewrite decide_True.
    + destruct Hact as [?|Hact]; [done|].
      apply has_id_true in Hact as (u & Hu & E). exists u. split; [done|].
      unfold s0. rewrite id_of_put_obj by done. case_decide; [by subst|done].
Qed.

Lemma qtask_add_suspended s act la t lb o nm h tick :
  Inv s act (la ++ t :: lb) → get_obj s t = Some o →
  has_id s (_id_calc nm) act = false →
  ∃ s', qtask_add t nm h tick s = Ok (0, s') ∧ Inv s' (t :: act) (la ++ lb) ∧
        payload_upd s s' t (init_obj nm h tick o).
Proof.
  intros HI Ho Hid. pose proof (get_obj_nonnull _ _ _ Ho) as Ht0.
  rewrite (qtask_add_init _ _ _ _ _ _ Ho).
  set (s0 := put_obj s t (init_obj nm h tick o)).
  assert (same_links s s0) as SL by (by eapply put_obj_same_links).
  destruct (Inv_same_links _ _ _ _ SL HI) as (Ha & Hs & Hnd).
  assert (t ∉ act) as Hta.
  { apply NoDup_app in Hnd as (_ & Hd & _). intros Hin. apply (Hd t Hin). set_solver. }
  destruct (move_found SuspendListHead TaskListHead (ret 1) head_suspend head_task
              heads_st s0 la t lb act (init_obj nm h tick o)) as (s' & R & D1 & D2 & PU);
    try done.
  - by apply NoDup_app_swap.
  - by apply get_obj_put_obj_eq.
  - unfold s0. by rewrite has_id_put_other.
  - exists s'. split_and!; try done.
    + split_and!; try done. apply NoDup_app_swap in Hnd. by apply NoDup_remove_mid.
    + eapply payload_upd_trans; [by eapply put_obj_payload_upd|exact PU].
Qed.

(** ** qtask_tick_increase *)

Lemma get_obj_with_sched c s t : get_obj (with_sched c s) t = get_obj s t.
Proof. done. Qed.

Lemma tick_body_ok s t o : get_obj s t = Some o → tick_body t s = Ok (tt, tick_task s t).
Proof.
  intros Ho. pose proof (get_obj_nonnull _ _ _ Ho) as Ht.
  unfold tick_body, tick_task. rewrite Ho.
  mrun (load_field_ok s t timer o Ho).
  unfold expires, tick_obj. destruct (0 <? timer o); cbn [andb].
  2: { by rewrite (put_obj_id s t o Ho). }
  mrun (store_task_ok s t (set_timer (size_wrap (timer o - 1))) o Ho).
  destruct (size_wrap (timer o - 1) <=? 0); [|done].
  erewrite bind_ok; [|by apply store_task_put].
  unfold store_run_task at 1. unfold bind at 1.
  set (o2 := set_isready 1 (set_timer (size_wrap (timer o - 1)) o)).
  set (s2 := with_sched _ _).
  assert (get_obj s2 t = Some o2) as Ho2.
  { unfold s2. rewrite get_obj_with_sched. by apply get_obj_put_obj_eq. }
  mrun (load_field_ok s2 t period o2 Ho2).
  rewrite (store_task_ok s2 t _ o2 Ho2). do 2 f_equal.
  unfold s2, put_obj, with_sched, with_objs; simpl. by rewrite insert_insert_eq.
Qed.

Lemma tick_task_same_links s t : same_links s (tick_task s t).
Proof.
  intros p. unfold tick_task. destruct (get_obj s t) as [o|] eqn:Ho; [|done].
  assert (get_node (put_obj s t (tick_obj o)) p = get_node s p) as E.
  { eapply get_node_put_obj; [done|]. unfold tick_obj.
    by destruct (0 <? timer o), (size_wrap (timer o - 1) <=? 0). }
  by destruct (expires o).
Qed.

Lemma get_obj_tick_task s u t :
  get_obj (tick_task s u) t
  = if decide (t = u) then tick_obj <$> get_obj s u else get_obj s t.
Proof.
  unfold tick_task. destruct (get_obj s u) as [o|] eqn:Ho.
  - pose proof (get_obj_nonnull _ _ _ Ho) as Hu.
    assert (get_obj (put_obj s u (tick_obj o)) t
            = if decide (t = u) then Some (tick_obj o) else get_obj s t) as E
      by (by apply get_obj_put_obj).
    by destruct (expires o).
  - case_decide; [by subst|done].
Qed.

Lemma tick_task_calls s u : calls (tick_task s u) = calls s.
Proof.
  unfold tick_task. destruct (get_obj s u); [|done]. by destruct (expires _).
Qed.

Lemma tick_task_run_task s u :
  run_task (sched (tick_task s u))
  = match get_obj s u with
    | Some o => if expires o then u else run_task (sched s)
    | None => run_task (sched s)
    end.
Proof.
  unfold tick_task. destruct (get_obj s u); [|done]. by destruct (expires _).
Qed.

Lemma qtask_tick_increase_loop_ok l s p count fuel safe :
  chain s p l TaskListHead → p ≠ NodeNull →
  nxt s (first_of l TaskListHead) = Some safe →
  0 ≤ count ≤ 1000 → (Z.to_nat (1001 - count) < fuel)%nat →
  qtask_tick_increase_loop fuel count (first_of l TaskListHead) safe s
  = Ok (tt, foldl tick_task s (take (Z.to_nat (1001 - count)) l)).
Proof.
  revert s p count fuel safe.
  induction l as [|u l IH]; intros s p count fuel safe Hc Hp Hs Hcnt Hf.
  - destruct fuel as [|fuel]; [lia|]. cbn [qtask_tick_increase_loop first_of].
    rewrite safe_continue_head. by rewrite take_nil.
  - destruct fuel as [|fuel]; [lia|]. cbn [qtask_tick_increase_loop first_of].
    rewrite safe_continue_task by apply head_task.
    destruct Hc as (H1 & H2 & H3). cbn [first_of] in Hs.
    destruct (chain_first _ _ _ _ H3) as [F1 _].
    assert (safe = first_of l TaskListHead) as -> by congruence.
    mrun (load_next_ok _ _ _ Hs). mrun (load_prev_ok _ _ _ H2).
    rewrite (bool_decide_eq_false_2 (first_of l TaskListHead = NodeNull))
      by (apply first_of_not_null, head_task).
    rewrite (bool_decide_eq_false_2 (p = NodeNull)) by done. cbn [orb].
    unfold QTASK_ENTRY. rewrite (bind_ok _ _ _ u s) by done.
    destruct (chain_alloc s p (u :: l) TaskListHead u) as [ou Hou];
      [by split_and!|by left|].
    pose proof (get_obj_nonnull _ _ _ Hou) as Hu.
    assert ((u =? 0) = false) as -> by (by apply Z.eqb_neq).
    mrun (tick_body_ok s u ou Hou).
    replace (Z.to_nat (1001 - count)) with (S (Z.to_nat (1001 - (count + 1)))) by lia.
    rewrite firstn_cons. cbn [foldl].
    destruct (1000 <? count + 1) eqn:E.
    + apply Z.ltb_lt in E. replace (Z.to_nat (1001 - (count + 1))) with O by lia.
      by rewrite take_0.
    + apply Z.ltb_ge in E.
      pose proof (tick_task_same_links s u) as SL.
      assert (chain (tick_task s u) (TaskNode u) l TaskListHead) as H3'
        by (by eapply chain_same_links).
      destruct (first_of_nxt_is_Some _ _ _ _ head_task H3') as [safe2 Hs2].
      mrun (safe_advance_ok _ _ _ (first_of_not_null l _ head_task) Hs2).
      cbn [fst snd]. eapply IH; try done. lia. lia.
Qed.

Lemma qtask_tick_increase_ok s act sus :
  Inv s act sus →
  qtask_tick_increase s = Ok (tt, foldl tick_task s (take 1001%nat act)).
Proof.
  intros (Ha & Hs & Hnd). unfold qtask_tick_increase.
  destruct (safe_start_ok s _ _ head_task Ha) as (safe & Hsafe & R). mrun R.
  cbn [fst snd].
  rewrite (qtask_tick_increase_loop_ok act s TaskListHead 0 1002 safe);
    [|done|done|done|lia|lia].
  by replace (Z.to_nat (1001 - 0)) with 1001%nat by lia.
Qed.

Lemma fold_tick_same_links s l : same_links s (foldl tick_task s l).
Proof.
  revert s. induction l as [|u l IH]; intros s; simpl; [done|].
  intros p. rewrite IH. apply tick_task_same_links.
Qed.

Lemma fold_tick_calls s l : calls (foldl tick_task s l) = calls s.
Proof.
  revert s. induction l as [|u l IH]; intros s; simpl; [done|].
  by rewrite IH, tick_task_calls.
Qed.

Lemma fold_tick_get s l t :
  NoDup l →
  get_obj (foldl tick_task s l) t
  = if decide (t ∈ l) then tick_obj <$> get_obj s t else get_obj s t.
Proof.
  revert s. induction l as [|u l IH]; intros s Hnd; cbn [foldl].
  - destruct (decide (t ∈ [])) as [H%elem_of_nil|]; done.
  - apply NoDup_cons in Hnd as [Hu Hnd]. rewrite IH by done.
    rewrite !get_obj_tick_task.
    destruct (decide (t = u)) as [->|Hne].
    + rewrite decide_False by done. rewrite decide_True; [done|by left].
    + destruct (decide (t ∈ l)) as [Hin|Hin].
      * rewrite decide_True; [done|by right].
      * rewrite decide_False; [done|]. intros [?|?]%elem_of_cons; done.
Qed.

Lemma fold_tick_run_task s l :
  NoDup l →
  run_task (sched (foldl tick_task s l)) = last_expired s l (run_task (sched s)).
Proof.
  unfold last_expired. revert s. induction l as [|u l IH]; intros s Hnd; simpl; [done|].
  apply NoDup_cons in Hnd as [Hu Hnd]. rewrite IH by done.
  rewrite tick_task_run_task.
  generalize (match get_obj s u with
              | Some o => if expires o then u else run_task (sched s)
              | None => run_task (sched s) end).
  clear IH. induction l as [|v l IH]; intros r; simpl; [done|].
  apply NoDup_cons in Hnd as [Hv Hnd].
  rewrite get_obj_tick_task. rewrite decide_False by (intros ->; apply Hu; by left).
  apply IH; [|done]. intros Hin. apply Hu. by right.
Qed.

(** ** qtask_exec *)

Lemma exec_body_ok s t o :
  get_obj s t = Some o → (isready o ≠ 0 → handle o ≠ 0) →
  exec_body t s = Ok (tt, exec_task s t).
Proof.
  intros Ho Hh. pose proof (get_obj_nonnull _ _ _ Ho) as Ht.
  unfold exec_body, exec_task. rewrite Ho.
  mrun (load_field_ok s t isready o Ho).
  destruct (isready o =? 0) eqn:E; [done|]. apply Z.eqb_neq in E.
  mrun (load_field_ok s t handle o Ho).
  unfold call_handle at 1. unfold bind at 1. rewrite decide_False by auto.
  set (s1 := with_calls _ s).
  assert (get_obj s1 t = Some o) as Ho1 by done.
  mrun (load_field_ok s1 t rtick o Ho1).
  mrun (store_task_ok s1 t (set_rtime (rtick o)) o Ho1).
  do 1 (erewrite bind_ok; [|by apply store_task_put]).
  rewrite store_task_put by done.
  unfold exec_obj. rewrite (proj2 (Z.eqb_neq _ _) E). done.
Qed.

Lemma exec_task_same_links s t : same_links s (exec_task s t).
Proof.
  intros p. unfold exec_task. destruct (get_obj s t) as [o|] eqn:Ho; [|done].
  destruct (isready o =? 0) eqn:E; [done|].
  assert (get_node (put_obj s t (exec_obj o)) p = get_node s p) as E'.
  { eapply get_node_put_obj; [done|]. unfold exec_obj. by rewrite E. }
  done.
Qed.

Lemma get_obj_exec_task s u t :
  get_obj (exec_task s u) t
  = if decide (t = u) then exec_obj <$> get_obj s u else get_obj s t.
Proof.
  unfold exec_task. destruct (get_obj s u) as [o|] eqn:Ho.
  - pose proof (get_obj_nonnull _ _ _ Ho) as Hu.
    destruct (isready o =? 0) eqn:E.
    + case_decide; [|done]. subst. rewrite Ho. simpl. unfold exec_obj. by rewrite E.
    + assert (get_obj (put_obj s u (exec_obj o)) t
              = if decide (t = u) then Some (exec_obj o) else get_obj s t) as E'
        by (by apply get_obj_put_obj).
      done.
  - case_decide; [by subst|done].
Qed.

Lemma qtask_exec_loop_ok l s p fuel safe :
  chain s p l TaskListHead → NoDup l →
  nxt s (first_of l TaskListHead) = Some safe →
  (∀ u o, u ∈ l → get_obj s u = Some o → isready o ≠ 0 → handle o ≠ 0) →
  (length l < fuel)%nat →
  qtask_exec_loop fuel (first_of l TaskListHead) safe s = Ok (tt, foldl exec_task s l).
Proof.
  revert s p fuel safe.
  induction l as [|u l IH]; intros s p fuel safe Hc Hnd Hs Hh Hf.
  - destruct fuel as [|fuel]; [simpl in Hf; lia|]. cbn [qtask_exec_loop first_of].
    by rewrite safe_continue_head.
  - destruct fuel as [|fuel]; [simpl in Hf; lia|]. cbn [qtask_exec_loop first_of].
    rewrite safe_continue_task by apply head_task.
    destruct Hc as (H1 & H2 & H3). cbn [first_of] in Hs.
    apply NoDup_cons in Hnd as [Hu Hnd].
    destruct (chain_first _ _ _ _ H3) as [F1 _].
    assert (safe = first_of l TaskListHead) as -> by congruence.
    unfold QTASK_ENTRY. rewrite (bind_ok _ _ _ u s) by done.
    destruct (chain_alloc s p (u :: l) TaskListHead u) as [ou Hou];
      [by split_and!|by left|].
    mrun (exec_body_ok s u ou Hou (Hh u ou ltac:(by left) Hou)).
    pose proof (exec_task_same_links s u) as SL.
    assert (chain (exec_task s u) (TaskNode u) l TaskListHead) as H3'
      by (by eapply chain_same_links).
    destruct (first_of_nxt_is_Some _ _ _ _ head_task H3') as [safe2 Hs2].
    mrun (safe_advance_ok _ _ _ (first_of_not_null l _ head_task) Hs2).
    cbn [fst snd foldl]. eapply IH; try done.
    + intros v o Hv. rewrite get_obj_exec_task.
      rewrite decide_False by (by intros ->). apply Hh. by right.
    + simpl in Hf. lia.
Qed.

Lemma exec_task_size s t : size (objs (exec_task s t)) = size (objs s).
Proof.
  unfold exec_task. destruct (get_obj s t) as [o|] eqn:Ho; [|done].
  destruct (isready o =? 0); [done|]. by apply (size_put_obj s t o).
Qed.

Lemma qtask_exec_ok s act sus :
  Inv s act sus →
  (∀ u o, u ∈ act → get_obj s u = Some o → isready o ≠ 0 → handle o ≠ 0) →
  qtask_exec s = Ok (tt, foldl exec_task s act).
Proof.
  intros (Ha & Hs & Hnd) Hh. unfold qtask_exec, walk_fuel.
  rewrite (bind_ok _ _ _ (S (size (objs s))) s) by done.
  destruct (safe_start_ok s _ _ head_task Ha) as (safe & Hsafe & R). mrun R.
  cbn [fst snd].
  assert (NoDup act) as Hnda by (apply NoDup_app in Hnd; tauto).
  eapply qtask_exec_loop_ok; eauto using dlist_fuel.
Qed.

Lemma fold_exec_same_links s l : same_links s (foldl exec_task s l).
Proof.
  revert s. induction l as [|u l IH]; intros s; simpl; [done|].
  intros p. rewrite IH. apply exec_task_same_links.
Qed.

Lemma fold_exec_get s l t :
  NoDup l →
  get_obj (foldl exec_task s l) t
  = if decide (t ∈ l) then exec_obj <$> get_obj s t else get_obj s t.
Proof.
  revert s. induction l as [|u l IH]; intros s Hnd; cbn [foldl].
  - destruct (decide (t ∈ [])) as [H%elem_of_nil|]; done.
  - apply NoDup_cons in Hnd as [Hu Hnd]. rewrite IH by done.
    rewrite !get_obj_exec_task.
    destruct (decide (t = u)) as [->|Hne].
    + rewrite decide_False by done. rewrite decide_True; [done|by left].
    + destruct (decide (t ∈ l)) as [Hin|Hin].
      * rewrite decide_True; [done|by right].
      * rewrite decide_False; [done|]. intros [?|?]%elem_of_cons; done.
Qed.

Lemma ready_handles_cons s u l :
  ready_handles s (u :: l)
  = match get_obj s u with
    | Some o => if isready o =? 0 then ready_handles s l else handle o :: ready_handles s l
    | None => ready_handles s l
    end.
Proof.
  unfold ready_handles. cbn [omap list_omap]. destruct (get_obj s u) as [o|]; [|done].
  by destruct (isready o =? 0).
Qed.

Lemma exec_task_calls s u :
  calls (exec_task s u) = ready_handles s [u] ++ calls s.
Proof.
  rewrite ready_handles_cons. unfold exec_task.
  destruct (get_obj s u) as [o|]; [|done]. by destruct (isready o =? 0).
Qed.

Lemma ready_handles_ext s s' l :
  (∀ u, u ∈ l → get_obj s' u = get_obj s u) → ready_handles s' l = ready_handles s l.
Proof.
  induction l as [|u l IH]; intros H; [done|].
  rewrite !ready_handles_cons. rewrite H by (by left).
  rewrite IH; [done|]. intros v Hv. apply H. by right.
Qed.

Lemma fold_exec_calls s l :
  NoDup l → calls (foldl exec_task s l) = rev (ready_handles s l) ++ calls s.
Proof.
  revert s. induction l as [|u l IH]; intros s Hnd; cbn [foldl]; [done|].
  apply NoDup_cons in Hnd as [Hu Hnd]. rewrite IH by done.
  rewrite exec_task_calls.
  rewrite (ready_handles_ext s (exec_task s u) l).
  - rewrite !ready_handles_cons.
    destruct (get_obj s u) as [o|]; [|done].
    destruct (isready o =? 0); [done|].
    cbn [rev]. by rewrite <- app_assoc.
  - intros v Hv. rewrite get_obj_exec_task. rewrite decide_False; [done|]. by intros ->.
Qed.

(** ** Invariants of the descriptors, whatever the shape of the lists *)

Lemma bind_inv {A B} (c : M A) (k : A → M B) s b s' :
  bind c k s = Ok (b, s') → ∃ a s1, c s = Ok (a, s1) ∧ k a s1 = Ok (b, s').
Proof.
  unfold bind. destruct (c s) as [[a s1]| |]; [|done..]. eauto.
Qed.

Lemma preserves_ret {A} P (a : A) : preserves P (ret a).
Proof. intros s a' s' HP [= _ <-]. done. Qed.

Lemma preserves_bind {A B} P (c : M A) (k : A → M B) :
  preserves P c → (∀ a, preserves P (k a)) → preserves P (bind c k).
Proof.
  intros Hc Hk s b s' HP (a & s1 & H1 & H2)%bind_inv.
  eapply Hk; [|exact H2]. by eapply Hc.
Qed.

Lemma preserves_fault {A} P : preserves P (@fault A).
Proof. by intros s a s' _ ?. Qed.

Lemma preserves_out_of_fuel {A} P : preserves P (@out_of_fuel A).
Proof. by intros s a s' _ ?. Qed.

Lemma preserves_lift_get {A} P (g : mem → option A) : preserves P (lift_get g).
Proof.
  intros s a s' HP. unfold lift_get. destruct (g s); [|done]. by intros [= _ <-].
Qed.

Lemma load_field_inv {A} t (f : QTaskObj → A) s a s' :
  load_field t f s = Ok (a, s') → ∃ o, get_obj s t = Some o ∧ a = f o ∧ s' = s.
Proof.
  unfold load_field, load_task, lift_get, bind.
  destruct (get_obj s t) as [o|]; [|done]. intros [= <- <-]. eauto.
Qed.

Lemma store_task_inv t f s a s' :
  store_task t f s = Ok (a, s') → ∃ o, get_obj s t = Some o ∧ s' = put_obj s t (f o).
Proof.
  unfold store_task, lift_upd, upd_obj.
  destruct (get_obj s t) as [o|]; [|done]. intros [= <-]. eauto.
Qed.

Create HintDb pres.

Section Descriptors.
Variable Q : QTaskObj → Prop.
Hypothesis Q_node : ∀ n o, Q o → Q (set_task_node n o).
Hypothesis Q_isready : ∀ v o, Q o → Q (set_isready v o).
Hypothesis Q_rtime : ∀ v o, Q o → Q (set_rtime v o).
Hypothesis Q_rtick : ∀ v o, Q o → Q (set_rtick v o).
Hypothesis Q_reset : ∀ o, Q o → Q (set_timer (period o) o).
Hypothesis Q_dec : ∀ o, Q o → 0 < timer o → Q (set_timer (size_wrap (timer o - 1)) o).
Hypothesis Q_init : ∀ nm h tick o, 0 ≤ tick → Q (init_obj nm h tick o).

Local Abbreviation inv := (all_objs Q).

Lemma all_objs_put s t o' : inv s → Q o' → inv (put_obj s t o').
Proof.
  intros Hs Ho u x. unfold get_obj, put_obj; simpl.
  destruct (decide (u = 0)); [done|].
  destruct (decide (u = t)) as [->|Hne].
  - rewrite lookup_insert_eq. by intros [= <-].
  - rewrite lookup_insert_ne by done. intros H. apply (Hs u).
    unfold get_obj. by rewrite decide_False.
Qed.

Lemma preserves_store_task t f :
  (∀ o, Q o → Q (f o)) → preserves inv (store_task t f).
Proof.
  intros Hf s a s' Hs (o & Ho & ->)%store_task_inv.
  apply all_objs_put; [done|]. apply Hf. by eapply Hs.
Qed.

Lemma preserves_upd_node p f : preserves inv (lift_upd (λ s, upd_node s p f)).
Proof.
  intros s a s' Hs. unfold lift_upd.
  destruct (upd_node s p f) as [s1|] eqn:E; [|done]. intros H.
  assert (s' = s1) as -> by congruence. clear H.
  destruct p as [| | |t]; cbn [upd_node] in E; try done.
  - assert (inv (with_sched (set_task_list (f (task_list (sched s))) (sched s)) s))
      as H by exact Hs.
    by simplify_eq.
  - assert (inv (with_sched (set_suspend_list (f (suspend_list (sched s))) (sched s)) s))
      as H by exact Hs.
    by simplify_eq.
  - unfold upd_obj in E. destruct (get_obj s t) as [o|] eqn:Ho; [|done].
    assert (inv (put_obj s t (set_task_node (f (task_node o)) o))) as H.
    { apply all_objs_put; [done|]. apply Q_node. by eapply Hs. }
    unfold put_obj in H. by simplify_eq.
Qed.

Lemma preserves_store_next p v : preserves inv (store_next p v).
Proof. apply preserves_upd_node. Qed.
Lemma preserves_store_prev p v : preserves inv (store_prev p v).
Proof. apply preserves_upd_node. Qed.
Lemma preserves_load_next p : preserves inv (load_next p).
Proof. apply preserves_lift_get. Qed.
Lemma preserves_load_prev p : preserves inv (load_prev p).
Proof. apply preserves_lift_get. Qed.
Lemma preserves_load_field {A} t (f : QTaskObj → A) : preserves inv (load_field t f).
Proof. intros s a s' Hs (o & _ & _ & ->)%load_field_inv. done. Qed.
Lemma preserves_walk_fuel : preserves inv walk_fuel.
Proof. intros s a s' Hs H. unfold walk_fuel in H. simplify_eq. exact Hs. Qed.
Lemma preserves_store_run_task t : preserves inv (store_run_task t).
Proof. intros s a s' Hs H. unfold store_run_task in H. simplify_eq. exact Hs. Qed.
Lemma preserves_call_handle h : preserves inv (call_handle h).
Proof.
  intros s a s' Hs. unfold call_handle. case_decide; [done|].
  intros E. simplify_eq. exact Hs.
Qed.
Lemma preserves_QTASK_ENTRY p : preserves inv (QTASK_ENTRY p).
Proof. destruct p; simpl; auto using preserves_fault, preserves_ret. Qed.
Lemma preserves_load_next_or_null p : preserves inv (load_next_or_null p).
Proof.
  unfold load_next_or_null. case_decide; auto using preserves_ret, preserves_load_next.
Qed.

#[local] Hint Resolve preserves_ret preserves_fault preserves_out_of_fuel
  preserves_store_next preserves_store_prev preserves_load_next preserves_load_prev
  preserves_load_field preserves_walk_fuel preserves_store_run_task
  preserves_call_handle preserves_QTASK_ENTRY preserves_load_next_or_null
  : pres.

Ltac pres :=
  repeat first
    [ solve [auto with pres]
    | apply preserves_bind; [|intros ?]
    | apply preserves_store_task; solve [auto]
    | match goal with
      | |- preserves _ (if ?b then _ else _) => destruct b
      end ].

Lemma preserves_list_insert l n : preserves inv (_list_insert l n).
Proof. unfold _list_insert. pres. Qed.

Lemma preserves_list_remove n : preserves inv (_list_remove n).
Proof. unfold _list_remove. pres. Qed.

Lemma preserves_reset_and_remove t : preserves inv (reset_and_remove t).
Proof.
  unfold reset_and_remove. apply preserves_bind; [pres|intros _].
  intros s a s' Hs (p & s1 & (o & Ho & -> & ->)%load_field_inv & H)%bind_inv.
  apply bind_inv in H as (? & s2 & (o' & Ho' & ->)%store_task_inv & H).
  eapply preserves_list_remove; [|exact H].
  assert (o' = o) as -> by congruence.
  apply all_objs_put; [done|]. apply Q_reset. by eapply Hs.
Qed.

Lemma preserves_isexist_loop fuel h task node :
  preserves inv (isexist_loop fuel h task node).
Proof. revert node. induction fuel as [|fuel IH]; intros node; simpl; pres. Qed.

Lemma preserves_isexist_in h task : preserves inv (isexist_in h task).
Proof. unfold isexist_in. pres. apply preserves_isexist_loop. Qed.

Lemma preserves_qtask_isexist task : preserves inv (_qtask_isexist task).
Proof. apply preserves_isexist_in. Qed.
Lemma preserves_qdtask_isexsit task : preserves inv (_qdtask_isexsit task).
Proof. apply preserves_isexist_in. Qed.

#[local] Hint Resolve preserves_list_insert preserves_list_remove
  preserves_reset_and_remove preserves_isexist_in preserves_isexist_loop
  preserves_qtask_isexist preserves_qdtask_isexsit : pres.

Lemma preserves_move_block h h' K t :
  preserves inv K → preserves inv (move_block h h' K t).
Proof. intros HK. unfold move_block. pres. Qed.

Lemma preserves_qtask_add t nm h tick :
  0 ≤ tick → preserves inv (qtask_add t nm h tick).
Proof.
  intros Htick s a s' Hs H.
  destruct (get_obj s t) as [o|] eqn:Ho.
  - rewrite (qtask_add_init _ _ _ _ _ _ Ho) in H.
    eapply preserves_move_block; [|apply all_objs_put; [exact Hs|]|exact H].
    + auto with pres.
    + by apply Q_init.
  - unfold qtask_add in H. apply bind_inv in H as (? & ? & (o & Ho' & _)%store_task_inv & _).
    congruence.
Qed.

Lemma preserves_qtask_del t : preserves inv (qtask_del t).
Proof. apply (preserves_move_block TaskListHead SuspendListHead). auto with pres. Qed.

Lemma preserves_safe_start h : preserves inv (safe_start h).
Proof. unfold safe_start. pres. Qed.
Lemma preserves_safe_advance p : preserves inv (safe_advance p).
Proof. unfold safe_advance. pres. Qed.
#[local] Hint Resolve preserves_safe_start preserves_safe_advance : pres.

Lemma preserves_qtask_suspend_loop fuel tid node safe :
  preserves inv (qtask_suspend_loop fuel tid node safe).
Proof.
  revert node safe. induction fuel as [|fuel IH]; intros node safe; simpl; pres.
Qed.

Lemma preserves_qtask_suspend nm : preserves inv (qtask_suspend nm).
Proof. unfold qtask_suspend. pres. apply preserves_qtask_suspend_loop. Qed.

Lemma preserves_qtask_resume_loop fuel tid node safe :
  preserves inv (qtask_resume_loop fuel tid node safe).
Proof.
  revert node safe. induction fuel as [|fuel IH]; intros node safe; simpl; pres.
Qed.

Lemma preserves_qtask_resume nm : preserves inv (qtask_resume nm).
Proof. unfold qtask_resume. pres. apply preserves_qtask_resume_loop. Qed.

Lemma preserves_tick_body t : preserves inv (tick_body t).
Proof.
  intros s a s' Hs H.
  destruct (get_obj s t) as [o|] eqn:Ho.
  - rewrite (tick_body_ok _ _ _ Ho) in H. simplify_eq.
    unfold tick_task. rewrite Ho.
    assert (inv (put_obj s t (tick_obj o))) as Hput.
    { apply all_objs_put; [done|]. pose proof (Hs t o Ho) as HQ. unfold tick_obj.
      destruct (0 <? timer o) eqn:E; [|done]. apply Z.ltb_lt in E.
      destruct (size_wrap (timer o - 1) <=? 0).
      - apply (Q_reset (set_isready 1 o)). by apply Q_isready.
      - by apply Q_dec. }
    by destruct (expires o).
  - unfold tick_body in H.
    apply bind_inv in H as (? & ? & (o & Ho' & _)%load_field_inv & _). congruence.
Qed.

#[local] Hint Resolve preserves_tick_body : pres.

Lemma preserves_qtask_tick_increase_loop fuel count node safe :
  preserves inv (qtask_tick_increase_loop fuel count node safe).
Proof.
  revert count node safe.
  induction fuel as [|fuel IH]; intros count node safe;
    cbn [qtask_tick_increase_loop]; pres.
Qed.

Lemma preserves_qtask_tick_increase : preserves inv qtask_tick_increase.
Proof. unfold qtask_tick_increase. pres. apply preserves_qtask_tick_increase_loop. Qed.

Lemma preserves_exec_body t : preserves inv (exec_body t).
Proof. unfold exec_body. pres. Qed.

#[local] Hint Resolve preserves_exec_body : pres.

Lemma preserves_qtask_exec_loop fuel node safe :
  preserves inv (qtask_exec_loop fuel node safe).
Proof.
  revert node safe. induction fuel as [|fuel IH]; intros node safe;
    cbn [qtask_exec_loop]; pres.
Qed.

Lemma preserves_qtask_exec : preserves inv qtask_exec.
Proof. unfold qtask_exec. pres. apply preserves_qtask_exec_loop. Qed.

Lemma preserves_runtime_body t : preserves inv (runtime_body t).
Proof. unfold runtime_body. pres. Qed.

#[local] Hint Resolve preserves_runtime_body : pres.

Lemma preserves_qtask_runtime_increase_loop fuel node :
  preserves inv (qtask_runtime_increase_loop fuel node).
Proof.
  revert node. induction fuel as [|fuel IH]; intros node;
    cbn [qtask_runtime_increase_loop]; pres.
Qed.

Lemma preserves_qtask_runtime_increase : preserves inv qtask_runtime_increase.
Proof.
  unfold qtask_runtime_increase. pres. apply preserves_qtask_runtime_increase_loop.
Qed.

(** The guard of [qtask_sleep] lets the store through only for a null
    [run_task], where it faults. *)
Lemma preserves_qtask_sleep tick : preserves inv (qtask_sleep tick).
Proof.
  intros s a s' Hs. unfold qtask_sleep, load_run_task, bind.
  destruct (run_task (sched s) =? 0) eqn:E.
  - apply Z.eqb_eq in E. rewrite E. by intros (o & Ho & _)%store_task_inv.
  - intros H. unfold ret in H. by simplify_eq.
Qed.

Lemma preserves_run_op o :
  op_args_ok o → (∀ t tick, o ≠ OpTickSet t tick) → preserves inv (run_op o).
Proof.
  intros Hargs Hne. destruct o; simpl in *.
  - by apply preserves_qtask_add.
  - apply preserves_qtask_del.
  - apply preserves_qtask_suspend.
  - apply preserves_qtask_resume.
  - apply preserves_bind; [apply preserves_qtask_tick_increase|auto with pres].
  - apply preserves_bind; [apply preserves_qtask_runtime_increase|auto with pres].
  - apply preserves_bind; [apply preserves_qtask_exec|auto with pres].
  - apply preserves_bind; [apply preserves_qtask_sleep|auto with pres].
  - by destruct (Hne t tick).
Qed.
End Descriptors.

Lemma size_wrap_dec z : 0 < z → 0 ≤ size_wrap (z - 1) ≤ z - 1.
Proof.
  intros Hz. unfold size_wrap. split.
  - apply Z.mod_pos_bound. done.
  - apply Z.mod_le; [lia|done].
Qed.

Ltac descriptor_arith :=
  intros; unfold obj_ok, obj_nonneg in *; simpl in *;
  try match goal with
      | H : 0 < timer ?o |- _ => pose proof (size_wrap_dec _ H)
      end;
  lia.

Lemma preserves_timer_ok o :
  op_args_ok o → (∀ t tick, o ≠ OpTickSet t tick) → preserves timer_ok (run_op o).
Proof.
  intros Hargs Hne. apply (preserves_run_op obj_ok); try done; descriptor_arith.
Qed.

Lemma preserves_nonneg o : op_args_ok o → preserves (all_objs obj_nonneg) (run_op o).
Proof.
  intros Hargs.
  assert ((∃ t tick, o = OpTickSet t tick) ∨ ∀ t tick, o ≠ OpTickSet t tick)
    as [(t & tick & ->)|Hne] by (destruct o; eauto).
  - simpl in *. apply preserves_bind; [|intros; apply preserves_ret].
    unfold qtask_tick_set. apply preserves_store_task. descriptor_arith.
  - apply (preserves_run_op obj_nonneg); try done; descriptor_arith.
Qed.

(** ** Reading descriptors off payload facts *)

Lemma payload_upd_get s s' t o' :
  payload_upd s s' t o' → ∃ o1, get_obj s' t = Some o1 ∧ strip o1 = strip o'.
Proof.
  intros [H _]. specialize (H t). rewrite decide_True in H by done.
  unfold payload in H. destruct (get_obj s' t) as [o1|]; [|done].
  exists o1. split; [done|]. simpl in H. congruence.
Qed.

Lemma payload_upd_other s s' t o' u o :
  payload_upd s s' t o' → u ≠ t → get_obj s u = Some o →
  ∃ o1, get_obj s' u = Some o1 ∧ strip o1 = strip o.
Proof.
  intros [H _] Hne Ho. specialize (H u). rewrite decide_False in H by done.
  unfold payload in H. rewrite Ho in H.
  destruct (get_obj s' u) as [o1|]; [|done].
  exists o1. split; [done|]. simpl in H. congruence.
Qed.

Lemma strip_fields o1 o2 :
  strip o1 = strip o2 →
  name o1 = name o2 ∧ id o1 = id o2 ∧ isready o1 = isready o2 ∧
  handle o1 = handle o2 ∧ timer o1 = timer o2 ∧ period o1 = period o2 ∧
  rtime o1 = rtime o2 ∧ rtick o1 = rtick o2.
Proof.
  intros E. split_and!.
  - change (name (strip o1) = name (strip o2)). by rewrite E.
  - change (id (strip o1) = id (strip o2)). by rewrite E.
  - change (isready (strip o1) = isready (strip o2)). by rewrite E.
  - change (handle (strip o1) = handle (strip o2)). by rewrite E.
  - change (timer (strip o1) = timer (strip o2)). by rewrite E.
  - change (period (strip o1) = period (strip o2)). by rewrite E.
  - change (rtime (strip o1) = rtime (strip o2)). by rewrite E.
  - change (rtick (strip o1) = rtick (strip o2)). by rewrite E.
Qed.

Lemma id_of_Some s t o : get_obj s t = Some o → id_of s t = Some (id o).
Proof. unfold id_of. by intros ->. Qed.

(** ** Ids stay distinct *)

Lemma ids_distinct_upd s s' t o' l l' :
  payload_upd s s' t o' → ids_distinct s l →
  (∀ u, u ∈ l' → u ∈ l ∨ u = t) →
  (∀ u, u ∈ l → u ≠ t → id_of s u ≠ Some (id o')) →
  ids_distinct s' l'.
Proof.
  intros PU Hd Hsub Hfresh u v Hu Hv.
  rewrite !(payload_upd_id_of _ _ _ _ _ PU).
  destruct (decide (u = t)) as [->|Hut], (decide (v = t)) as [->|Hvt]; try done.
  - intros E. destruct (Hsub v Hv) as [Hin|?]; [|done].
    exfalso. by apply (Hfresh v Hin Hvt).
  - intros E. destruct (Hsub u Hu) as [Hin|?]; [|done].
    exfalso. by apply (Hfresh u Hin Hut).
  - intros E. destruct (Hsub u Hu) as [Hin|?]; [|done].
    destruct (Hsub v Hv) as [Hin'|?]; [|done]. by apply Hd.
Qed.

Lemma ids_distinct_same s s' l l' :
  same_payload s s' → ids_distinct s l → (∀ u, u ∈ l' → u ∈ l) → ids_distinct s' l'.
Proof.
  intros SP Hd Hsub u v Hu Hv. rewrite !(same_payload_id_of _ _ _ SP).
  apply Hd; auto.
Qed.

Lemma ids_distinct_has_id_false s l t o l' :
  ids_distinct s l → get_obj s t = Some o → t ∈ l →
  (∀ u, u ∈ l' → u ∈ l ∧ u ≠ t) → has_id s (id o) l' = false.
Proof.
  intros Hd Ho Ht Hsub. apply has_id_false. intros u Hu E.
  destruct (Hsub u Hu) as [Hin Hne]. apply Hne. apply Hd; try done.
  by rewrite E, (id_of_Some _ _ _ Ho).
Qed.

Lemma NoDup_split_notin {A} (la lb : list A) t :
  NoDup (la ++ t :: lb) → (t ∉ la) ∧ (t ∉ lb).
Proof.
  intros H. apply NoDup_app in H as (_ & Hd & Hb). apply NoDup_cons in Hb as [Hb _].
  split; [|done]. intros Hin. apply (Hd t Hin). by left.
Qed.

(** ** The registration operations on states with distinct ids *)

Section Registration.
Variables (s : mem) (act sus : list Z).
Hypothesis HI : Inv s act sus.
Hypothesis Hd : ids_distinct s (act ++ sus).

Local Abbreviation PARTITIONED o :=
  (∃ r s' act' sus', run_op o s = Ok (r, s') ∧ Inv s' act' sus' ∧
     ids_distinct s' (act' ++ sus') ∧
     (∀ u, u ∈ act' ++ sus' ↔ u ∈ act ++ sus ∨ op_target o u) ∧
     (∀ u, u ∈ act' ++ sus' → (u ∈ act' ∧ (u ∉ sus')) ∨ ((u ∉ act') ∧ u ∈ sus'))).

Lemma Inv_exactly_one s' act' sus' u :
  Inv s' act' sus' → u ∈ act' ++ sus' →
  (u ∈ act' ∧ (u ∉ sus')) ∨ ((u ∉ act') ∧ u ∈ sus').
Proof.
  intros (_ & _ & Hnd) Hu. apply NoDup_app in Hnd as (_ & Hdj & _).
  apply elem_of_app in Hu as [Hu|Hu].
  - left. split; [done|]. by apply Hdj.
  - right. split; [|done]. intros Hin. by apply (Hdj u).
Qed.

Lemma reg_add t nm h tick :
  reg_op_ok s act sus (OpAdd t nm h tick) → PARTITIONED (OpAdd t nm h tick).
Proof.
  intros [[o Ho] Hfresh]. destruct HI as (Ha & Hs & Hnd).
  pose proof (get_obj_nonnull _ _ _ Ho) as Ht0.
  assert (∀ l, (∀ u, u ∈ l → u ∈ act ++ sus ∧ u ≠ t) →
               has_id s (_id_calc nm) l = false) as Hno.
  { intros l Hl. apply has_id_false. intros u Hu.
    destruct (Hl u Hu). by apply Hfresh. }
  destruct (decide (t ∈ act)) as [Hta|Hta]; [|destruct (decide (t ∈ sus)) as [Hts|Hts]].
  - (* already active: the descriptor is rewritten, the lists stay *)
    assert (t ∉ sus) as Hts.
    { apply NoDup_app in Hnd as (_ & Hdj & _). by apply Hdj. }
    exists 1, (put_obj s t (init_obj nm h tick o)), act, sus. cbn [run_op op_target].
    assert (payload_upd s (put_obj s t (init_obj nm h tick o)) t (init_obj nm h tick o))
      as PU by (by eapply put_obj_payload_upd).
    split_and!.
    + apply (qtask_add_redundant s act sus t o); auto.
      apply Hno. intros u Hu. split; [set_solver|]. by intros ->.
    + eapply Inv_same_links; [|exact HI]. by eapply put_obj_same_links.
    + eapply ids_distinct_upd; [exact PU|exact Hd|auto|]. simpl. auto.
    + intros u. split; [auto|]. intros [H| ->]; [done|]. set_solver.
    + intros u. eapply Inv_exactly_one.
      eapply Inv_same_links; [|exact HI]. by eapply put_obj_same_links.
  - (* suspended: moved to the active list *)
    apply list_elem_of_split in Hts as (la & lb & ->).
    destruct (qtask_add_suspended s act la t lb o nm h tick) as (s' & R & HI' & PU);
      try done.
    { apply Hno. intros u Hu. split; [set_solver|]. by intros ->. }
    exists 0, s', (t :: act), (la ++ lb). cbn [run_op op_target]. split_and!; try done.
    + eapply ids_distinct_upd; [exact PU|exact Hd| |simpl; auto].
      intros u. set_solver.
    + intros u. set_solver.
    + intros u. by eapply Inv_exactly_one.
  - (* not registered: inserted at the head of the active list *)
    destruct (qtask_add_fresh s act sus t o nm h tick) as (s' & R & HI' & PU);
      try done.
    { set_solver. }
    { apply Hno. intros u Hu. split; [set_solver|]. by intros ->. }
    { apply Hno. intros u Hu. split; [set_solver|]. by intros ->. }
    exists 0, s', (t :: act), sus. cbn [run_op op_target]. split_and!; try done.
    + eapply ids_distinct_upd; [exact PU|exact Hd| |simpl; auto].
      intros u. set_solver.
    + intros u. set_solver.
    + intros u. by eapply Inv_exactly_one.
Qed.

Lemma reg_del t : reg_op_ok s act sus (OpDel t) → PARTITIONED (OpDel t).
Proof.
  intros [[o Ho] Hreg]. pose proof HI as (Ha & Hs & Hnd).
  destruct (decide (t ∈ act)) as [Hta|Hta]; [|destruct (decide (t ∈ sus)) as [Hts|Hts]].
  - assert (t ∉ sus) as Hts.
    { apply NoDup_app in Hnd as (_ & Hdj & _). by apply Hdj. }
    apply list_elem_of_split in Hta as (la & lb & ->).
    destruct (qtask_del_active s la t lb sus o) as (s' & R & HI' & PU); try done.
    { eapply ids_distinct_has_id_false; [exact Hd|done|set_solver|].
      intros u Hu. split; [set_solver|]. by intros ->. }
    exists 0, s', (la ++ lb), (t :: sus). cbn [run_op op_target]. split_and!; try done.
    + eapply ids_distinct_upd; [exact PU|exact Hd|intros u; set_solver|].
      intros u Hu Hne E. apply Hne. apply Hd; [done|set_solver|].
      by rewrite E, (id_of_Some _ _ _ Ho).
    + intros u. set_solver.
    + intros u. by eapply Inv_exactly_one.
  - exists (-1), s, act, sus. cbn [run_op op_target]. split_and!; try done.
    + apply (qtask_del_suspended s act sus t o); try done.
      * eapply ids_distinct_has_id_false; [exact Hd|done|set_solver|].
        intros u Hu. split; [set_solver|]. by intros ->.
      * apply has_id_true. exists t. split; [done|]. by apply id_of_Some.
    + intros u. set_solver.
    + intros u. by eapply Inv_exactly_one.
  - destruct Hreg as [Hreg|Hreg]; [set_solver|].
    destruct (qtask_del_unlinked s act sus t o) as (s' & R & HI' & SP); try done.
    { set_solver. }
    { apply has_id_false. intros u Hu E. apply (Hreg u); [set_solver|].
      by rewrite E, (id_of_Some _ _ _ Ho). }
    { apply has_id_false. intros u Hu E. apply (Hreg u); [set_solver|].
      by rewrite E, (id_of_Some _ _ _ Ho). }
    exists 0, s', act, (t :: sus). cbn [run_op op_target]. split_and!; try done.
    + intros u v Hu Hv. rewrite !(same_payload_id_of _ _ _ SP).
      destruct (decide (u = t)) as [->|Hut], (decide (v = t)) as [->|Hvt]; try done.
      * intros E. exfalso. apply (Hreg v); [set_solver|done].
      * intros E. exfalso. apply (Hreg u); [set_solver|done].
      * apply Hd; set_solver.
    + intros u. set_solver.
    + intros u. by eapply Inv_exactly_one.
Qed.

(** The first and, ids being distinct, only entry of a list with a given id. *)
Lemma find_id i l :
  (∀ u, u ∈ l → u ∈ act ++ sus) → NoDup l → has_id s i l = true →
  ∃ la t lb o, l = la ++ t :: lb ∧ get_obj s t = Some o ∧ id o = i ∧
               has_id s i la = false ∧ has_id s i lb = false.
Proof.
  intros Hsub Hnd (t & Ht & E)%has_id_true.
  apply list_elem_of_split in Ht as (la & lb & ->).
  unfold id_of in E. destruct (get_obj s t) as [o|] eqn:Ho; [|done].
  injection E as E. exists la, t, lb, o. split_and!; try done.
  - rewrite <- E. eapply ids_distinct_has_id_false; [exact Hd|done|set_solver|].
    intros u Hu. split; [set_solver|]. intros ->.
    by apply NoDup_split_notin in Hnd as [? ?].
  - rewrite <- E. eapply ids_distinct_has_id_false; [exact Hd|done|set_solver|].
    intros u Hu. split; [set_solver|]. intros ->.
    by apply NoDup_split_notin in Hnd as [? ?].
Qed.

Lemma reg_suspend nm : PARTITIONED (OpSuspend nm).
Proof.
  pose proof HI as (Ha & Hs & Hnd).
  assert (NoDup act ∧ NoDup sus) as [Hnda Hnds] by (apply NoDup_app in Hnd; tauto).
  destruct (has_id s (_id_calc nm) act) eqn:E.
  - destruct (find_id (_id_calc nm) act) as (la & t & lb & o & -> & Ho & Hio & H1 & H2);
      try done.
    { set_solver. }
    destruct (qtask_suspend_found s la t lb sus nm o) as (s' & R & HI' & PU); try done.
    { rewrite <- Hio. eapply ids_distinct_has_id_false; [exact Hd|done|set_solver|].
      intros u Hu. split; [set_solver|]. intros ->.
      apply NoDup_app in Hnd as (_ & Hdj & _). apply (Hdj t); set_solver. }
    exists 0, s', (la ++ lb), (t :: sus). cbn [run_op op_target]. split_and!; try done.
    + eapply ids_distinct_upd; [exact PU|exact Hd|intros u; set_solver|].
      intros u Hu Hne E'. apply Hne. apply Hd; [done|set_solver|].
      by rewrite E', (id_of_Some _ _ _ Ho).
    + intros u. set_solver.
    + intros u. by eapply Inv_exactly_one.
  - exists (-1), s, act, sus. cbn [run_op op_target]. split_and!; try done.
    + by eapply qtask_suspend_notfound.
    + intros u. set_solver.
    + intros u. by eapply Inv_exactly_one.
Qed.

Lemma reg_resume nm : PARTITIONED (OpResume nm).
Proof.
  pose proof HI as (Ha & Hs & Hnd).
  assert (NoDup act ∧ NoDup sus) as [Hnda Hnds] by (apply NoDup_app in Hnd; tauto).
  destruct (has_id s (_id_calc nm) sus) eqn:E.
  - destruct (find_id (_id_calc nm) sus) as (la & t & lb & o & -> & Ho & Hio & H1 & H2);
      try done.
    { set_solver. }
    destruct (qtask_resume_found s act la t lb nm o) as (s' & R & HI' & PU); try done.
    { rewrite <- Hio. eapply ids_distinct_has_id_false; [exact Hd|done|set_solver|].
      intros u Hu. split; [set_solver|]. intros ->.
      apply NoDup_app in Hnd as (_ & Hdj & _). apply (Hdj t); set_solver. }
    exists 0, s', (t :: act), (la ++ lb). cbn [run_op op_target]. split_and!; try done.
    + eapply ids_distinct_upd; [exact PU|exact Hd|intros u; set_solver|].
      intros u Hu Hne E'. apply Hne. apply Hd; [done|set_solver|].
      by rewrite E', (id_of_Some _ _ _ Ho).
    + intros u. set_solver.
    + intros u. by eapply Inv_exactly_one.
  - exists (-1), s, act, sus. cbn [run_op op_target]. split_and!; try done.
    + by eapply qtask_resume_notfound.
    + intros u. set_solver.
    + intros u. by eapply Inv_exactly_one.
Qed.
End Registration.

(** ** Soundness of the executable checks *)

Lemma chain_b_sound s p l q : chain_b s p l q = true → chain s p l q.
Proof.
  revert p. induction l as [|t l IH]; intros p; simpl.
  - intros [H1 H2]%andb_prop. split; by eapply bool_decide_eq_true_1.
  - intros [[H1 H2]%andb_prop H3]%andb_prop.
    split_and!; [by eapply bool_decide_eq_true_1..|by apply IH].
Qed.

Lemma Inv_b_sound s act sus : Inv_b s act sus = true → Inv s act sus.
Proof.
  unfold Inv_b. intros [[H1 H2]%andb_prop H3]%andb_prop.
  split_and!; [by apply chain_b_sound..|by eapply bool_decide_eq_true_1].
Qed.

Lemma objs_forallb_sound (f : QTaskObj → bool) (Q : QTaskObj → Prop) s :
  (∀ o, f o = true → Q o) → objs_forallb f s = true → all_objs Q s.
Proof.
  intros Hf H t o Ho%get_obj_lookup. apply Hf.
  unfold objs_forallb in H. rewrite forallb_forall in H.
  apply (H (t, o)). apply list_elem_of_In. by apply elem_of_map_to_list.
Qed.

Lemma obj_ok_b_sound o : obj_ok_b o = true → obj_ok o.
Proof. unfold obj_ok_b, obj_ok. intros [?%Z.leb_le ?%Z.leb_le]%andb_prop. lia. Qed.

Lemma obj_nonneg_b_sound o : obj_nonneg_b o = true → obj_nonneg o.
Proof. unfold obj_nonneg_b, obj_nonneg. intros [?%Z.leb_le ?%Z.leb_le]%andb_prop. lia. Qed.

Lemma run_eq {A} (d : A) (r : result (A * mem)) :
  is_ok r = true → r = Ok (value_of d r, state_of r).
Proof. by destruct r as [[a s]| |]. Qed.

Lemma Inv_determines s act sus act' sus' :
  Inv s act sus → Inv s act' sus' → act' = act ∧ sus' = sus.
Proof.
  intros (A1 & S1 & _) (A2 & S2 & _). split.
  - by eapply dlist_unique; [apply head_task|..].
  - by eapply dlist_unique; [apply head_suspend|..].
Qed.

(** ** qtask_sched_init *)

Lemma qtask_sched_init_ok s :
  ∃ s', qtask_sched_init s = Ok (tt, s') ∧ Inv s' [] [] ∧ same_payload s s'.
Proof.
  unfold qtask_sched_init.
  destruct (store_next_ok s TaskListHead TaskListHead) as (s1 & R1 & N1 & P1 & S1);
    [simpl; eauto|]. mrun R1.
  destruct (store_prev_ok s1 TaskListHead TaskListHead) as (s2 & R2 & P2 & N2 & S2);
    [simpl; eauto|]. mrun R2.
  destruct (store_next_ok s2 SuspendListHead SuspendListHead) as (s3 & R3 & N3 & P3 & S3);
    [simpl; eauto|]. mrun R3.
  destruct (store_prev_ok s3 SuspendListHead SuspendListHead) as (s4 & R4 & P4 & N4 & S4);
    [simpl; eauto|].
  exists s4. split; [exact R4|]. split.
  - unfold Inv, dlist; simpl. split_and!.
    + rewrite N4, N3, N2, N1. by rewrite decide_False, decide_True.
    + rewrite P4, P3, P2. by rewrite decide_False, decide_True.
    + rewrite N4, N3. by rewrite decide_True.
    + rewrite P4. by rewrite decide_True.
    + constructor.
  - eauto using same_payload_trans.
Qed.

(** ** Tick: one descriptor *)

Lemma size_wrap_small z : 0 ≤ z < 2 ^ SIZE_WIDTH → size_wrap z = z.
Proof. intros H. unfold size_wrap. by apply Z.mod_small. Qed.

Lemma tick_obj_cases o :
  0 ≤ timer o < 2 ^ SIZE_WIDTH →
  (timer o = 0 → tick_obj o = o) ∧
  (timer o = 1 → tick_obj o = set_timer (period o) (set_isready 1 o)) ∧
  (1 < timer o → tick_obj o = set_timer (timer o - 1) o).
Proof.
  intros Hr. unfold tick_obj. split_and!.
  - intros ->. done.
  - intros ->. done.
  - intros Hgt. rewrite (proj2 (Z.ltb_lt 0 (timer o))) by lia.
    rewrite size_wrap_small by lia.
    by rewrite (proj2 (Z.leb_gt (timer o - 1) 0)) by lia.
Qed.

Lemma expires_iff o : 0 ≤ timer o < 2 ^ SIZE_WIDTH → expires o = true ↔ timer o = 1.
Proof.
  intros Hr. unfold expires. rewrite andb_true_iff, Z.ltb_lt, Z.leb_le. split.
  - intros [Hpos Hle]. rewrite size_wrap_small in Hle by lia. lia.
  - intros ->. done.
Qed.

Lemma take_lookup_lt {A} (l : list A) n i x :
  l !! i = Some x → (i < n)%nat → x ∈ take n l.
Proof.
  intros Hl Hi. apply list_elem_of_lookup. exists i. by rewrite lookup_take_lt.
Qed.

Lemma take_lookup_ge {A} (l : list A) n i x :
  NoDup l → l !! i = Some x → (n ≤ i)%nat → x ∉ take n l.
Proof.
  intros Hnd Hl Hi [j Hj]%list_elem_of_lookup.
  assert (j < n)%nat as Hjn.
  { apply lookup_lt_Some in Hj. rewrite length_take in Hj. lia. }
  rewrite lookup_take_lt in Hj by done.
  pose proof (NoDup_lookup _ _ _ _ Hnd Hl Hj). lia.
Qed.

Lemma Inv_NoDup_act s act sus : Inv s act sus → NoDup act.
Proof. intros (_ & _ & H). apply NoDup_app in H. tauto. Qed.

(** The tick pass in terms of the active list. *)
Lemma qtask_tick_increase_spec s act sus :
  Inv s act sus →
  ∃ s', qtask_tick_increase s = Ok (tt, s') ∧ Inv s' act sus ∧
        calls s' = calls s ∧
        (∀ i t, act !! i = Some t → (i ≤ 1000)%nat →
                get_obj s' t = tick_obj <$> get_obj s t) ∧
        (∀ i t, act !! i = Some t → (1000 < i)%nat → get_obj s' t = get_obj s t) ∧
        (∀ t, t ∉ act → get_obj s' t = get_obj s t) ∧
        run_task (sched s') = last_expired s (take 1001%nat act) (run_task (sched s)).
Proof.
  intros HI. pose proof (Inv_NoDup_act _ _ _ HI) as Hnd.
  assert (NoDup (take 1001%nat act)) as Hndt.
  { eapply sublist_NoDup; [done|apply sublist_take]. }
  exists (foldl tick_task s (take 1001%nat act)). split_and!.
  - by eapply qtask_tick_increase_ok.
  - eapply Inv_same_links; [apply fold_tick_same_links|done].
  - apply fold_tick_calls.
  - intros i t Hi Hle. rewrite fold_tick_get by done.
    rewrite decide_True; [done|]. eapply take_lookup_lt; [done|lia].
  - intros i t Hi Hlt. rewrite fold_tick_get by done.
    rewrite decide_False; [done|]. eapply take_lookup_ge; [done|done|lia].
  - intros t Ht. rewrite fold_tick_get by done.
    rewrite decide_False; [done|]. intros Hin. apply Ht.
    by apply (sublist_subseteq _ _ (sublist_take act 1001)).
  - by apply fold_tick_run_task.
Qed.

Lemma tick_body_spec s t o :
  get_obj s t = Some o → 0 ≤ timer o < 2 ^ SIZE_WIDTH →
  ∃ s1 o', tick_body t s = Ok (tt, s1) ∧ get_obj s1 t = Some o' ∧
    (timer o = 0 → o' = o ∧ run_task (sched s1) = run_task (sched s)) ∧
    (timer o = 1 → o' = set_timer (period o) (set_isready 1 o) ∧
                   run_task (sched s1) = t) ∧
    (1 < timer o → o' = set_timer (timer o - 1) o ∧
                   run_task (sched s1) = run_task (sched s)).
Proof.
  intros Ho Hr. exists (tick_task s t), (tick_obj o).
  destruct (tick_obj_cases o Hr) as (C0 & C1 & C2).
  pose proof (expires_iff o Hr) as He.
  split_and!.
  - by eapply tick_body_ok.
  - rewrite get_obj_tick_task, decide_True by done. by rewrite Ho.
  - intros E. split; [by apply C0|]. rewrite tick_task_run_task, Ho.
    destruct (expires o); [|done]. destruct He as [He _]. specialize (He eq_refl). lia.
  - intros E. split; [by apply C1|]. rewrite tick_task_run_task, Ho.
    by rewrite (proj2 He E).
  - intros E. split; [by apply C2|]. rewrite tick_task_run_task, Ho.
    destruct (expires o); [|done]. destruct He as [He _]. specialize (He eq_refl). lia.
Qed.

Lemma tick_at_head s t act sus o :
  Inv s (t :: act) sus → get_obj s t = Some o →
  ∃ s', qtask_tick_increase s = Ok (tt, s') ∧ Inv s' (t :: act) sus ∧
        get_obj s' t = Some (tick_obj o).
Proof.
  intros HI Ho.
  destruct (qtask_tick_increase_spec _ _ _ HI) as (s' & R & HI' & _ & Hin & _).
  exists s'. split_and!; try done.
  rewrite (Hin 0%nat t) by (done || lia). by rewrite Ho.
Qed.

Lemma has_id_app s i l k : has_id s i (l ++ k) = has_id s i l || has_id s i k.
Proof. unfold has_id. apply existsb_app. Qed.

(** ** Driving the scheduler changes neither links nor ids *)

Create HintDb shape.

Section Shape.
Variable s0 : mem.

Local Abbreviation shape := (keeps_shape s0).

Lemma keeps_shape_put s t o o' :
  shape s → get_obj s t = Some o →
  task_node o' = task_node o → id o' = id o → shape (put_obj s t o').
Proof.
  intros [SL Hid] Ho Hn Hi. pose proof (get_obj_nonnull _ _ _ Ho) as Ht. split.
  - intros p. rewrite (get_node_put_obj s t o o' p Ho Hn). apply SL.
  - intros u. rewrite id_of_put_obj by done. case_decide; [|apply Hid].
    subst. rewrite <- Hid. unfold id_of. rewrite Ho. simpl. by rewrite Hi.
Qed.

Lemma preserves_shape_store_task t f :
  (∀ o, task_node (f o) = task_node o ∧ id (f o) = id o) →
  preserves shape (store_task t f).
Proof.
  intros Hf s a s' Hs (o & Ho & ->)%store_task_inv.
  destruct (Hf o). by eapply keeps_shape_put.
Qed.

Lemma preserves_shape_load_field {A} t (f : QTaskObj → A) :
  preserves shape (load_field t f).
Proof. intros s a s' Hs (o & _ & _ & ->)%load_field_inv. exact Hs. Qed.

Lemma preserves_shape_walk_fuel : preserves shape walk_fuel.
Proof. intros s a s' Hs H. unfold walk_fuel in H. simplify_eq. exact Hs. Qed.

Lemma preserves_shape_store_run_task t : preserves shape (store_run_task t).
Proof.
  intros s a s' [SL Hid] H. unfold store_run_task in H. simplify_eq. split.
  - intros p. rewrite <- SL. by destruct p.
  - exact Hid.
Qed.

Lemma preserves_shape_call_handle h : preserves shape (call_handle h).
Proof.
  intros s a s' [SL Hid]. unfold call_handle. case_decide; [done|].
  intros E. simplify_eq. split.
  - intros p. rewrite <- SL. by destruct p.
  - exact Hid.
Qed.

Lemma preserves_shape_load_next p : preserves shape (load_next p).
Proof. apply preserves_lift_get. Qed.
Lemma preserves_shape_load_prev p : preserves shape (load_prev p).
Proof. apply preserves_lift_get. Qed.
Lemma preserves_shape_QTASK_ENTRY p : preserves shape (QTASK_ENTRY p).
Proof. destruct p; simpl; auto using preserves_fault, preserves_ret. Qed.
Lemma preserves_shape_load_next_or_null p : preserves shape (load_next_or_null p).
Proof.
  unfold load_next_or_null.
  case_decide; auto using preserves_ret, preserves_shape_load_next.
Qed.

#[local] Hint Resolve preserves_ret preserves_fault preserves_out_of_fuel
  preserves_shape_load_field preserves_shape_walk_fuel
  preserves_shape_store_run_task preserves_shape_call_handle
  preserves_shape_load_next preserves_shape_load_prev
  preserves_shape_QTASK_ENTRY preserves_shape_load_next_or_null : shape.

Ltac shape :=
  repeat first
    [ solve [auto with shape]
    | apply preserves_bind; [|intros ?]
    | apply preserves_shape_store_task; intros ?; split; reflexivity
    | match goal with
      | |- preserves _ (if ?b then _ else _) => destruct b
      end ].

Lemma preserves_shape_safe_start h : preserves shape (safe_start h).
Proof. unfold safe_start. shape. Qed.
Lemma preserves_shape_safe_advance p : preserves shape (safe_advance p).
Proof. unfold safe_advance. shape. Qed.
Lemma preserves_shape_tick_body t : preserves shape (tick_body t).
Proof. unfold tick_body. shape. Qed.
Lemma preserves_shape_exec_body t : preserves shape (exec_body t).
Proof. unfold exec_body. shape. Qed.
Lemma preserves_shape_runtime_body t : preserves shape (runtime_body t).
Proof. unfold runtime_body. shape. Qed.

#[local] Hint Resolve preserves_shape_safe_start preserves_shape_safe_advance
  preserves_shape_tick_body preserves_shape_exec_body
  preserves_shape_runtime_body : shape.

Lemma preserves_shape_tick_loop fuel count node safe :
  preserves shape (qtask_tick_increase_loop fuel count node safe).
Proof.
  revert count node safe.
  induction fuel as [|fuel IH]; intros count node safe;
    cbn [qtask_tick_increase_loop]; shape.
Qed.

Lemma preserves_shape_exec_loop fuel node safe :
  preserves shape (qtask_exec_loop fuel node safe).
Proof.
  revert node safe. induction fuel as [|fuel IH]; intros node safe;
    cbn [qtask_exec_loop]; shape.
Qed.

Lemma preserves_shape_runtime_loop fuel node :
  preserves shape (qtask_runtime_increase_loop fuel node).
Proof.
  revert node. induction fuel as [|fuel IH]; intros node;
    cbn [qtask_runtime_increase_loop]; shape.
Qed.

Lemma preserves_shape_sleep tick : preserves shape (qtask_sleep tick).
Proof.
  intros s a s' Hs. unfold qtask_sleep, load_run_task, bind.
  destruct (run_task (sched s) =? 0) eqn:E.
  - apply Z.eqb_eq in E. rewrite E. by intros (o & Ho & _)%store_task_inv.
  - intros H. unfold ret in H. by simplify_eq.
Qed.

Lemma preserves_shape_drive o : drive_op o → preserves shape (run_op o).
Proof.
  destruct o; try done; intros _; cbn [run_op];
    (apply preserves_bind; [|intros; apply preserves_ret]).
  - unfold qtask_tick_increase. shape. apply preserves_shape_tick_loop.
  - unfold qtask_runtime_increase. shape. apply preserves_shape_runtime_loop.
  - unfold qtask_exec. shape. apply preserves_shape_exec_loop.
  - apply preserves_shape_sleep.
  - unfold qtask_tick_set. shape.
Qed.
End Shape.

Lemma keeps_shape_refl s : keeps_shape s s.
Proof. by split. Qed.

Lemma keeps_shape_ids_distinct s s' l :
  keeps_shape s s' → ids_distinct s l → ids_distinct s' l.
Proof.
  intros [_ Hid] Hd u v Hu Hv. rewrite !Hid. by apply Hd.
Qed.

(** C1 (as amended): the tick pass, entry by entry.  (1) One loop body on
    a task: a countdown at zero is left alone; a countdown at one expires,
    which sets the ready flag, makes the task the scheduler's [run_task]
    and reloads the countdown from the period; a larger countdown loses
    one.  (2) One call of [qtask_tick_increase] returns, keeps both lists,
    and does this to every task among the first 1000 entries of the
    active list; with at most 1000 entries, [run_task] ends as the last
    entry that expired.  (3) A task newly added with period 3 is not ready
    after the first and second tick and is ready, with its countdown back
    at 3, after the third. *)
Theorem C1_tick_advance :
  (∀ s t o, get_obj s t = Some o → 0 ≤ timer o < 2 ^ SIZE_WIDTH →
     ∃ s1 o', tick_body t s = Ok (tt, s1) ∧ get_obj s1 t = Some o' ∧
       (timer o = 0 → o' = o ∧ run_task (sched s1) = run_task (sched s)) ∧
       (timer o = 1 → o' = set_timer (period o) (set_isready 1 o) ∧
                      run_task (sched s1) = t) ∧
       (1 < timer o → o' = set_timer (timer o - 1) o ∧
                      run_task (sched s1) = run_task (sched s))) ∧
  (∀ s act sus, Inv s act sus →
     ∃ s', qtask_tick_increase s = Ok (tt, s') ∧ Inv s' act sus ∧
       (∀ i t o, act !! i = Some t → (i < 1000)%nat → get_obj s t = Some o →
                 0 ≤ timer o < 2 ^ SIZE_WIDTH →
          ∃ o', get_obj s' t = Some o' ∧
            (timer o = 0 → o' = o) ∧
            (timer o = 1 → o' = set_timer (period o) (set_isready 1 o)) ∧
            (1 < timer o → o' = set_timer (timer o - 1) o)) ∧
       (∀ t, t ∉ act → get_obj s' t = get_obj s t) ∧
       ((length act ≤ 1000)%nat →
        run_task (sched s') = last_expired s act (run_task (sched s)))) ∧
  (∀ s act sus t o nm h,
     Inv s act sus → get_obj s t = Some o → t ∉ act ++ sus →
     has_id s (_id_calc nm) (act ++ sus) = false →
     ∃ s0 s1 s2 s3,
       qtask_add t nm h 3 s = Ok (0, s0) ∧
       qtask_tick_increase s0 = Ok (tt, s1) ∧
       qtask_tick_increase s1 = Ok (tt, s2) ∧
       qtask_tick_increase s2 = Ok (tt, s3) ∧
       ready_timer s0 t = Some (0, 3) ∧
       ready_timer s1 t = Some (0, 2) ∧
       ready_timer s2 t = Some (0, 1) ∧
       ready_timer s3 t = Some (1, 3)).
Proof.
  split_and!.
  - apply tick_body_spec.
  - intros s act sus HI.
    destruct (qtask_tick_increase_spec _ _ _ HI) as (s' & R & HI' & _ & Hin & _ & Hout & Hrun).
    exists s'. split_and!; try done.
    + intros i t o Hi Hlt Ho Hr. exists (tick_obj o). split.
      * rewrite (Hin i t) by (done || lia). by rewrite Ho.
      * apply tick_obj_cases, Hr.
    + intros Hlen. by rewrite take_ge in Hrun by lia.
  - intros s act sus t o nm h HI Ho Ht Hid.
    rewrite has_id_app in Hid. apply orb_false_elim in Hid as [Hid1 Hid2].
    destruct (qtask_add_fresh s act sus t o nm h 3) as (s0 & R0 & HI0 & PU); try done.
    destruct (payload_upd_get _ _ _ _ PU) as (o0 & Ho0 & E0).
    apply strip_fields in E0 as (_ & _ & Hr0 & _ & Ht0 & Hp0 & _). simpl in Hr0, Ht0, Hp0.
    destruct (tick_at_head _ _ _ _ _ HI0 Ho0) as (s1 & R1 & HI1 & Ho1).
    destruct (tick_at_head _ _ _ _ _ HI1 Ho1) as (s2 & R2 & HI2 & Ho2).
    destruct (tick_at_head _ _ _ _ _ HI2 Ho2) as (s3 & R3 & HI3 & Ho3).
    exists s0, s1, s2, s3. split_and!; try done.
    all: unfold ready_timer; rewrite ?Ho0, ?Ho1, ?Ho2, ?Ho3; simpl; f_equal.
    all: unfold tick_obj; rewrite ?Ht0; simpl; rewrite ?Hr0, ?Hp0; done.
Qed.

(** ** Faults *)

Lemma bind_fault {A B} (c : M A) (k : A → M B) s : c s = Fault → bind c k s = Fault.
Proof. unfold bind. by intros ->. Qed.

Lemma bind_cong {A B} (c c' : M A) (k : A → M B) s :
  c s = c' s → bind c k s = bind c' k s.
Proof. unfold bind. by intros ->. Qed.

Lemma bind_ext {A B} (c c' : M A) (k k' : A → M B) s :
  c s = c' s → (∀ a s1, k a s1 = k' a s1) → bind c k s = bind c' k' s.
Proof.
  intros Hc Hk. unfold bind. rewrite Hc. destruct (c' s) as [[a s1]| |]; [apply Hk|done..].
Qed.

Lemma _list_remove_null_next s t o :
  get_obj s t = Some o → next (task_node o) = NodeNull →
  _list_remove (TaskNode t) s = Fault.
Proof.
  intros Ho Hn. unfold _list_remove.
  assert (nxt s (TaskNode t) = Some NodeNull) as N.
  { unfold nxt. simpl. rewrite Ho. simpl. by rewrite Hn. }
  assert (prv s (TaskNode t) = Some (prev (task_node o))) as P.
  { unfold prv. simpl. by rewrite Ho. }
  mrun (load_next_ok _ _ _ N). mrun (load_prev_ok _ _ _ P).
  by apply bind_fault.
Qed.

Lemma reset_and_remove_null_next s t o :
  get_obj s t = Some o → next (task_node o) = NodeNull →
  reset_and_remove t s = Fault.
Proof.
  intros Ho Hn. pose proof (get_obj_nonnull _ _ _ Ho) as Ht0.
  unfold reset_and_remove.
  mrun (store_task_ok s t (set_isready 0) o Ho).
  erewrite bind_ok; [|apply load_field_ok; by apply get_obj_put_obj_eq].
  erewrite bind_ok; [|by apply store_task_put].
  eapply _list_remove_null_next; [by apply get_obj_put_obj_eq|]. done.
Qed.

(** [qtask_del] on an object that was never linked, when an active task
    carries its id: the object passed is the one unlinked. *)
Lemma qtask_del_unlinked_colliding s act sus t o :
  Inv s act sus → get_obj s t = Some o →
  has_id s (id o) act = true → next (task_node o) = NodeNull →
  qtask_del t s = Fault.
Proof.
  intros (Ha & Hs & Hnd) Ho Hid Hn.
  assert (NoDup act) as Hnda by (apply NoDup_app in Hnd; tauto).
  unfold qtask_del, _qtask_isexist.
  mrun (isexist_in_ok s TaskListHead t o act head_task Ha Hnda Ho).
  rewrite Hid. cbn [Z.eqb Pos.eqb].
  apply bind_fault. by eapply reset_and_remove_null_next.
Qed.

(** ** Callbacks that run code *)

Lemma call_handle_with_inert cb h s :
  inert cb h → call_handle_with cb h s = call_handle h s.
Proof.
  intros Hi. unfold call_handle_with, bind, call_handle.
  case_decide; [done|]. apply Hi.
Qed.

Lemma exec_body_with_inert cb s t o :
  get_obj s t = Some o → (isready o ≠ 0 → inert cb (handle o)) →
  exec_body_with cb t s = exec_body t s.
Proof.
  intros Ho Hi. unfold exec_body_with, exec_body.
  do 2 mrun (load_field_ok s t isready o Ho).
  destruct (isready o =? 0) eqn:E; [done|]. apply Z.eqb_neq in E.
  do 2 mrun (load_field_ok s t handle o Ho).
  apply bind_cong, call_handle_with_inert. auto.
Qed.

Lemma exec_body_with_ok cb s t o :
  get_obj s t = Some o →
  (isready o ≠ 0 → handle o ≠ 0) → (isready o ≠ 0 → inert cb (handle o)) →
  exec_body_with cb t s = Ok (tt, exec_task s t).
Proof.
  intros Ho Hh Hi. rewrite (exec_body_with_inert cb s t o) by done.
  by apply (exec_body_ok s t o).
Qed.

Lemma qtask_exec_loop_with_ok cb l s p fuel safe :
  chain s p l TaskListHead → NoDup l →
  nxt s (first_of l TaskListHead) = Some safe →
  (∀ u o, u ∈ l → get_obj s u = Some o → isready o ≠ 0 → handle o ≠ 0) →
  (∀ u o, u ∈ l → get_obj s u = Some o → isready o ≠ 0 → inert cb (handle o)) →
  (length l < fuel)%nat →
  qtask_exec_loop_with cb fuel (first_of l TaskListHead) safe s
  = Ok (tt, foldl exec_task s l).
Proof.
  revert s p fuel safe.
  induction l as [|u l IH]; intros s p fuel safe Hc Hnd Hs Hh Hi Hf.
  - destruct fuel as [|fuel]; [simpl in Hf; lia|]. cbn [qtask_exec_loop_with first_of].
    by rewrite safe_continue_head.
  - destruct fuel as [|fuel]; [simpl in Hf; lia|]. cbn [qtask_exec_loop_with first_of].
    rewrite safe_continue_task by apply head_task.
    destruct Hc as (H1 & H2 & H3). cbn [first_of] in Hs.
    apply NoDup_cons in Hnd as [Hu Hnd].
    destruct (chain_first _ _ _ _ H3) as [F1 _].
    assert (safe = first_of l TaskListHead) as -> by congruence.
    unfold QTASK_ENTRY. rewrite (bind_ok _ _ _ u s) by done.
    destruct (chain_alloc s p (u :: l) TaskListHead u) as [ou Hou];
      [by split_and!|by left|].
    mrun (exec_body_with_ok cb s u ou Hou (Hh u ou ltac:(by left) Hou)
            (Hi u ou ltac:(by left) Hou)).
    pose proof (exec_task_same_links s u) as SL.
    assert (chain (exec_task s u) (TaskNode u) l TaskListHead) as H3'
      by (by eapply chain_same_links).
    destruct (first_of_nxt_is_Some _ _ _ _ head_task H3') as [safe2 Hs2].
    mrun (safe_advance_ok _ _ _ (first_of_not_null l _ head_task) Hs2).
    cbn [fst snd foldl]. eapply IH; try done.
    + intros v o Hv. rewrite get_obj_exec_task.
      rewrite decide_False by (by intros ->). apply Hh. by right.
    + intros v o Hv. rewrite get_obj_exec_task.
      rewrite decide_False by (by intros ->). apply Hi. by right.
    + simpl in Hf. lia.
Qed.

Lemma qtask_exec_with_ok cb s act sus :
  Inv s act sus →
  (∀ u o, u ∈ act → get_obj s u = Some o → isready o ≠ 0 → handle o ≠ 0) →
  (∀ u o, u ∈ act → get_obj s u = Some o → isready o ≠ 0 → inert cb (handle o)) →
  qtask_exec_with cb s = Ok (tt, foldl exec_task s act).
Proof.
  intros (Ha & Hs & Hnd) Hh Hi. unfold qtask_exec_with, walk_fuel.
  rewrite (bind_ok _ _ _ (S (size (objs s))) s) by done.
  destruct (safe_start_ok s _ _ head_task Ha) as (safe & Hsafe & R). mrun R.
  cbn [fst snd].
  assert (NoDup act) as Hnda by (apply NoDup_app in Hnd; tauto).
  eapply qtask_exec_loop_with_ok; eauto using dlist_fuel.
Qed.

(** With callbacks that all return without touching the store the pass
    is [qtask_exec], on every store. *)
Lemma exec_body_with_all_inert cb t s :
  (∀ h, inert cb h) → exec_body_with cb t s = exec_body t s.
Proof.
  intros Hi. unfold exec_body_with, exec_body.
  apply bind_ext; [done|]. intros r s1. destruct (r =? 0); [done|].
  apply bind_ext; [done|]. intros h s2.
  apply bind_cong, call_handle_with_inert, Hi.
Qed.

Lemma qtask_exec_loop_with_all_inert cb fuel : ∀ node safe s,
  (∀ h, inert cb h) →
  qtask_exec_loop_with cb fuel node safe s = qtask_exec_loop fuel node safe s.
Proof.
  induction fuel as [|fuel IH]; intros node safe s Hi; [done|].
  cbn [qtask_exec_loop_with qtask_exec_loop].
  destruct (safe_continue TaskListHead node); [|done].
  apply bind_ext; [done|]. intros task s1.
  apply bind_ext; [by apply exec_body_with_all_inert|]. intros _ s2.
  apply bind_ext; [done|]. intros ns s3. by apply IH.
Qed.

Lemma qtask_exec_with_all_inert cb s :
  (∀ h, inert cb h) → qtask_exec_with cb s = qtask_exec s.
Proof.
  intros Hi. unfold qtask_exec_with, qtask_exec.
  apply bind_ext; [done|]. intros fuel s1.
  apply bind_ext; [done|]. intros ns s2.
  by apply qtask_exec_loop_with_all_inert.
Qed.

Lemma fold_exec_idle s l :
  (∀ u o, u ∈ l → get_obj s u = Some o → isready o = 0) → foldl exec_task s l = s.
Proof.
  induction l as [|u l IH]; intros H; [done|]. cbn [foldl].
  assert (exec_task s u = s) as ->.
  { unfold exec_task. destruct (get_obj s u) as [o|] eqn:Ho; [|done].
    by rewrite (H u o ltac:(by left) Ho). }
  apply IH. intros v o Hv. apply H. by right.
Qed.

Lemma exec_obj_isready o : isready (exec_obj o) = 0.
Proof.
  unfold exec_obj. destruct (isready o =? 0) eqn:E; [by apply Z.eqb_eq|done].
Qed.

Lemma ids_distinct_nil s : ids_distinct s [].
Proof. intros u v Hu. by apply elem_of_nil in Hu. Qed.

Lemma reg_step s act sus o :
  Inv s act sus → ids_distinct s (act ++ sus) → reg_op_ok s act sus o →
  ∃ r s' act' sus',
    run_op o s = Ok (r, s') ∧ Inv s' act' sus' ∧
    ids_distinct s' (act' ++ sus') ∧
    (∀ u, u ∈ act' ++ sus' ↔ u ∈ act ++ sus ∨ op_target o u) ∧
    (∀ u, u ∈ act' ++ sus' → (u ∈ act' ∧ (u ∉ sus')) ∨ ((u ∉ act') ∧ u ∈ sus')).
Proof.
  intros HI Hd Hok. destruct o; try done.
  - by apply reg_add.
  - by apply reg_del.
  - by apply reg_suspend.
  - by apply reg_resume.
Qed.

Lemma reaches_Inv s :
  reaches s → ∃ act sus, Inv s act sus ∧ ids_distinct s (act ++ sus).
Proof.
  induction 1 as [s s' Hinit|s o r s' _ (act & sus & HI & Hd) Hok Hrun
                 |s o r s' _ (act & sus & HI & Hd) Hdrive Hrun].
  - destruct (qtask_sched_init_ok s) as (s1 & R & HI & _).
    assert (s' = s1) as -> by congruence.
    exists [], []. split; [done|apply ids_distinct_nil].
  - destruct (reg_step s act sus o HI Hd (Hok _ _ HI))
      as (r' & s1 & act' & sus' & R & HI' & Hd' & _).
    assert (s' = s1) as -> by congruence. eauto.
  - pose proof (preserves_shape_drive s o Hdrive s r s' (keeps_shape_refl s) Hrun)
      as Hshape.
    exists act, sus. split.
    + eapply Inv_same_links; [apply Hshape|done].
    + by eapply keeps_shape_ids_distinct.
Qed.


(** C3: with a non-null [run_task], [qtask_sleep] returns without writing
    anything: the countdown of the task [run_task] designates is not set to
    the requested value.  With a null [run_task] the guarded store
    dereferences the null pointer. *)
Theorem C3_sleep_writes_nothing :
  (∀ s tick, run_task (sched s) ≠ 0 → qtask_sleep tick s = Ok (tt, s)) ∧
  (∀ s tick, run_task (sched s) = 0 → qtask_sleep tick s = Fault).
Proof.
  split; intros s tick H; unfold qtask_sleep, load_run_task, bind.
  - by rewrite (proj2 (Z.eqb_neq _ _) H).
  - rewrite H. done.
Qed.

(** C4: on an active list of more than 1000 tasks, one call of
    [qtask_tick_increase] updates the entries at positions 0 to 1000, that
    is 1001 entries, and leaves the entries behind them untouched. *)
Theorem C4_scan_visits_1001 s act sus :
  Inv s act sus → (1000 < length act)%nat →
  ∃ s', qtask_tick_increase s = Ok (tt, s') ∧
    (∀ i t, act !! i = Some t → (i ≤ 1000)%nat →
            get_obj s' t = tick_obj <$> get_obj s t) ∧
    (∀ i t, act !! i = Some t → (1000 < i)%nat → get_obj s' t = get_obj s t) ∧
    (∃ t, act !! 1000%nat = Some t ∧ get_obj s' t = tick_obj <$> get_obj s t).
Proof.
  intros HI Hlen.
  destruct (qtask_tick_increase_spec _ _ _ HI) as (s' & R & _ & _ & Hin & Hbeyond & _).
  exists s'. split_and!; try done.
  destruct (lookup_lt_is_Some_2 act 1000%nat) as [t Ht]; [lia|].
  exists t. split; [done|]. by apply (Hin 1000%nat).
Qed.

(** C5 (as amended): resume on the name of a task that is active, when no
    suspended task carries its id, and suspend on the name of a task that
    is suspended, when no active task carries its id, return -1, which is
    also the status for a name that is not found, and leave the whole
    state as it was. *)
Theorem C5_redundant_resume_suspend :
  (∀ s act sus t nm,
     Inv s act sus → t ∈ act → id_of s t = Some (_id_calc nm) →
     has_id s (_id_calc nm) sus = false →
     qtask_resume nm s = Ok (-1, s)) ∧
  (∀ s act sus t nm,
     Inv s act sus → t ∈ sus → id_of s t = Some (_id_calc nm) →
     has_id s (_id_calc nm) act = false →
     qtask_suspend nm s = Ok (-1, s)) ∧
  (∀ s act sus nm,
     Inv s act sus → has_id s (_id_calc nm) (act ++ sus) = false →
     qtask_resume nm s = Ok (-1, s) ∧ qtask_suspend nm s = Ok (-1, s)).
Proof.
  split_and!.
  - intros s act sus t nm HI _ _ Hid. by eapply qtask_resume_notfound.
  - intros s act sus t nm HI _ _ Hid. by eapply qtask_suspend_notfound.
  - intros s act sus nm HI Hid.
    rewrite has_id_app in Hid. apply orb_false_elim in Hid as [Hid1 Hid2].
    split; [by eapply qtask_resume_notfound|by eapply qtask_suspend_notfound].
Qed.

(** C6 (as amended): when the id of the name is already in the active
    list, the object passed is not in the suspended list and no suspended
    task carries that id, [qtask_add] returns 1 and leaves both lists, the
    callback log and every other descriptor as they were; the descriptor
    passed is re-initialised from the arguments. *)
Theorem C6_add_already_active s act sus t o nm h tick :
  Inv s act sus → get_obj s t = Some o → t ∉ sus →
  has_id s (_id_calc nm) sus = false →
  (t ∈ act ∨ has_id s (_id_calc nm) act = true) →
  ∃ s', qtask_add t nm h tick s = Ok (1, s') ∧
    Inv s' act sus ∧ sched s' = sched s ∧ calls s' = calls s ∧
    get_obj s' t = Some (mkQTaskObj nm (_id_calc nm) 0 h tick tick 0 0 (task_node o)) ∧
    (∀ u, u ≠ t → get_obj s' u = get_obj s u).
Proof.
  intros HI Ho Hts Hid Hact. pose proof (get_obj_nonnull _ _ _ Ho) as Ht0.
  exists (put_obj s t (init_obj nm h tick o)). split_and!; try done.
  - by eapply qtask_add_redundant.
  - eapply Inv_same_links; [|exact HI]. by eapply put_obj_same_links.
  - by apply get_obj_put_obj_eq.
  - intros u Hu. rewrite get_obj_put_obj by done. by rewrite decide_False.
Qed.

Lemma fold_exec_sched s l : sched (foldl exec_task s l) = sched s.
Proof.
  revert s. induction l as [|u l IH]; intros s; cbn [foldl]; [done|].
  rewrite IH. unfold exec_task. destruct (get_obj s u) as [o|]; [|done].
  by destruct (isready o =? 0).
Qed.


Lemma qtask_tick_set_spec s t tick o :
  get_obj s t = Some o →
  qtask_tick_set t tick s = Ok (tt, put_obj s t (set_period tick o)).
Proof. intros Ho. by apply store_task_ok. Qed.


(** C9 (as amended): if no other registered task carries the id of the
    name, then add, suspend on the name and resume on the name all return,
    the last two with status 0, and the task ends at the head of the
    active list, not in the suspended list, with countdown and period
    equal to the period given and the ready flag clear. *)
Theorem C9_add_suspend_resume s act sus t o nm h tick :
  Inv s act sus → get_obj s t = Some o →
  (∀ u, u ∈ act ++ sus → u ≠ t → id_of s u ≠ Some (_id_calc nm)) →
  ∃ r s1 s2 s3 act' sus' o3,
    qtask_add t nm h tick s = Ok (r, s1) ∧
    qtask_suspend nm s1 = Ok (0, s2) ∧
    qtask_resume nm s2 = Ok (0, s3) ∧
    Inv s3 (t :: act') sus' ∧ (t ∉ sus') ∧
    get_obj s3 t = Some o3 ∧
    timer o3 = tick ∧ period o3 = tick ∧ isready o3 = 0.
Proof.
  intros HI Ho Hfresh.
  (* after add: the task is active and still the only one with its id *)
  assert (∃ r s1 act1 sus1 o1,
            qtask_add t nm h tick s = Ok (r, s1) ∧ Inv s1 act1 sus1 ∧ t ∈ act1 ∧
            get_obj s1 t = Some o1 ∧ id o1 = _id_calc nm ∧ period o1 = tick ∧
            (∀ u, u ∈ act1 ++ sus1 → u ≠ t → id_of s1 u ≠ Some (_id_calc nm)))
    as (r & s1 & act1 & sus1 & o1 & R1 & HI1 & Ht1 & Ho1 & Hio1 & Hp1 & Hfresh1).
  { assert (∀ l, (∀ u, u ∈ l → u ∈ act ++ sus ∧ u ≠ t) →
                 has_id s (_id_calc nm) l = false) as Hno.
    { intros l Hl. apply has_id_false. intros u Hu.
      destruct (Hl u Hu). by apply Hfresh. }
    pose proof HI as (_ & _ & Hnd).
    assert (∀ s1 act1 sus1,
              payload_upd s s1 t (init_obj nm h tick o) →
              (∀ u, u ∈ act1 ++ sus1 → u ∈ act ++ sus ∨ u = t) →
              ∃ o1, get_obj s1 t = Some o1 ∧ id o1 = _id_calc nm ∧ period o1 = tick ∧
                (∀ u, u ∈ act1 ++ sus1 → u ≠ t → id_of s1 u ≠ Some (_id_calc nm)))
      as Hpost.
    { intros s1 act1 sus1 PU Hsub.
      destruct (payload_upd_get _ _ _ _ PU) as (o1 & Ho1 & E1).
      apply strip_fields in E1 as (_ & Hi & _ & _ & _ & Hp & _).
      exists o1. split_and!; try done. intros u Hu Hne.
      rewrite (payload_upd_id_of _ _ _ _ u PU), decide_False by done.
      destruct (Hsub u Hu) as [Hin|?]; [|done]. by apply Hfresh. }
    destruct (decide (t ∈ act)) as [Hta|Hta]; [|destruct (decide (t ∈ sus)) as [Hts|Hts]].
    - assert (t ∉ sus) as Hts.
      { apply NoDup_app in Hnd as (_ & Hdj & _). by apply Hdj. }
      destruct (Hpost (put_obj s t (init_obj nm h tick o)) act sus)
        as (o1 & ? & ? & ? & ?); [by eapply put_obj_payload_upd|auto|].
      exists 1, (put_obj s t (init_obj nm h tick o)), act, sus, o1.
      split_and!; try done.
      + apply (qtask_add_redundant s act sus t o); auto.
        apply Hno. intros u Hu. split; [set_solver|]. by intros ->.
      + eapply Inv_same_links; [|exact HI]. by eapply put_obj_same_links.
    - apply list_elem_of_split in Hts as (la & lb & ->).
      destruct (qtask_add_suspended s act la t lb o nm h tick) as (s1 & R & HI' & PU);
        try done.
      { apply Hno. intros u Hu. split; [set_solver|]. by intros ->. }
      destruct (Hpost s1 (t :: act) (la ++ lb)) as (o1 & ? & ? & ? & ?);
        [done|intros u; set_solver|].
      exists 0, s1, (t :: act), (la ++ lb), o1. split_and!; try done. by left.
    - destruct (qtask_add_fresh s act sus t o nm h tick) as (s1 & R & HI' & PU);
        try done.
      { set_solver. }
      { apply Hno. intros u Hu. split; [set_solver|]. by intros ->. }
      { apply Hno. intros u Hu. split; [set_solver|]. by intros ->. }
      destruct (Hpost s1 (t :: act) sus) as (o1 & ? & ? & ? & ?);
        [done|intros u; set_solver|].
      exists 0, s1, (t :: act), sus, o1. split_and!; try done. by left. }
  (* suspend *)
  pose proof HI1 as (_ & _ & Hnd1).
  apply list_elem_of_split in Ht1 as (la & lb & ->).
  assert (NoDup (la ++ t :: lb)) as Hnda by (apply NoDup_app in Hnd1; tauto).
  destruct (NoDup_split_notin _ _ _ Hnda) as [Hla Hlb].
  assert (t ∉ sus1) as Hts1.
  { apply NoDup_app in Hnd1 as (_ & Hdj & _). apply Hdj. set_solver. }
  destruct (qtask_suspend_found s1 la t lb sus1 nm o1) as (s2 & R2 & HI2 & PU2);
    try done.
  { apply has_id_false. intros u Hu. apply Hfresh1; [set_solver|]. by intros ->. }
  { apply has_id_false. intros u Hu. apply Hfresh1; [set_solver|]. by intros ->. }
  destruct (payload_upd_get _ _ _ _ PU2) as (o2 & Ho2 & E2).
  apply strip_fields in E2 as (_ & Hi2 & _ & _ & _ & Hp2 & _). simpl in Hi2, Hp2.
  (* resume *)
  destruct (qtask_resume_found s2 (la ++ lb) [] t sus1 nm o2) as (s3 & R3 & HI3 & PU3);
    try done.
  { congruence. }
  { apply has_id_false. intros u Hu.
    rewrite (payload_upd_id_of _ _ _ _ u PU2), decide_False by (intros ->; set_solver).
    apply Hfresh1; [set_solver|]. intros ->. set_solver. }
  destruct (payload_upd_get _ _ _ _ PU3) as (o3 & Ho3 & E3).
  apply strip_fields in E3 as (_ & _ & Hr3 & _ & Ht3 & Hp3 & _). simpl in Hr3, Ht3, Hp3.
  exists r, s1, s2, s3, (la ++ lb), sus1, o3. split_and!; try done; congruence.
Qed.

(** C10 (as amended): [qtask_del] on an allocated task object that is in
    neither list.  (1) When no task in either list carries its id, the
    call returns 0 and leaves the object at the head of the suspended
    list, the active list and all descriptor fields being unchanged.
    (2) When a suspended task carries its id and no active task does, the
    call returns -1 and changes nothing.  (3) When an active task carries
    its id, the call unlinks the object passed; for an object that was
    never linked, whose [next] pointer is null, this dereferences the
    null pointer. *)
Theorem C10_del_unregistered s act sus t o :
  Inv s act sus → get_obj s t = Some o → t ∉ act ++ sus →
  (has_id s (id o) (act ++ sus) = false →
   ∃ s', qtask_del t s = Ok (0, s') ∧ Inv s' act (t :: sus) ∧
         (∀ u, payload s' u = payload s u)) ∧
  (has_id s (id o) act = false → has_id s (id o) sus = true →
   qtask_del t s = Ok (-1, s)) ∧
  (has_id s (id o) act = true → next (task_node o) = NodeNull →
   qtask_del t s = Fault).
Proof.
  intros HI Ho Ht. split_and!.
  - intros Hid.
    rewrite has_id_app in Hid. apply orb_false_elim in Hid as [Hid1 Hid2].
    destruct (qtask_del_unlinked s act sus t o) as (s' & R & HI' & SP); try done.
    exists s'. split_and!; try done. by destruct SP.
  - intros Hact Hsus. by eapply qtask_del_suspended.
  - intros Hact Hn. by eapply qtask_del_unlinked_colliding.
Qed.

(** ** Concrete runs *)

Lemma run_concrete {A} (d v : A) (r : result (A * mem)) s' :
  is_ok r = true → value_of d r = v → state_of r = s' → r = Ok (v, s').
Proof. intros H <- <-. by apply run_eq. Qed.

Ltac by_eval := vm_compute; reflexivity.
Ltac inv_eval := apply Inv_b_sound; by_eval.

Lemma crowd_Inv : Inv (crowd 1002) (rev (addrs 1002)) [].
Proof. inv_eval. Qed.

(** C1, counterexample: 1002 tasks are registered one after the other
    with period 5, each call reporting 0; task 1, registered first, is the
    last entry of the active list.  Its countdown is 5 before the tick
    pass and still 5 after it: an entry of the active list with a positive
    countdown that one call did not decrement. *)
Lemma C1_counterexample :
  value_of [] (run_ops (crowd_script 1002) (boot (addrs 1002))) = replicate 1002 0 ∧
  Inv (crowd 1002) (rev (addrs 1002)) [] ∧
  rev (addrs 1002) !! 1001%nat = Some 1 ∧
  ready_timer (crowd 1002) 1 = Some (0, 5) ∧
  ∃ s', qtask_tick_increase (crowd 1002) = Ok (tt, s') ∧
        ready_timer s' 1 = Some (0, 5).
Proof.
  split_and!; [by_eval|apply crowd_Inv|by_eval|by_eval|].
  destruct (qtask_tick_increase_spec _ _ _ crowd_Inv) as (s' & R & _ & _ & _ & Hb & _).
  exists s'. split; [exact R|]. unfold ready_timer.
  rewrite (Hb 1001%nat 1); [by_eval|by_eval|lia].
Qed.

Lemma C1_witness :
  (∃ s1 o', tick_body 1 (led_after 2) = Ok (tt, s1) ∧ get_obj s1 1 = Some o' ∧
     o' = set_timer 3 (set_isready 1 (led_obj TaskListHead 0 1)) ∧
     run_task (sched s1) = 1) ∧
  (∃ s', qtask_tick_increase (led_after 2) = Ok (tt, s') ∧
     get_obj s' 1 = Some (set_timer 3 (set_isready 1 (led_obj TaskListHead 0 1))) ∧
     run_task (sched s') = 1) ∧
  (∃ s0 s1 s2 s3,
     qtask_add 1 (Some "led") 7 3 (boot [1]) = Ok (0, s0) ∧
     qtask_tick_increase s0 = Ok (tt, s1) ∧
     qtask_tick_increase s1 = Ok (tt, s2) ∧
     qtask_tick_increase s2 = Ok (tt, s3) ∧
     ready_timer s0 1 = Some (0, 3) ∧
     ready_timer s1 1 = Some (0, 2) ∧
     ready_timer s2 1 = Some (0, 1) ∧
     ready_timer s3 1 = Some (1, 3)).
Proof.
  assert (get_obj (led_after 2) 1 = Some (led_obj TaskListHead 0 1)) as Ho by by_eval.
  assert (0 ≤ timer (led_obj TaskListHead 0 1) < 2 ^ SIZE_WIDTH) as Hr by (by vm_compute).
  assert (Inv (led_after 2) [1] []) as HI by inv_eval.
  split_and!.
  - destruct (proj1 C1_tick_advance (led_after 2) 1 _ Ho Hr)
      as (s1 & o' & R & Ho' & _ & H1 & _).
    destruct (H1 eq_refl) as [E1 E2]. exists s1, o'. split_and!; assumption.
  - destruct (proj1 (proj2 C1_tick_advance) (led_after 2) [1] [] HI)
      as (s' & R & _ & Hin & _ & Hrun).
    destruct (Hin 0%nat 1 _ eq_refl ltac:(lia) Ho Hr) as (o' & Ho' & _ & H1 & _).
    exists s'. split_and!; [exact R|rewrite Ho', (H1 eq_refl); reflexivity|].
    rewrite Hrun by (simpl; lia). by_eval.
  - apply (proj2 (proj2 C1_tick_advance) (boot [1]) [] [] 1 zero_obj (Some "led") 7).
    + inv_eval.
    + by_eval.
    + simpl. apply not_elem_of_nil.
    + by_eval.
Defined.


Lemma ids_distinct_singleton s t : ids_distinct s [t].
Proof. intros u v ->%list_elem_of_singleton ->%list_elem_of_singleton _. done. Qed.


(** C3 on a concrete run: after add("led", period 3) and
    three ticks, [run_task] designates task 1, whose countdown is 3;
    [qtask_sleep 10] returns the same state, so the countdown is still 3. *)
Lemma C3_witness :
  run_task (sched (led_after 3)) = 1 ∧
  ready_timer (led_after 3) 1 = Some (1, 3) ∧
  qtask_sleep 10 (led_after 3) = Ok (tt, led_after 3) ∧
  qtask_sleep 10 (boot [1]) = Fault.
Proof.
  split_and!; [by_eval|by_eval| |].
  - refine (proj1 C3_sleep_writes_nothing (led_after 3) 10 _). by vm_compute.
  - refine (proj2 C3_sleep_writes_nothing (boot [1]) 10 _). by_eval.
Defined.

(** C4 on a concrete run: in the crowd of 1002 tasks the
    entry at position 1000 is task 2; the tick pass takes its countdown
    from 5 to 4, so 1001 entries were updated. *)
Lemma C4_witness :
  Inv (crowd 1002) (rev (addrs 1002)) [] ∧
  (1000 < length (rev (addrs 1002)))%nat ∧
  rev (addrs 1002) !! 1000%nat = Some 2 ∧
  ready_timer (crowd 1002) 2 = Some (0, 5) ∧
  ∃ s', qtask_tick_increase (crowd 1002) = Ok (tt, s') ∧
        ready_timer s' 2 = Some (0, 4).
Proof.
  assert (1000 < length (rev (addrs 1002)))%nat as Hlen.
  { apply Nat.ltb_lt. by_eval. }
  split_and!; [apply crowd_Inv|exact Hlen|by_eval|by_eval|].
  destruct (C4_scan_visits_1001 (crowd 1002) (rev (addrs 1002)) [] crowd_Inv Hlen)
    as (s' & R & Hin & _ & _).
  exists s'. split; [exact R|]. unfold ready_timer.
  rewrite (Hin 1000%nat 2); [by_eval|by_eval|lia].
Defined.

(** C5, counterexample: with the "led" task active, resume("led") returns
    -1, and so does resume("key") for a name no task carries: the status
    for an already active task is the status for a name that is not
    found. *)
Lemma C5_counterexample :
  Inv (led_after 0) [1] [] ∧
  id_of (led_after 0) 1 = Some (_id_calc (Some "led")) ∧
  has_id (led_after 0) (_id_calc (Some "key")) [1] = false ∧
  qtask_resume (Some "led") (led_after 0) = Ok (-1, led_after 0) ∧
  qtask_resume (Some "key") (led_after 0) = Ok (-1, led_after 0).
Proof.
  assert (Inv (led_after 0) [1] []) as HI by inv_eval.
  split_and!; [exact HI|by_eval|by_eval|..].
  - refine (qtask_resume_notfound _ _ _ _ HI _). by_eval.
  - refine (qtask_resume_notfound _ _ _ _ HI _). by_eval.
Qed.

Lemma C5_witness :
  qtask_resume (Some "led") (led_after 0) = Ok (-1, led_after 0) ∧
  qtask_suspend (Some "led") led_suspended = Ok (-1, led_suspended) ∧
  qtask_resume (Some "key") (led_after 0) = Ok (-1, led_after 0) ∧
  qtask_suspend (Some "key") (led_after 0) = Ok (-1, led_after 0).
Proof.
  assert (Inv (led_after 0) [1] []) as HI by inv_eval.
  assert (Inv led_suspended [] [1]) as HI' by inv_eval.
  destruct C5_redundant_resume_suspend as (H1 & H2 & H3).
  split_and!.
  - refine (H1 (led_after 0) [1] [] 1 (Some "led") HI _ _ _);
      [apply list_elem_of_singleton; reflexivity|by_eval|by_eval].
  - refine (H2 led_suspended [] [1] 1 (Some "led") HI' _ _ _);
      [apply list_elem_of_singleton; reflexivity|by_eval|by_eval].
  - refine (proj1 (H3 (led_after 0) [1] [] (Some "key") HI _)). by_eval.
  - refine (proj2 (H3 (led_after 0) [1] [] (Some "key") HI _)). by_eval.
Defined.

(** C6, counterexample: the "led" task is active with period 3 and, one
    tick after its registration, countdown 2.  A second add under the same
    name returns 1 and puts the countdown back to 3. *)
Lemma C6_counterexample :
  Inv (led_after 1) [1] [] ∧
  timer_period (led_after 1) 1 = Some (2, 3) ∧
  qtask_add 1 (Some "led") 7 3 (led_after 1)
  = Ok (1, state_of (qtask_add 1 (Some "led") 7 3 (led_after 1))) ∧
  timer_period (state_of (qtask_add 1 (Some "led") 7 3 (led_after 1))) 1 = Some (3, 3).
Proof.
  split_and!; [inv_eval|by_eval| |by_eval].
  apply (run_concrete 0); by_eval.
Qed.

Lemma C6_witness :
  Inv (led_after 1) [1] [] ∧
  get_obj (led_after 1) 1 = Some (led_obj TaskListHead 0 2) ∧
  ∃ s', qtask_add 1 (Some "led") 9 4 (led_after 1) = Ok (1, s') ∧
    Inv s' [1] [] ∧ sched s' = sched (led_after 1) ∧ calls s' = calls (led_after 1) ∧
    get_obj s' 1
    = Some (mkQTaskObj (Some "led") (_id_calc (Some "led")) 0 9 4 4 0 0
              (task_node (led_obj TaskListHead 0 2))) ∧
    (∀ u, u ≠ 1 → get_obj s' u = get_obj (led_after 1) u).
Proof.
  assert (Inv (led_after 1) [1] []) as HI by inv_eval.
  assert (get_obj (led_after 1) 1 = Some (led_obj TaskListHead 0 2)) as Ho by by_eval.
  split_and!; [exact HI|exact Ho|].
  refine (C6_add_already_active (led_after 1) [1] [] 1 _ (Some "led") 9 4 HI Ho _ _ _).
  - apply not_elem_of_nil.
  - by_eval.
  - left. apply list_elem_of_singleton. reflexivity.
Defined.

Lemma ready_have_handles_b_sound s l :
  ready_have_handles_b s l = true →
  ∀ u o, u ∈ l → get_obj s u = Some o → isready o ≠ 0 → handle o ≠ 0.
Proof.
  unfold ready_have_handles_b. rewrite forallb_forall.
  intros H u o Hu%list_elem_of_In Ho Hr. specialize (H u Hu). rewrite Ho in H.
  apply orb_prop in H as [H|H].
  - by apply Z.eqb_eq in H.
  - apply negb_true_iff in H. by apply Z.eqb_neq in H.
Qed.

Lemma no_callback_code_inert h : inert no_callback_code h.
Proof. by intros s. Qed.





(** C9, counterexample: task 1 ("led") is suspended and task 2 ("key")
    active.  add(2, "guud") reports 0 and leaves task 2 active, with the
    id of task 1.  suspend("guud") then returns -1 after unlinking task 2,
    and resume("guud") returns 0 after moving task 1 to the active list:
    the task that was added is not in the active list. *)
Lemma C9_counterexample :
  Inv collide_base [2] [1] ∧
  qtask_add 2 (Some "guud") 7 3 collide_base = Ok (0, collide_before) ∧
  Inv collide_before [2] [1] ∧
  qtask_suspend (Some "guud") collide_before = Ok (-1, collide_after) ∧
  qtask_resume (Some "guud") collide_after = Ok (0, collide_resumed) ∧
  Inv collide_resumed [1] [] ∧
  (∀ act sus, Inv collide_resumed act sus → 2 ∉ act).
Proof.
  assert (Inv collide_resumed [1] []) as HI by inv_eval.
  split_and!; [inv_eval| |inv_eval| | |exact HI|].
  - apply (run_concrete 0); by_eval.
  - apply (run_concrete 0); by_eval.
  - apply (run_concrete 0); by_eval.
  - intros act sus HI'. destruct (Inv_determines _ _ _ _ _ HI HI') as [-> ->].
    intros ?%list_elem_of_singleton. discriminate.
Qed.

Lemma C9_witness :
  Inv (boot [1]) [] [] ∧ get_obj (boot [1]) 1 = Some zero_obj ∧
  ∃ r s1 s2 s3 act' sus' o3,
    qtask_add 1 (Some "led") 7 3 (boot [1]) = Ok (r, s1) ∧
    qtask_suspend (Some "led") s1 = Ok (0, s2) ∧
    qtask_resume (Some "led") s2 = Ok (0, s3) ∧
    Inv s3 (1 :: act') sus' ∧ (1 ∉ sus') ∧
    get_obj s3 1 = Some o3 ∧
    timer o3 = 3 ∧ period o3 = 3 ∧ isready o3 = 0.
Proof.
  assert (Inv (boot [1]) [] []) as HI by inv_eval.
  assert (get_obj (boot [1]) 1 = Some zero_obj) as Ho by by_eval.
  split_and!; [exact HI|exact Ho|].
  refine (C9_add_suspend_resume (boot [1]) [] [] 1 zero_obj (Some "led") 7 3 HI Ho _).
  intros u Hu. by apply elem_of_nil in Hu.
Defined.

(** C10, counterexample: task 1, registered under the name "afhl", whose
    id is 0, is suspended; task 2 is zero-initialised, was never passed to
    the scheduler and is in neither list.  [qtask_del] on task 2 returns
    -1 and leaves the state as it was: task 2 is not inserted. *)
Lemma C10_counterexample :
  _id_calc (Some "afhl") = 0 ∧
  Inv zero_id_state [] [1] ∧
  get_obj zero_id_state 2 = Some zero_obj ∧
  qtask_del 2 zero_id_state = Ok (-1, zero_id_state) ∧
  (∀ act sus, Inv zero_id_state act sus → (2 ∉ act) ∧ (2 ∉ sus)).
Proof.
  assert (Inv zero_id_state [] [1]) as HI by inv_eval.
  split_and!; [by_eval|exact HI|by_eval| |].
  - refine (qtask_del_suspended zero_id_state [] [1] 2 zero_obj HI _ _ _); by_eval.
  - intros act sus HI'. destruct (Inv_determines _ _ _ _ _ HI HI') as [-> ->].
    split; [apply not_elem_of_nil|]. intros ?%list_elem_of_singleton. discriminate.
Qed.

(** C10 on concrete runs: (1) on a fresh scheduler the task object 1 is
    put into the suspended list; (2) with a suspended task of id 0, the
    zero-initialised object 2 is reported as already suspended; (3) with
    an active task of id 0, the call on the zero-initialised object 2
    dereferences its null [next] pointer. *)
Lemma C10_witness :
  Inv (boot [1]) [] [] ∧ get_obj (boot [1]) 1 = Some zero_obj ∧
  (∃ s', qtask_del 1 (boot [1]) = Ok (0, s') ∧ Inv s' [] [1] ∧
         (∀ u, payload s' u = payload (boot [1]) u)) ∧
  Inv zero_id_state [] [1] ∧ get_obj zero_id_state 2 = Some zero_obj ∧
  qtask_del 2 zero_id_state = Ok (-1, zero_id_state) ∧
  Inv zero_id_active [1] [] ∧ get_obj zero_id_active 2 = Some zero_obj ∧
  qtask_del 2 zero_id_active = Fault.
Proof.
  assert (Inv (boot [1]) [] []) as HI by inv_eval.
  assert (get_obj (boot [1]) 1 = Some zero_obj) as Ho by by_eval.
  assert (Inv zero_id_state [] [1]) as HI2 by inv_eval.
  assert (get_obj zero_id_state 2 = Some zero_obj) as Ho2 by by_eval.
  assert (Inv zero_id_active [1] []) as HI3 by inv_eval.
  assert (get_obj zero_id_active 2 = Some zero_obj) as Ho3 by by_eval.
  split_and!; [exact HI|exact Ho| |exact HI2|exact Ho2| |exact HI3|exact Ho3|].
  - refine (proj1 (C10_del_unregistered (boot [1]) [] [] 1 zero_obj HI Ho _) _).
    + apply not_elem_of_nil.
    + by_eval.
  - refine (proj1 (proj2 (C10_del_unregistered zero_id_state [] [1] 2 zero_obj HI2 Ho2 _))
              _ _).
    + apply (bool_decide_unpack _). by_eval.
    + by_eval.
    + by_eval.
  - refine (proj2 (proj2 (C10_del_unregistered zero_id_active [1] [] 2 zero_obj HI3 Ho3 _))
              _ _).
    + apply (bool_decide_unpack _). by_eval.
    + by_eval.
    + reflexivity.
Defined.

(** * Further properties of the code *)

(** ** Initialisation *)

(** X1: [qtask_sched_init] returns on every store, whatever the list
    pointers held before; afterwards both lists are well formed and empty.
    It writes the two sentinels only: the task objects, [run_task] and the
    callback log are as before, so tasks linked before the call are
    dropped from the lists without being reset, and [run_task] is not
    initialised.  A second call changes nothing. *)
Theorem X1_sched_init_any_store s :
  ∃ s', qtask_sched_init s = Ok (tt, s') ∧ Inv s' [] [] ∧
        objs s' = objs s ∧ run_task (sched s') = run_task (sched s) ∧
        calls s' = calls s ∧ qtask_sched_init s' = Ok (tt, s').
Proof.
  destruct s as [[rt tl sl] m c]. eexists. split; [reflexivity|].
  split_and!; try reflexivity.
  unfold Inv, dlist, chain, nxt, prv. simpl. split_and!; try done. constructor.
Qed.

(** ** Existence checks *)

(** X2: on well-formed lists the two existence checks return, leave the
    store as it was, and answer by id, not by object: the answer is 1
    exactly when some task linked in the list carries the id stored in the
    object passed, whether or not that object is itself in the list. *)
Theorem X2_existence_check_by_id s act sus task o :
  Inv s act sus → get_obj s task = Some o →
  ∃ ra rs,
    _qtask_isexist task s = Ok (ra, s) ∧ _qdtask_isexsit task s = Ok (rs, s) ∧
    ((ra = 1 ∧ ∃ u, u ∈ act ∧ id_of s u = Some (id o)) ∨
     (ra = 0 ∧ ∀ u, u ∈ act → id_of s u ≠ Some (id o))) ∧
    ((rs = 1 ∧ ∃ u, u ∈ sus ∧ id_of s u = Some (id o)) ∨
     (rs = 0 ∧ ∀ u, u ∈ sus → id_of s u ≠ Some (id o))).
Proof.
  intros (Ha & Hs & Hnd) Ho.
  apply NoDup_app in Hnd as (Hnda & _ & Hnds).
  exists (if has_id s (id o) act then 1 else 0), (if has_id s (id o) sus then 1 else 0).
  split_and!.
  - by apply isexist_in_ok; [apply head_task|..].
  - by apply isexist_in_ok; [apply head_suspend|..].
  - destruct (has_id s (id o) act) eqn:E.
    + left. split; [done|]. by apply has_id_true.
    + right. split; [done|]. by apply has_id_false.
  - destruct (has_id s (id o) sus) eqn:E.
    + left. split; [done|]. by apply has_id_true.
    + right. split; [done|]. by apply has_id_false.
Qed.

(** ** Lookup by name *)

Lemma qtask_obj_loop_skip s tid la rest p fuel :
  chain s p (la ++ rest) TaskListHead →
  (∀ u, u ∈ la → id_of s u ≠ Some tid) →
  (length la ≤ fuel)%nat →
  qtask_obj_loop fuel tid (first_of (la ++ rest) TaskListHead) s
  = qtask_obj_loop (fuel - length la) tid (first_of rest TaskListHead) s.
Proof.
  revert p fuel. induction la as [|u la IH]; intros p fuel Hc Hid Hf.
  - simpl. by rewrite Nat.sub_0_r.
  - destruct fuel as [|fuel]; [simpl in Hf; lia|].
    destruct Hc as (H1 & H2 & H3).
    destruct (chain_alloc s p ((u :: la) ++ rest) TaskListHead u) as [ou Hou];
      [by split_and!|by left|].
    cbn [qtask_obj_loop app first_of]. rewrite decide_False by done.
    unfold QTASK_ENTRY. rewrite (bind_ok _ _ _ u s) by done.
    mrun (load_field_ok s u id ou Hou).
    assert (id ou ≠ tid) as Hne.
    { intros E. apply (Hid u); [by left|]. unfold id_of. rewrite Hou. simpl. by rewrite E. }
    rewrite (proj2 (Z.eqb_neq _ _) Hne).
    destruct (chain_first _ _ _ _ H3) as [F1 _].
    mrun (load_next_ok _ _ _ F1).
    rewrite (IH (TaskNode u) fuel); [done|done| |simpl in Hf; lia].
    intros v Hv. apply Hid. by right.
Qed.

Lemma qtask_obj_notfound s act sus nm :
  Inv s act sus → has_id s (_id_calc nm) act = false →
  qtask_obj nm s = Ok (0, s).
Proof.
  intros (Ha & Hs & Hnd) Hid. unfold qtask_obj, walk_fuel.
  rewrite (bind_ok _ _ _ (S (size (objs s))) s) by done.
  destruct (chain_first _ _ _ _ Ha) as [F1 _].
  mrun (load_next_ok _ _ _ F1).
  assert (NoDup act) as Hnda by (apply NoDup_app in Hnd; tauto).
  pose proof (dlist_fuel _ _ _ Ha Hnda) as Hf.
  rewrite <- (app_nil_r act) at 1.
  rewrite (qtask_obj_loop_skip s _ act [] TaskListHead);
    [|by rewrite app_nil_r|by apply has_id_false|lia].
  destruct (S (size (objs s)) - length act)%nat as [|f] eqn:E; [lia|].
  cbn [qtask_obj_loop first_of]. by rewrite decide_True.
Qed.

Lemma qtask_obj_found s la t lb sus nm :
  Inv s (la ++ t :: lb) sus → id_of s t = Some (_id_calc nm) →
  has_id s (_id_calc nm) la = false →
  qtask_obj nm s = Ok (t, s).
Proof.
  intros (Ha & Hs & Hnd) Hid Hla. unfold qtask_obj, walk_fuel.
  rewrite (bind_ok _ _ _ (S (size (objs s))) s) by done.
  destruct (chain_first _ _ _ _ Ha) as [F1 _].
  mrun (load_next_ok _ _ _ F1).
  assert (NoDup (la ++ t :: lb)) as Hnda by (apply NoDup_app in Hnd; tauto).
  pose proof (dlist_fuel _ _ _ Ha Hnda) as Hf. rewrite length_app in Hf. simpl in Hf.
  rewrite (qtask_obj_loop_skip s _ la (t :: lb) TaskListHead);
    [|done|by apply has_id_false|lia].
  destruct (S (size (objs s)) - length la)%nat as [|f] eqn:E; [lia|].
  cbn [qtask_obj_loop first_of]. rewrite decide_False by done.
  unfold QTASK_ENTRY. rewrite (bind_ok _ _ _ t s) by done.
  unfold id_of in Hid. destruct (get_obj s t) as [o|] eqn:Ho; [|done].
  simpl in Hid. mrun (load_field_ok s t id o Ho).
  assert (id o = _id_calc nm) as -> by congruence.
  by rewrite Z.eqb_refl.
Qed.

(** X3: on well-formed lists [qtask_obj] returns and leaves the store as
    it was.  Its result is the first task of the active list, head first,
    whose id is the id of the name, and QNULL when no active task carries
    that id; the suspended list is not searched, so a suspended task is
    not found by its name. *)
Theorem X3_lookup_first_active s act sus nm :
  Inv s act sus →
  (has_id s (_id_calc nm) act = false → qtask_obj nm s = Ok (0, s)) ∧
  (∀ la t lb, act = la ++ t :: lb → id_of s t = Some (_id_calc nm) →
     has_id s (_id_calc nm) la = false → qtask_obj nm s = Ok (t, s) ∧ t ≠ 0).
Proof.
  intros HI. split.
  - intros Hid. by eapply qtask_obj_notfound.
  - intros la t lb -> Hid Hla. split; [by eapply qtask_obj_found|].
    unfold id_of in Hid. destruct (get_obj s t) as [o|] eqn:Ho; [|done].
    by eapply get_obj_nonnull.
Qed.

(** X4: a task added under a name whose id no registered task carries is
    found by [qtask_obj] under that name; once suspended under the name it
    is no longer found, [qtask_obj] returning QNULL. *)
Theorem X4_add_lookup_suspend s act sus t o nm h tick :
  Inv s act sus → get_obj s t = Some o → t ∉ act ++ sus →
  has_id s (_id_calc nm) (act ++ sus) = false →
  ∃ s1 s2,
    qtask_add t nm h tick s = Ok (0, s1) ∧ qtask_obj nm s1 = Ok (t, s1) ∧
    qtask_suspend nm s1 = Ok (0, s2) ∧ qtask_obj nm s2 = Ok (0, s2).
Proof.
  intros HI Ho Ht Hid.
  rewrite has_id_app in Hid. apply orb_false_elim in Hid as [Hid1 Hid2].
  destruct (qtask_add_fresh s act sus t o nm h tick) as (s1 & R1 & HI1 & PU1); try done.
  destruct (payload_upd_get _ _ _ _ PU1) as (o1 & Ho1 & E1).
  apply strip_fields in E1 as (_ & Hi1 & _). simpl in Hi1.
  assert (∀ l, t ∉ l → has_id s (_id_calc nm) l = false →
               has_id s1 (_id_calc nm) l = false) as Hkeep1.
  { intros l Hl Hf. rewrite <- Hf. apply has_id_ext. intros u Hu.
    rewrite (payload_upd_id_of _ _ _ _ u PU1). by rewrite decide_False by (by intros ->). }
  destruct (qtask_suspend_found s1 [] t act sus nm o1) as (s2 & R2 & HI2 & PU2); try done.
  { apply Hkeep1; [|done]. intros Hin. apply Ht. set_solver. }
  exists s1, s2. split_and!; try done.
  - apply (qtask_obj_found s1 [] t act sus); [done| |done].
    unfold id_of. rewrite Ho1. simpl. by rewrite Hi1.
  - apply (qtask_obj_notfound s2 act (t :: sus)); [done|].
    assert (t ∉ act) as Hta by (intros Hin; apply Ht; set_solver).
    rewrite <- (Hkeep1 act Hta Hid1). apply has_id_ext. intros u Hu.
    rewrite (payload_upd_id_of _ _ _ _ u PU2). by rewrite decide_False by (by intros ->).
Qed.

(** ** The id of a name *)

Lemma _id_calc_loop_range n : ∀ h, 0 ≤ h < 2 ^ 16 → 0 ≤ _id_calc_loop h n < 2 ^ 16.
Proof.
  induction n as [|ch rest IH]; intros h Hh; simpl; [done|].
  destruct (_ =? 0); [done|]. apply IH. unfold uint16_wrap. by apply Z.mod_pos_bound.
Qed.

(** X5: the id of a name is a 16-bit value, whatever the name; a null
    name has id 0 and the empty name the seed 5381. *)
Theorem X5_id_calc_range :
  (∀ nm, 0 ≤ _id_calc nm < 2 ^ 16) ∧
  _id_calc None = 0 ∧ _id_calc (Some EmptyString) = 5381.
Proof.
  split_and!; [|done..]. intros [n|]; simpl; [|done].
  apply _id_calc_loop_range. done.
Qed.

Lemma char_code_range ch : 0 ≤ char_code ch < 256.
Proof. unfold char_code. pose proof (Ascii.N_ascii_bounded ch). lia. Qed.

Lemma char_value_low ch : char_code ch < 128 → char_value ch = char_code ch.
Proof.
  intros H. unfold char_value. cbv zeta. fold (char_code ch).
  by rewrite (proj2 (Z.leb_gt _ _) H).
Qed.

Lemma char_value_high ch : 128 ≤ char_code ch → char_value ch = char_code ch - 256.
Proof.
  intros H. unfold char_value. cbv zeta. fold (char_code ch).
  by rewrite (proj2 (Z.leb_le _ _) H).
Qed.

Lemma char_value_zero ch : (char_value ch =? 0) = (char_code ch =? 0).
Proof.
  pose proof (char_code_range ch) as Hr.
  destruct (Z.lt_ge_cases (char_code ch) 128) as [H|H].
  - by rewrite char_value_low.
  - rewrite char_value_high by done.
    rewrite (proj2 (Z.eqb_neq _ _)) by lia. symmetry. apply Z.eqb_neq. lia.
Qed.

Lemma _id_calc_loop_app a b : ∀ h,
  nul_free a = true → _id_calc_loop h (a +:+ b) = _id_calc_loop (_id_calc_loop h a) b.
Proof.
  induction a as [|ch a IH]; intros h Ha; [done|].
  simpl in Ha. apply andb_prop in Ha as [Hc Ha]. apply negb_true_iff in Hc.
  change (String ch a +:+ b) with (String ch (a +:+ b)). cbn [_id_calc_loop]. cbv zeta.
  rewrite char_value_zero, Hc. by apply IH.
Qed.

Lemma _id_calc_step a ch :
  nul_free a = true → char_code ch ≠ 0 →
  _id_calc (Some (a +:+ String ch EmptyString))
  = (33 * _id_calc (Some a) + char_value ch) mod 65536.
Proof.
  intros Ha Hch. cbn [_id_calc]. rewrite _id_calc_loop_app by done.
  cbn [_id_calc_loop]. cbv zeta. rewrite char_value_zero.
  rewrite (proj2 (Z.eqb_neq _ _) Hch). unfold uint16_wrap.
  rewrite Z.shiftl_mul_pow2 by done. f_equal. lia.
Qed.

(** X6: [_id_calc] is the DJB2 recurrence kept in 16 bits: appending a
    7-bit character [ch] other than NUL to a name takes the id [i] to
    [(33 * i + ch) mod 65536]; a byte of 128 or more is read as a signed
    [char] and takes it to [(33 * i + ch - 256) mod 65536]; and the scan
    stops at the first NUL, so what follows a NUL byte does not count. *)
Theorem X6_id_calc_recurrence a :
  nul_free a = true →
  (∀ ch, 0 < char_code ch < 128 →
     _id_calc (Some (a +:+ String ch EmptyString))
     = (33 * _id_calc (Some a) + char_code ch) mod 65536) ∧
  (∀ ch, 128 ≤ char_code ch →
     _id_calc (Some (a +:+ String ch EmptyString))
     = (33 * _id_calc (Some a) + (char_code ch - 256)) mod 65536) ∧
  (∀ b, _id_calc (Some (a +:+ String Ascii.zero b)) = _id_calc (Some a)).
Proof.
  intros Ha. split_and!.
  - intros ch Hch. rewrite _id_calc_step by (done || lia).
    by rewrite char_value_low by lia.
  - intros ch Hch. rewrite _id_calc_step by (done || lia).
    by rewrite char_value_high.
  - intros b. cbn [_id_calc]. by rewrite _id_calc_loop_app.
Qed.

(** ** The list primitives *)

Lemma set_task_node_same o : set_task_node (task_node o) o = o.
Proof. by destruct o. Qed.

Lemma with_objs_same s : with_objs (objs s) s = s.
Proof. by destruct s. Qed.

Lemma upd_node_same s p f n :
  get_node s p = Some n → f n = n → upd_node s p f = Some s.
Proof.
  intros Hn Hf. destruct p as [| | |t]; simpl in *.
  - done.
  - injection Hn as <-. rewrite Hf. by destruct s as [[? ? ?] ? ?].
  - injection Hn as <-. rewrite Hf. by destruct s as [[? ? ?] ? ?].
  - unfold upd_obj. destruct (get_obj s t) as [o|] eqn:Ho; [|done].
    simpl in Hn. injection Hn as <-. rewrite Hf, set_task_node_same.
    rewrite insert_id by (by apply get_obj_lookup). by rewrite with_objs_same.
Qed.

Lemma store_next_same s p n : nxt s p = Some n → store_next p n s = Ok (tt, s).
Proof.
  unfold nxt, store_next, lift_upd. intros H.
  destruct (get_node s p) as [[a b]|] eqn:Hn; [|done]. simpl in H.
  rewrite (upd_node_same s p _ _ Hn); [done|]. unfold set_next. simpl. congruence.
Qed.

Lemma store_prev_same s p n : prv s p = Some n → store_prev p n s = Ok (tt, s).
Proof.
  unfold prv, store_prev, lift_upd. intros H.
  destruct (get_node s p) as [[a b]|] eqn:Hn; [|done]. simpl in H.
  rewrite (upd_node_same s p _ _ Hn); [done|]. unfold set_prev. simpl. congruence.
Qed.

(** X7: [_list_remove] on a node that is linked to itself, which is how
    [_list_remove] leaves the node it unlinks and how an empty list's
    sentinel stands, returns and changes nothing: unlinking twice is
    harmless. *)
Theorem X7_list_remove_detached s node :
  nxt s node = Some node → prv s node = Some node →
  _list_remove node s = Ok (tt, s).
Proof.
  intros Hn Hp. unfold _list_remove.
  mrun (load_next_ok _ _ _ Hn). mrun (load_prev_ok _ _ _ Hp).
  mrun (store_prev_same _ _ _ Hp).
  mrun (load_prev_ok _ _ _ Hp). mrun (load_next_ok _ _ _ Hn).
  mrun (store_next_same _ _ _ Hn).
  mrun (store_prev_same _ _ _ Hp).
  by apply store_next_same.
Qed.

Lemma get_node_ext s s' p :
  nxt s' p = nxt s p → prv s' p = prv s p → get_node s' p = get_node s p.
Proof.
  unfold nxt, prv.
  destruct (get_node s' p) as [[a b]|], (get_node s p) as [[a' b']|]; simpl; congruence.
Qed.

(** X8: [_list_insert] links the node between the sentinel and the former
    first node; a following [_list_remove] of the node returns every other
    node to the links it had, leaves the node linked to itself, and no
    descriptor field is touched by either. *)
Theorem X8_insert_then_remove s list node first :
  nxt s list = Some first → prv s first = Some list →
  node ≠ list → node ≠ first → is_Some (get_node s node) →
  ∃ s1 s2,
    _list_insert list node s = Ok (tt, s1) ∧
    nxt s1 list = Some node ∧ nxt s1 node = Some first ∧
    prv s1 node = Some list ∧ prv s1 first = Some node ∧
    _list_remove node s1 = Ok (tt, s2) ∧
    (∀ q, q ≠ node → get_node s2 q = get_node s q) ∧
    get_node s2 node = Some (mkQTaskList node node) ∧
    same_payload s s2.
Proof.
  intros Hn Hp Hnl Hnf Hnode.
  assert (is_Some (nxt s first)) as Hf1
    by (eapply node_nxt_is_Some, prv_is_Some; exact Hp).
  assert (is_Some (nxt s node)) as Hf2 by (by apply node_nxt_is_Some).
  destruct (_list_insert_ok s list node first Hn Hf1 Hf2) as (s1 & R1 & N1 & P1 & SP1).
  assert (nxt s1 list = Some node) as A1 by (by rewrite N1, decide_True).
  assert (nxt s1 node = Some first) as A2.
  { rewrite N1, decide_False by done. by rewrite decide_True. }
  assert (prv s1 node = Some list) as A3 by (by rewrite P1, decide_True).
  assert (prv s1 first = Some node) as A4.
  { rewrite P1, decide_False by done. by rewrite decide_True. }
  destruct (_list_remove_ok s1 node first list A2 A3) as (s2 & R2 & N2 & P2 & SP2).
  { rewrite N1. repeat case_decide; done. }
  { by rewrite A1. }
  exists s1, s2. split_and!; try done.
  - intros q Hq. apply get_node_ext.
    + rewrite N2, decide_False by done. case_decide as E; [by subst|].
      rewrite N1. by rewrite !decide_False.
    + rewrite P2, decide_False by done. case_decide as E; [by subst|].
      rewrite P1. by rewrite !decide_False.
  - specialize (N2 node). specialize (P2 node). rewrite decide_True in N2, P2 by done.
    unfold nxt, prv in N2, P2. destruct (get_node s2 node) as [[a b]|]; simpl in *; congruence.
  - by eapply same_payload_trans.
Qed.

(** ** Registration: the paths the lists decide *)

Lemma payload_upd_elim s s' t o' :
  payload_upd s s' t o' →
  ∃ o1, get_obj s' t = Some o1 ∧ strip o1 = strip o' ∧
        (∀ u, u ≠ t → payload s' u = payload s u) ∧
        run_task (sched s') = run_task (sched s) ∧ calls s' = calls s.
Proof.
  intros PU. destruct (payload_upd_get _ _ _ _ PU) as (o1 & Ho1 & E1).
  destruct PU as (Hp & Hr & Hc & _).
  exists o1. split_and!; try done. intros u Hu. by rewrite Hp, decide_False.
Qed.

(** X9: [qtask_del] on a task of the active list, when no suspended task
    carries its id, returns 0; the task leaves the active list, whose
    other entries keep their order, and becomes the head of the suspended
    list; its ready flag is cleared and its countdown reloaded from the
    period; no other descriptor field, no other task, neither [run_task]
    nor the callback log changes. *)
Theorem X9_del_active_task s la t lb sus o :
  Inv s (la ++ t :: lb) sus → get_obj s t = Some o →
  has_id s (id o) sus = false →
  ∃ s' o', qtask_del t s = Ok (0, s') ∧ Inv s' (la ++ lb) (t :: sus) ∧
    get_obj s' t = Some o' ∧
    strip o' = strip (set_timer (period o) (set_isready 0 o)) ∧
    (∀ u, u ≠ t → payload s' u = payload s u) ∧
    run_task (sched s') = run_task (sched s) ∧ calls s' = calls s.
Proof.
  intros HI Ho Hid.
  destruct (qtask_del_active s la t lb sus o HI Ho Hid) as (s' & R & HI' & PU).
  destruct (payload_upd_elim _ _ _ _ PU) as (o' & ? & ? & ? & ? & ?).
  exists s', o'. by split_and!.
Qed.

(** X10: [qtask_del] on a task that is already in the suspended list,
    when no active task carries its id, returns -1 and changes nothing. *)
Theorem X10_del_suspended_task s act sus t o :
  Inv s act sus → t ∈ sus → get_obj s t = Some o →
  has_id s (id o) act = false →
  qtask_del t s = Ok (-1, s).
Proof.
  intros HI Ht Ho Hid. eapply qtask_del_suspended; try done.
  apply has_id_true. exists t. split; [done|]. by apply id_of_Some.
Qed.

(** X11: [qtask_add] on a task object that is in the suspended list, when
    no active task carries the id of the name, returns 0: the object
    leaves the suspended list and becomes the head of the active list,
    with its descriptor initialised from the arguments; no other task
    changes. *)
Theorem X11_add_suspended_task s act la t lb o nm h tick :
  Inv s act (la ++ t :: lb) → get_obj s t = Some o →
  has_id s (_id_calc nm) act = false →
  ∃ s' o', qtask_add t nm h tick s = Ok (0, s') ∧ Inv s' (t :: act) (la ++ lb) ∧
    get_obj s' t = Some o' ∧
    strip o' = strip (mkQTaskObj nm (_id_calc nm) 0 h tick tick 0 0 (task_node o)) ∧
    (∀ u, u ≠ t → payload s' u = payload s u) ∧
    run_task (sched s') = run_task (sched s) ∧ calls s' = calls s.
Proof.
  intros HI Ho Hid.
  destruct (qtask_add_suspended s act la t lb o nm h tick HI Ho Hid) as (s' & R & HI' & PU).
  destruct (payload_upd_elim _ _ _ _ PU) as (o' & ? & ? & ? & ? & ?).
  exists s', o'. by split_and!.
Qed.

(** X12: [qtask_add] on a task object that was never linked (its node
    pointers are null, as in zero-initialised storage), under a name whose
    id a suspended task carries, takes the branch that unlinks the object
    passed and dereferences its null [next] pointer. *)
Theorem X12_add_unlinked_colliding_faults s act sus t o nm h tick :
  Inv s act sus → get_obj s t = Some o →
  next (task_node o) = NodeNull →
  has_id s (_id_calc nm) sus = true →
  qtask_add t nm h tick s = Fault.
Proof.
  intros HI Ho Hn Hid. pose proof (get_obj_nonnull _ _ _ Ho) as Ht0.
  rewrite (qtask_add_init s t o) by done.
  set (o0 := init_obj nm h tick o). set (s0 := put_obj s t o0).
  assert (same_links s s0) as SL by (by eapply put_obj_same_links).
  assert (get_obj s0 t = Some o0) as Ho0 by (by apply get_obj_put_obj_eq).
  pose proof (Inv_same_links _ _ _ _ SL HI) as (Ha0 & Hs0 & Hnd).
  assert (NoDup sus) as Hnds by (apply NoDup_app in Hnd; tauto).
  assert (has_id s0 (id o0) sus = true) as Hid0.
  { apply has_id_true in Hid as (u & Hu & Hi). apply has_id_true. exists u.
    split; [done|]. unfold s0. rewrite id_of_put_obj by done.
    case_decide; [done|]. exact Hi. }
  unfold move_block.
  mrun (isexist_in_ok s0 SuspendListHead t o0 sus head_suspend Hs0 Hnds Ho0).
  rewrite Hid0. cbn [Z.eqb Pos.eqb].
  apply bind_fault. unfold reset_and_remove.
  mrun (store_task_ok s0 t (set_isready 0) o0 Ho0).
  erewrite bind_ok; [|apply load_field_ok; by apply get_obj_put_obj_eq].
  erewrite bind_ok; [|by apply store_task_put].
  eapply _list_remove_null_next; [by apply get_obj_put_obj_eq|]. done.
Qed.

Lemma strip_reset o1 o :
  strip o1 = strip (reset_obj o) → strip (reset_obj o1) = strip (reset_obj o).
Proof.
  intros E. apply strip_fields in E as (E1 & E2 & E3 & E4 & E5 & E6 & E7 & E8).
  destruct o1, o. unfold strip, reset_obj, set_timer, set_isready, set_task_node in *.
  simpl in *. congruence.
Qed.

(** X13: suspending an active task by its name and resuming it by the same
    name, when no other registered task carries the id, both return 0 and
    do not restore the state: the task comes back as the head of the
    active list, the other active tasks keeping their order, with its
    ready flag cleared and its countdown restarted from the period; the
    suspended list and the other tasks are as before. *)
Theorem X13_suspend_resume_moves_to_head s la t lb sus nm o :
  Inv s (la ++ t :: lb) sus → get_obj s t = Some o → id o = _id_calc nm →
  has_id s (_id_calc nm) (la ++ lb ++ sus) = false →
  ∃ s1 s2 o2,
    qtask_suspend nm s = Ok (0, s1) ∧ Inv s1 (la ++ lb) (t :: sus) ∧
    qtask_resume nm s1 = Ok (0, s2) ∧ Inv s2 (t :: la ++ lb) sus ∧
    get_obj s2 t = Some o2 ∧
    strip o2 = strip (set_timer (period o) (set_isready 0 o)) ∧
    (∀ u, u ≠ t → payload s2 u = payload s u).
Proof.
  intros HI Ho Hio Hid.
  rewrite !has_id_app in Hid.
  apply orb_false_elim in Hid as [Hla Hid]. apply orb_false_elim in Hid as [Hlb Hsus].
  pose proof HI as (_ & _ & Hnd).
  assert (NoDup (la ++ t :: lb)) as Hnda by (apply NoDup_app in Hnd; tauto).
  destruct (NoDup_split_notin _ _ _ Hnda) as [Htla Htlb].
  destruct (qtask_suspend_found s la t lb sus nm o) as (s1 & R1 & HI1 & PU1); try done.
  destruct (payload_upd_elim _ _ _ _ PU1) as (o1 & Ho1 & E1 & Hoth1 & _).
  assert (id o1 = _id_calc nm) as Hio1.
  { apply strip_fields in E1 as (_ & Hi & _). simpl in Hi. congruence. }
  destruct (qtask_resume_found s1 (la ++ lb) [] t sus nm o1) as (s2 & R2 & HI2 & PU2);
    try done.
  { rewrite has_id_app. apply orb_false_intro.
    - rewrite <- Hla. apply has_id_ext. intros u Hu.
      rewrite (payload_upd_id_of _ _ _ _ u PU1). by rewrite decide_False by (by intros ->).
    - rewrite <- Hlb. apply has_id_ext. intros u Hu.
      rewrite (payload_upd_id_of _ _ _ _ u PU1). by rewrite decide_False by (by intros ->). }
  destruct (payload_upd_elim _ _ _ _ PU2) as (o2 & Ho2 & E2 & Hoth2 & _).
  exists s1, s2, o2. split_and!; try done.
  - rewrite E2. by apply strip_reset.
  - intros u Hu. by rewrite Hoth2, Hoth1.
Qed.

(** X14: [qtask_add] of a task object that is in neither list, under a
    name whose id no registered task carries, returns 0 and links the
    object at the head of the active list, ahead of every task registered
    before, whose order is kept; the descriptor holds the name, its id,
    the callback, countdown and period equal to the tick count given, and
    a clear ready flag and zero run counters; no other task changes. *)
Theorem X14_add_new_task_at_head s act sus t o nm h tick :
  Inv s act sus → get_obj s t = Some o → t ∉ act ++ sus →
  has_id s (_id_calc nm) (act ++ sus) = false →
  ∃ s' o', qtask_add t nm h tick s = Ok (0, s') ∧ Inv s' (t :: act) sus ∧
    get_obj s' t = Some o' ∧
    strip o' = strip (mkQTaskObj nm (_id_calc nm) 0 h tick tick 0 0 (task_node o)) ∧
    (∀ u, u ≠ t → payload s' u = payload s u) ∧
    run_task (sched s') = run_task (sched s) ∧ calls s' = calls s.
Proof.
  intros HI Ho Ht Hid.
  rewrite has_id_app in Hid. apply orb_false_elim in Hid as [Hid1 Hid2].
  destruct (qtask_add_fresh s act sus t o nm h tick) as (s' & R & HI' & PU); try done.
  destruct (payload_upd_elim _ _ _ _ PU) as (o' & ? & ? & ? & ? & ?).
  exists s', o'. by split_and!.
Qed.

(** ** Sequences of ticks *)

Lemma run_ops_cons_ok o os s r s1 rs s2 :
  run_op o s = Ok (r, s1) → run_ops os s1 = Ok (rs, s2) →
  run_ops (o :: os) s = Ok (r :: rs, s2).
Proof.
  intros H1 H2. cbn [run_ops]. mrun H1. by mrun H2.
Qed.

Lemma run_op_tick_ok s s' :
  qtask_tick_increase s = Ok (tt, s') → run_op OpTick s = Ok (0, s').
Proof. intros H. cbn [run_op]. by mrun H. Qed.

Lemma set_timer_same o : set_timer (timer o) o = o.
Proof. by destruct o. Qed.

Lemma countdown_ticks n : ∀ s act sus i t o,
  Inv s act sus → act !! i = Some t → (i ≤ 1000)%nat →
  get_obj s t = Some o → 0 < timer o < 2 ^ SIZE_WIDTH → Z.of_nat n ≤ timer o →
  ∃ s', run_ops (replicate n OpTick) s = Ok (replicate n 0, s') ∧ Inv s' act sus ∧
        get_obj s' t
        = Some (if decide (Z.of_nat n = timer o)
                then set_timer (period o) (set_isready 1 o)
                else set_timer (timer o - Z.of_nat n) o).
Proof.
  induction n as [|n IH]; intros s act sus i t o HI Hi Hle Ho Hr Hn.
  - exists s. split_and!; [done|done|].
    rewrite decide_False by lia. by rewrite Z.sub_0_r, set_timer_same.
  - destruct (qtask_tick_increase_spec _ _ _ HI) as (s1 & R & HI1 & _ & Hin & _).
    pose proof (Hin i t Hi Hle) as Ho1. rewrite Ho in Ho1. simpl in Ho1.
    destruct (tick_obj_cases o) as (_ & T1 & T2); [lia|].
    destruct (decide (timer o = 1)) as [E|E].
    + assert (n = 0%nat) as -> by lia.
      exists s1. split_and!; [|done|].
      * eapply run_ops_cons_ok; [by apply run_op_tick_ok|done].
      * rewrite decide_True by lia. by rewrite Ho1, T1.
    + rewrite T2 in Ho1 by lia.
      destruct (IH s1 act sus i t _ HI1 Hi Hle Ho1) as (s' & R' & HI' & Ho');
        [simpl; lia|simpl; lia|].
      exists s'. split_and!; [|done|].
      * eapply run_ops_cons_ok; [by apply run_op_tick_ok|done].
      * rewrite Ho'. f_equal. simpl.
        destruct (decide (Z.of_nat n = timer o - 1)), (decide (Z.of_nat (S n) = timer o));
          try lia; destruct o; unfold set_timer, set_isready; simpl; f_equal; lia.
Qed.

(** X15: a task among the first 1001 entries of the active list whose
    countdown is [m > 0] is, after [n < m] calls of [qtask_tick_increase],
    unchanged but for its countdown, now [m - n]; after exactly [m] calls
    its ready flag is set and its countdown is back at the period.  All
    the calls return and keep both lists. *)
Theorem X15_countdown_over_ticks s act sus i t o n :
  Inv s act sus → act !! i = Some t → (i ≤ 1000)%nat →
  get_obj s t = Some o → 0 < timer o < 2 ^ SIZE_WIDTH → Z.of_nat n ≤ timer o →
  ∃ s', run_ops (replicate n OpTick) s = Ok (replicate n 0, s') ∧ Inv s' act sus ∧
        (Z.of_nat n < timer o → get_obj s' t = Some (set_timer (timer o - Z.of_nat n) o)) ∧
        (Z.of_nat n = timer o →
         get_obj s' t = Some (set_timer (period o) (set_isready 1 o))).
Proof.
  intros HI Hi Hle Ho Hr Hn.
  destruct (countdown_ticks n s act sus i t o HI Hi Hle Ho Hr Hn) as (s' & R & HI' & Ho').
  exists s'. split_and!; try done.
  - intros Hlt. by rewrite Ho', decide_False by lia.
  - intros Heq. by rewrite Ho', decide_True.
Qed.

Lemma tick_obj_idle o : timer o = 0 → tick_obj o = o.
Proof. intros E. unfold tick_obj. by rewrite E. Qed.

(** X16: a task whose countdown is 0, as it is after [qtask_add] with a
    tick count of 0, is never made ready by [qtask_tick_increase]: after
    any number of calls, all of which return and keep both lists, its
    descriptor is what it was. *)
Theorem X16_zero_countdown_never_fires s act sus t o n :
  Inv s act sus → get_obj s t = Some o → timer o = 0 →
  ∃ s', run_ops (replicate n OpTick) s = Ok (replicate n 0, s') ∧ Inv s' act sus ∧
        get_obj s' t = Some o.
Proof.
  revert s. induction n as [|n IH]; intros s HI Ho Ht.
  - by exists s.
  - pose proof (qtask_tick_increase_ok _ _ _ HI) as R.
    set (s1 := foldl tick_task s (take 1001%nat act)) in R.
    assert (Inv s1 act sus) as HI1.
    { eapply Inv_same_links; [|exact HI]. apply fold_tick_same_links. }
    assert (get_obj s1 t = Some o) as Ho1.
    { unfold s1. rewrite fold_tick_get.
      - case_decide; [|done]. rewrite Ho. simpl. by rewrite tick_obj_idle.
      - eapply sublist_NoDup; [by eapply Inv_NoDup_act|apply sublist_take]. }
    destruct (IH s1 HI1 Ho1 Ht) as (s' & R' & HI' & Ho').
    exists s'. split_and!; [|done|done].
    eapply run_ops_cons_ok; [by apply run_op_tick_ok|done].
Qed.

(** ** The scan bound *)

Lemma halts_ret {A} (a : A) : halts (ret a).
Proof. by intros s. Qed.

Lemma halts_bind {A B} (c : M A) (k : A → M B) :
  halts c → (∀ a, halts (k a)) → halts (bind c k).
Proof.
  intros Hc Hk s. unfold bind. specialize (Hc s).
  destruct (c s) as [[a s1]| |]; [apply Hk|done|done].
Qed.

Lemma halts_lift_get {A} (g : mem → option A) : halts (lift_get g).
Proof. intros s. unfold lift_get. by destruct (g s). Qed.

Lemma halts_lift_upd u : halts (lift_upd u).
Proof. intros s. unfold lift_upd. by destruct (u s). Qed.

Lemma halts_load_next_or_null p : halts (load_next_or_null p).
Proof.
  unfold load_next_or_null. case_decide; [apply halts_ret|apply halts_lift_get].
Qed.

Lemma halts_load_field {A} t (f : QTaskObj → A) : halts (load_field t f).
Proof. apply halts_bind; [apply halts_lift_get|intros; apply halts_ret]. Qed.

Lemma halts_tick_body t : halts (tick_body t).
Proof.
  unfold tick_body. apply halts_bind; [apply halts_load_field|intros tm].
  destruct (0 <? tm); [|apply halts_ret].
  apply halts_bind; [apply halts_lift_upd|intros _].
  destruct (_ <=? 0); [|apply halts_ret].
  apply halts_bind; [apply halts_lift_upd|intros _].
  apply halts_bind; [by intros s|intros _].
  apply halts_bind; [apply halts_load_field|intros p]. apply halts_lift_upd.
Qed.

Lemma halts_tick_loop fuel : ∀ count node safe,
  0 ≤ count → (Z.to_nat (1001 - count) < fuel)%nat →
  halts (qtask_tick_increase_loop fuel count node safe).
Proof.
  induction fuel as [|fuel IH]; intros count node safe Hc Hf; [lia|].
  cbn [qtask_tick_increase_loop].
  destruct (safe_continue TaskListHead node); [|apply halts_ret].
  apply halts_bind; [apply halts_lift_get|intros nn].
  apply halts_bind; [apply halts_lift_get|intros np].
  destruct (_ || _); [apply halts_ret|].
  apply halts_bind; [destruct node; try apply halts_ret; by intros s|intros task].
  destruct (task =? 0); [apply halts_ret|].
  apply halts_bind; [apply halts_tick_body|intros _].
  destruct (1000 <? count + 1) eqn:E; [apply halts_ret|]. apply Z.ltb_ge in E.
  apply halts_bind.
  - apply halts_bind; [apply halts_load_next_or_null|intros; apply halts_ret].
  - intros ns. apply IH; lia.
Qed.

(** X17: [qtask_tick_increase] stops on every store, well formed or not:
    the iteration count bounds the scan even when the active list is
    corrupted or loops back on itself, so the call either returns or
    dereferences a bad pointer, and never walks on. *)
Theorem X17_tick_scan_always_stops s :
  (∃ s', qtask_tick_increase s = Ok (tt, s')) ∨ qtask_tick_increase s = Fault.
Proof.
  assert (halts qtask_tick_increase) as H.
  { unfold qtask_tick_increase. apply halts_bind.
    - unfold safe_start. apply halts_bind; [apply halts_load_next_or_null|intros node].
      apply halts_bind; [apply halts_load_next_or_null|intros; apply halts_ret].
    - intros ns. apply halts_tick_loop; [done|]. vm_compute. lia. }
  specialize (H s). destruct (qtask_tick_increase s) as [[[] s']| |]; [|by right|done].
  left. by exists s'.
Qed.

(** ** Use before initialisation *)

Lemma isexist_in_null_head s h t :
  is_head h → nxt s h = Some NodeNull → isexist_in h t s = Fault.
Proof.
  intros Hh Hn. unfold isexist_in, walk_fuel.
  rewrite (bind_ok _ _ _ (S (size (objs s))) s) by done.
  mrun (load_next_ok _ _ _ Hn). cbn [isexist_loop].
  by rewrite decide_False by (destruct Hh as [-> | ->]; done).
Qed.

(** X18: on a scheduler whose list heads still hold null pointers, as in
    zero-initialised storage on which [qtask_sched_init] was not called,
    the functions that walk with the guarded iterator see an empty list
    ([qtask_tick_increase] and [qtask_exec] return without effect,
    [qtask_suspend] and [qtask_resume] return -1), while the others
    dereference the null pointer: [qtask_runtime_increase], [qtask_obj],
    [qtask_del] and [qtask_add] on any task object. *)
Theorem X18_use_before_init s :
  next (task_list (sched s)) = NodeNull →
  next (suspend_list (sched s)) = NodeNull →
  qtask_tick_increase s = Ok (tt, s) ∧ qtask_exec s = Ok (tt, s) ∧
  (∀ nm, qtask_suspend nm s = Ok (-1, s) ∧ qtask_resume nm s = Ok (-1, s) ∧
         qtask_obj nm s = Fault) ∧
  qtask_runtime_increase s = Fault ∧
  (∀ t, qtask_del t s = Fault) ∧
  (∀ t nm h tick, qtask_add t nm h tick s = Fault).
Proof.
  intros Ha Hs.
  assert (nxt s TaskListHead = Some NodeNull) as Na by (unfold nxt; simpl; by rewrite Ha).
  assert (nxt s SuspendListHead = Some NodeNull) as Ns by (unfold nxt; simpl; by rewrite Hs).
  assert (∀ h, is_head h → safe_start h s = Ok ((NodeNull, NodeNull), s)) as Hstart.
  { intros h Hh. unfold safe_start, load_next_or_null.
    rewrite decide_False by (destruct Hh as [-> | ->]; done).
    destruct Hh as [-> | ->].
    - by mrun (load_next_ok _ _ _ Na).
    - by mrun (load_next_ok _ _ _ Ns). }
  split_and!.
  - unfold qtask_tick_increase. by mrun (Hstart _ head_task).
  - unfold qtask_exec, walk_fuel.
    rewrite (bind_ok _ _ _ (S (size (objs s))) s) by done.
    by mrun (Hstart _ head_task).
  - intros nm. split_and!.
    + unfold qtask_suspend, walk_fuel.
      rewrite (bind_ok _ _ _ (S (size (objs s))) s) by done.
      by mrun (Hstart _ head_task).
    + unfold qtask_resume, walk_fuel.
      rewrite (bind_ok _ _ _ (S (size (objs s))) s) by done.
      by mrun (Hstart _ head_suspend).
    + unfold qtask_obj, walk_fuel.
      rewrite (bind_ok _ _ _ (S (size (objs s))) s) by done.
      by mrun (load_next_ok _ _ _ Na).
  - unfold qtask_runtime_increase, walk_fuel.
    rewrite (bind_ok _ _ _ (S (size (objs s))) s) by done.
    by mrun (load_next_ok _ _ _ Na).
  - intros t. unfold qtask_del. apply bind_fault.
    by apply isexist_in_null_head; [apply head_task|].
  - intros t nm h tick. destruct (get_obj s t) as [o|] eqn:Ho.
    + rewrite (qtask_add_init s t o) by done. unfold move_block. apply bind_fault.
      apply isexist_in_null_head; [apply head_suspend|].
      unfold nxt, put_obj. simpl. by rewrite Hs.
    + unfold qtask_add. apply bind_fault. unfold store_task, lift_upd, upd_obj.
      by rewrite Ho.
Qed.

(** ** A second execute pass *)

(** X19: on well-formed lists in which no task of the active list is
    ready, an execute pass returns, changes nothing and runs no callback,
    whatever the callbacks would do.  That is the state a pass leaves
    behind when the callbacks of the ready tasks are non-null and return
    without touching the store: a second pass right after it is idle. *)
Theorem X19_second_exec_pass_idle cb s act sus :
  Inv s act sus →
  ((∀ u o, u ∈ act → get_obj s u = Some o → isready o = 0) →
   qtask_exec_with cb s = Ok (tt, s)) ∧
  ((∀ u o, u ∈ act → get_obj s u = Some o → isready o ≠ 0 → handle o ≠ 0) →
   (∀ u o, u ∈ act → get_obj s u = Some o → isready o ≠ 0 → inert cb (handle o)) →
   ∃ s', qtask_exec_with cb s = Ok (tt, s') ∧
         (∀ u o, u ∈ act → get_obj s' u = Some o → isready o = 0) ∧
         qtask_exec_with cb s' = Ok (tt, s')).
Proof.
  intros HI. pose proof (Inv_NoDup_act _ _ _ HI) as Hnd.
  assert (∀ s0, Inv s0 act sus →
                (∀ u o, u ∈ act → get_obj s0 u = Some o → isready o = 0) →
                qtask_exec_with cb s0 = Ok (tt, s0)) as Hidle_pass.
  { intros s0 HI0 Hidle. rewrite (qtask_exec_with_ok cb s0 act sus HI0).
    - by rewrite fold_exec_idle.
    - intros u o Hu Ho Hr. by rewrite (Hidle u o Hu Ho) in Hr.
    - intros u o Hu Ho Hr. by rewrite (Hidle u o Hu Ho) in Hr. }
  split; [by apply Hidle_pass|]. intros Hh Hi.
  set (s' := foldl exec_task s act).
  assert (Inv s' act sus) as HI'.
  { eapply Inv_same_links; [|exact HI]. apply fold_exec_same_links. }
  assert (∀ u o, u ∈ act → get_obj s' u = Some o → isready o = 0) as Hidle.
  { intros u o Hu. unfold s'. rewrite fold_exec_get, decide_True by done.
    destruct (get_obj s u) as [ou|]; [|done]. simpl. intros [= <-].
    apply exec_obj_isready. }
  exists s'. split_and!.
  - by apply (qtask_exec_with_ok cb s act sus).
  - exact Hidle.
  - by apply Hidle_pass.
Qed.

(** ** Run-time accounting *)

Lemma runtime_body_ok s t o :
  get_obj s t = Some o → runtime_body t s = Ok (tt, runtime_task s t).
Proof.
  intros Ho. unfold runtime_body, runtime_task. rewrite Ho.
  mrun (load_field_ok s t isready o Ho).
  destruct (isready o =? 0) eqn:E; [done|].
  mrun (load_field_ok s t rtick o Ho).
  rewrite (store_task_ok s t _ o Ho). unfold runtime_obj. by rewrite E.
Qed.

Lemma runtime_task_same_links s t : same_links s (runtime_task s t).
Proof.
  intros p. unfold runtime_task. destruct (get_obj s t) as [o|] eqn:Ho; [|done].
  destruct (isready o =? 0) eqn:E; [done|].
  eapply get_node_put_obj; [done|]. unfold runtime_obj. by rewrite E.
Qed.

Lemma get_obj_runtime_task s u t :
  get_obj (runtime_task s u) t
  = if decide (t = u) then runtime_obj <$> get_obj s u else get_obj s t.
Proof.
  unfold runtime_task. destruct (get_obj s u) as [o|] eqn:Ho.
  - pose proof (get_obj_nonnull _ _ _ Ho) as Hu.
    destruct (isready o =? 0) eqn:E.
    + case_decide; [|done]. subst. rewrite Ho. simpl. unfold runtime_obj. by rewrite E.
    + by apply get_obj_put_obj.
  - case_decide; [by subst|done].
Qed.

Lemma runtime_task_frame s t :
  sched (runtime_task s t) = sched s ∧ calls (runtime_task s t) = calls s.
Proof.
  unfold runtime_task. destruct (get_obj s t) as [o|]; [|done].
  by destruct (isready o =? 0).
Qed.

Lemma qtask_runtime_increase_loop_ok l : ∀ s p fuel,
  chain s p l TaskListHead → (length l < fuel)%nat →
  qtask_runtime_increase_loop fuel (first_of l TaskListHead) s
  = Ok (tt, foldl runtime_task s l).
Proof.
  induction l as [|u l IH]; intros s p fuel Hc Hf.
  - destruct fuel as [|fuel]; [simpl in Hf; lia|].
    cbn [qtask_runtime_increase_loop first_of]. by rewrite decide_True.
  - destruct fuel as [|fuel]; [simpl in Hf; lia|].
    cbn [qtask_runtime_increase_loop first_of]. rewrite decide_False by done.
    destruct (chain_alloc s p (u :: l) TaskListHead u) as [ou Hou]; [done|by left|].
    destruct Hc as (H1 & H2 & H3).
    unfold QTASK_ENTRY. rewrite (bind_ok _ _ _ u s) by done.
    mrun (runtime_body_ok s u ou Hou).
    assert (chain (runtime_task s u) (TaskNode u) l TaskListHead) as H3'.
    { eapply chain_same_links; [apply runtime_task_same_links|done]. }
    destruct (chain_first _ _ _ _ H3') as [F1 _].
    mrun (load_next_ok _ _ _ F1). cbn [foldl].
    eapply IH; [exact H3'|]. simpl in Hf. lia.
Qed.

Lemma qtask_runtime_increase_ok s act sus :
  Inv s act sus → qtask_runtime_increase s = Ok (tt, foldl runtime_task s act).
Proof.
  intros (Ha & Hs & Hnd). unfold qtask_runtime_increase, walk_fuel.
  rewrite (bind_ok _ _ _ (S (size (objs s))) s) by done.
  destruct (chain_first _ _ _ _ Ha) as [F1 _].
  mrun (load_next_ok _ _ _ F1).
  assert (NoDup act) as Hnda by (apply NoDup_app in Hnd; tauto).
  eapply qtask_runtime_increase_loop_ok; eauto using dlist_fuel.
Qed.

Lemma fold_runtime_same_links s l : same_links s (foldl runtime_task s l).
Proof.
  revert s. induction l as [|u l IH]; intros s p; cbn [foldl]; [done|].
  by rewrite IH, runtime_task_same_links.
Qed.

Lemma fold_runtime_frame s l :
  sched (foldl runtime_task s l) = sched s ∧ calls (foldl runtime_task s l) = calls s.
Proof.
  revert s. induction l as [|u l IH]; intros s; cbn [foldl]; [done|].
  destruct (IH (runtime_task s u)) as [-> ->]. apply runtime_task_frame.
Qed.

Lemma fold_runtime_get s l t :
  NoDup l →
  get_obj (foldl runtime_task s l) t
  = if decide (t ∈ l) then runtime_obj <$> get_obj s t else get_obj s t.
Proof.
  revert s. induction l as [|u l IH]; intros s Hnd; cbn [foldl].
  - by rewrite decide_False by apply not_elem_of_nil.
  - apply NoDup_cons in Hnd as [Hu Hnd]. rewrite IH by done.
    rewrite !get_obj_runtime_task.
    destruct (decide (t = u)) as [->|Hne].
    + rewrite decide_False by done. by rewrite decide_True by (by left).
    + destruct (decide (t ∈ l)) as [Hin|Hin].
      * by rewrite decide_True by (by right).
      * rewrite decide_False; [done|]. by intros [?|?]%elem_of_cons.
Qed.

(** X20: one call of [qtask_runtime_increase] returns and keeps both
    lists; it adds one, modulo the range of [size_t], to the [rtick]
    counter of every ready task of the active list, however long the list
    is, and changes nothing else: tasks that are not ready, suspended
    tasks, [run_task] and the callback log are as before. *)
Theorem X20_runtime_pass s act sus :
  Inv s act sus →
  ∃ s', qtask_runtime_increase s = Ok (tt, s') ∧ Inv s' act sus ∧
    (∀ t o, t ∈ act → get_obj s t = Some o → isready o ≠ 0 →
       get_obj s' t = Some (set_rtick ((rtick o + 1) mod 2 ^ SIZE_WIDTH) o)) ∧
    (∀ t o, t ∈ act → get_obj s t = Some o → isready o = 0 → get_obj s' t = Some o) ∧
    (∀ t, t ∉ act → get_obj s' t = get_obj s t) ∧
    sched s' = sched s ∧ calls s' = calls s.
Proof.
  intros HI. pose proof (Inv_NoDup_act _ _ _ HI) as Hnd.
  exists (foldl runtime_task s act). split_and!.
  - by eapply qtask_runtime_increase_ok.
  - eapply Inv_same_links; [|exact HI]. apply fold_runtime_same_links.
  - intros t o Ht Ho Hr. rewrite fold_runtime_get, decide_True by done.
    rewrite Ho. simpl. unfold runtime_obj. by rewrite (proj2 (Z.eqb_neq _ _) Hr).
  - intros t o Ht Ho Hr. rewrite fold_runtime_get, decide_True by done.
    rewrite Ho. simpl. unfold runtime_obj. by rewrite Hr.
  - intros t Ht. rewrite fold_runtime_get by done. by rewrite decide_False.
  - apply fold_runtime_frame.
  - apply fold_runtime_frame.
Qed.

Lemma run_op_runtime_ok s s' :
  qtask_runtime_increase s = Ok (tt, s') → run_op OpRuntime s = Ok (0, s').
Proof. intros H. cbn [run_op]. by mrun H. Qed.

Lemma runtime_passes act sus n : ∀ s,
  Inv s act sus →
  ∃ s', run_ops (replicate n OpRuntime) s = Ok (replicate n 0, s') ∧ Inv s' act sus ∧
    (∀ t, get_obj s' t
          = if decide (t ∈ act) then Nat.iter n runtime_obj <$> get_obj s t
            else get_obj s t).
Proof.
  induction n as [|n IH]; intros s HI.
  - exists s. split_and!; [done|done|]. intros t. case_decide; [|done].
    by destruct (get_obj s t).
  - pose proof (Inv_NoDup_act _ _ _ HI) as Hnd.
    pose proof (qtask_runtime_increase_ok _ _ _ HI) as R.
    set (s1 := foldl runtime_task s act) in R.
    assert (Inv s1 act sus) as HI1.
    { eapply Inv_same_links; [|exact HI]. apply fold_runtime_same_links. }
    destruct (IH s1 HI1) as (s' & R' & HI' & Hget).
    exists s'. split_and!; [|done|].
    + eapply run_ops_cons_ok; [by apply run_op_runtime_ok|done].
    + intros t. rewrite Hget. unfold s1. rewrite fold_runtime_get by done.
      case_decide; [|done]. destruct (get_obj s t) as [o|]; [|done]. simpl.
      f_equal. symmetry. exact (Nat.iter_succ_r n _ runtime_obj o).
Qed.

Lemma iter_runtime_ready n o :
  isready o ≠ 0 → 0 ≤ rtick o < 2 ^ SIZE_WIDTH →
  Nat.iter n runtime_obj o = set_rtick (size_wrap (rtick o + Z.of_nat n)) o.
Proof.
  intros Hr Hrt. induction n as [|n IH].
  - simpl. rewrite Z.add_0_r, size_wrap_small by done. by destruct o.
  - rewrite Nat.iter_succ, IH. unfold runtime_obj. simpl.
    rewrite (proj2 (Z.eqb_neq _ _) Hr). unfold set_rtick, size_wrap. simpl.
    f_equal. rewrite Z.add_mod_idemp_l by done. f_equal. lia.
Qed.

Lemma iter_runtime_flags n o :
  isready (Nat.iter n runtime_obj o) = isready o ∧
  handle (Nat.iter n runtime_obj o) = handle o.
Proof.
  induction n as [|n [IH1 IH2]]; [done|]. rewrite Nat.iter_succ.
  set (x := Nat.iter n runtime_obj o) in *. unfold runtime_obj.
  destruct (isready x =? 0); simpl; split; congruence.
Qed.

(** X21: the run counters measure how long a ready task waited.  On
    well-formed lists, when the callbacks of the ready tasks of the
    active list are non-null and return without touching the store, and
    a ready task of the active list has [rtick = r], then after [n] calls
    of [qtask_runtime_increase] and one execute pass its [rtime] is
    [(r + n) mod 2^64], its [rtick] is back at 0 and its ready flag is
    clear, the other fields being as before. *)
Theorem X21_runtime_measures_wait cb s act sus t o n :
  Inv s act sus → t ∈ act → get_obj s t = Some o → isready o ≠ 0 →
  0 ≤ rtick o < 2 ^ SIZE_WIDTH →
  (∀ u ou, u ∈ act → get_obj s u = Some ou → isready ou ≠ 0 → handle ou ≠ 0) →
  (∀ u ou, u ∈ act → get_obj s u = Some ou → isready ou ≠ 0 → inert cb (handle ou)) →
  ∃ s1 s2,
    run_ops (replicate n OpRuntime) s = Ok (replicate n 0, s1) ∧
    qtask_exec_with cb s1 = Ok (tt, s2) ∧
    get_obj s2 t
    = Some (set_rtick 0 (set_isready 0
              (set_rtime ((rtick o + Z.of_nat n) mod 2 ^ SIZE_WIDTH) o))).
Proof.
  intros HI Ht Ho Hr Hrt Hh Hi. pose proof (Inv_NoDup_act _ _ _ HI) as Hnd.
  destruct (runtime_passes act sus n s HI) as (s1 & R1 & HI1 & Hget).
  exists s1, (foldl exec_task s1 act). split_and!; [done| |].
  - apply (qtask_exec_with_ok cb s1 act sus HI1).
    + intros u ou Hu. rewrite Hget, decide_True by done.
      destruct (get_obj s u) as [o0|] eqn:Ho0; [|done]. simpl. intros [= <-].
      destruct (iter_runtime_flags n o0) as [-> ->]. exact (Hh u o0 Hu Ho0).
    + intros u ou Hu. rewrite Hget, decide_True by done.
      destruct (get_obj s u) as [o0|] eqn:Ho0; [|done]. simpl. intros [= <-].
      destruct (iter_runtime_flags n o0) as [-> ->]. exact (Hi u o0 Hu Ho0).
  - rewrite fold_exec_get, decide_True by done. rewrite Hget, decide_True by done.
    rewrite Ho. simpl. rewrite iter_runtime_ready by done. unfold exec_obj. simpl.
    rewrite (proj2 (Z.eqb_neq _ _) Hr). by destruct o.
Qed.

(** ** What the driving calls never touch *)

(** X22: [qtask_tick_increase], [qtask_runtime_increase], [qtask_sleep]
    and [qtask_tick_set], on any store on which they return, change no
    list pointer and no task id: every node has the links it had, and
    well-formed lists stay the same lists.  The same holds of the code of
    [qtask_exec] itself: a pass whose callbacks return without touching
    the store changes no list pointer and no id. *)
Theorem X22_drive_keeps_links_and_ids :
  (∀ o s r s', drive_op o → o ≠ OpExec → run_op o s = Ok (r, s') →
     (∀ p, get_node s' p = get_node s p) ∧ (∀ u, id_of s' u = id_of s u) ∧
     (∀ act sus, Inv s act sus → Inv s' act sus)) ∧
  (∀ cb s s', (∀ h, inert cb h) → qtask_exec_with cb s = Ok (tt, s') →
     (∀ p, get_node s' p = get_node s p) ∧ (∀ u, id_of s' u = id_of s u) ∧
     (∀ act sus, Inv s act sus → Inv s' act sus)).
Proof.
  assert (∀ s s', keeps_shape s s' →
            (∀ p, get_node s' p = get_node s p) ∧ (∀ u, id_of s' u = id_of s u) ∧
            (∀ act sus, Inv s act sus → Inv s' act sus)) as Hshape.
  { intros s s' [SL Hid]. split_and!; [exact SL|exact Hid|].
    intros act sus HI. by eapply Inv_same_links. }
  split.
  - intros o s r s' Hd _ Hrun. apply Hshape.
    exact (preserves_shape_drive s o Hd s r s' (keeps_shape_refl s) Hrun).
  - intros cb s s' Hi Hrun. apply Hshape.
    rewrite qtask_exec_with_all_inert in Hrun by done.
    apply (preserves_shape_drive s OpExec I s 0 s' (keeps_shape_refl s)).
    cbn [run_op]. by mrun Hrun.
Qed.

Create HintDb quiet.

Section CallLog.
Variable l : list Z.

Local Abbreviation quiet := (λ s : mem, calls s = l).

Lemma quiet_store_task t f : preserves quiet (store_task t f).
Proof. by intros s a s' Hs (o & Ho & ->)%store_task_inv. Qed.

Lemma quiet_upd_node p f : preserves quiet (lift_upd (λ s, upd_node s p f)).
Proof.
  intros s a s' Hs. unfold lift_upd.
  destruct (upd_node s p f) as [s1|] eqn:E; [|done]. intros [= <-].
  apply upd_node_same_payload in E as (_ & _ & Hc & _). congruence.
Qed.

Lemma quiet_store_next p v : preserves quiet (store_next p v).
Proof. apply quiet_upd_node. Qed.
Lemma quiet_store_prev p v : preserves quiet (store_prev p v).
Proof. apply quiet_upd_node. Qed.
Lemma quiet_load_next p : preserves quiet (load_next p).
Proof. apply preserves_lift_get. Qed.
Lemma quiet_load_prev p : preserves quiet (load_prev p).
Proof. apply preserves_lift_get. Qed.
Lemma quiet_load_field {A} t (f : QTaskObj → A) : preserves quiet (load_field t f).
Proof. intros s a s' Hs (o & _ & _ & ->)%load_field_inv. done. Qed.
Lemma quiet_walk_fuel : preserves quiet walk_fuel.
Proof. intros s a s' Hs H. unfold walk_fuel in H. by simplify_eq. Qed.
Lemma quiet_load_run_task : preserves quiet load_run_task.
Proof. intros s a s' Hs H. unfold load_run_task in H. by simplify_eq. Qed.
Lemma quiet_store_run_task t : preserves quiet (store_run_task t).
Proof. intros s a s' Hs H. unfold store_run_task in H. by simplify_eq. Qed.
Lemma quiet_QTASK_ENTRY p : preserves quiet (QTASK_ENTRY p).
Proof. destruct p; simpl; auto using preserves_fault, preserves_ret. Qed.
Lemma quiet_load_next_or_null p : preserves quiet (load_next_or_null p).
Proof.
  unfold load_next_or_null. case_decide; auto using preserves_ret, quiet_load_next.
Qed.

#[local] Hint Resolve preserves_ret preserves_fault preserves_out_of_fuel
  quiet_store_task quiet_store_next quiet_store_prev quiet_load_next quiet_load_prev
  quiet_load_field quiet_walk_fuel quiet_load_run_task quiet_store_run_task
  quiet_QTASK_ENTRY quiet_load_next_or_null : quiet.

Ltac quiet :=
  repeat first
    [ solve [auto with quiet]
    | apply preserves_bind; [|intros ?]
    | match goal with
      | |- preserves _ (if ?b then _ else _) => destruct b
      end ].

Lemma quiet_list_insert h n : preserves quiet (_list_insert h n).
Proof. unfold _list_insert. quiet. Qed.
Lemma quiet_list_remove n : preserves quiet (_list_remove n).
Proof. unfold _list_remove. quiet. Qed.
Lemma quiet_reset_and_remove t : preserves quiet (reset_and_remove t).
Proof. unfold reset_and_remove. quiet; apply quiet_list_remove. Qed.
Lemma quiet_isexist_loop fuel h task node :
  preserves quiet (isexist_loop fuel h task node).
Proof. revert node. induction fuel as [|fuel IH]; intros node; simpl; quiet. Qed.
Lemma quiet_isexist_in h task : preserves quiet (isexist_in h task).
Proof. unfold isexist_in. quiet; apply quiet_isexist_loop. Qed.
Lemma quiet_qtask_isexist task : preserves quiet (_qtask_isexist task).
Proof. apply quiet_isexist_in. Qed.
Lemma quiet_qdtask_isexsit task : preserves quiet (_qdtask_isexsit task).
Proof. apply quiet_isexist_in. Qed.

#[local] Hint Resolve quiet_list_insert quiet_list_remove quiet_reset_and_remove
  quiet_isexist_in quiet_isexist_loop quiet_qtask_isexist quiet_qdtask_isexsit : quiet.

Lemma quiet_qtask_add t nm h tick : preserves quiet (qtask_add t nm h tick).
Proof. unfold qtask_add. quiet. Qed.
Lemma quiet_qtask_del t : preserves quiet (qtask_del t).
Proof. unfold qtask_del. quiet. Qed.
Lemma quiet_safe_start h : preserves quiet (safe_start h).
Proof. unfold safe_start. quiet. Qed.
Lemma quiet_safe_advance p : preserves quiet (safe_advance p).
Proof. unfold safe_advance. quiet. Qed.

#[local] Hint Resolve quiet_safe_start quiet_safe_advance : quiet.

Lemma quiet_qtask_suspend_loop fuel tid node safe :
  preserves quiet (qtask_suspend_loop fuel tid node safe).
Proof.
  revert node safe. induction fuel as [|fuel IH]; intros node safe; simpl; quiet.
Qed.
Lemma quiet_qtask_suspend nm : preserves quiet (qtask_suspend nm).
Proof. unfold qtask_suspend. quiet; apply quiet_qtask_suspend_loop. Qed.
Lemma quiet_qtask_resume_loop fuel tid node safe :
  preserves quiet (qtask_resume_loop fuel tid node safe).
Proof.
  revert node safe. induction fuel as [|fuel IH]; intros node safe; simpl; quiet.
Qed.
Lemma quiet_qtask_resume nm : preserves quiet (qtask_resume nm).
Proof. unfold qtask_resume. quiet; apply quiet_qtask_resume_loop. Qed.
Lemma quiet_tick_body t : preserves quiet (tick_body t).
Proof. unfold tick_body. quiet. Qed.
Lemma quiet_runtime_body t : preserves quiet (runtime_body t).
Proof. unfold runtime_body. quiet. Qed.

#[local] Hint Resolve quiet_tick_body quiet_runtime_body : quiet.

Lemma quiet_qtask_tick_increase_loop fuel count node safe :
  preserves quiet (qtask_tick_increase_loop fuel count node safe).
Proof.
  revert count node safe.
  induction fuel as [|fuel IH]; intros count node safe;
    cbn [qtask_tick_increase_loop]; quiet.
Qed.
Lemma quiet_qtask_tick_increase : preserves quiet qtask_tick_increase.
Proof. unfold qtask_tick_increase. quiet; apply quiet_qtask_tick_increase_loop. Qed.
Lemma quiet_qtask_runtime_increase_loop fuel node :
  preserves quiet (qtask_runtime_increase_loop fuel node).
Proof.
  revert node. induction fuel as [|fuel IH]; intros node;
    cbn [qtask_runtime_increase_loop]; quiet.
Qed.
Lemma quiet_qtask_runtime_increase : preserves quiet qtask_runtime_increase.
Proof.
  unfold qtask_runtime_increase. quiet; apply quiet_qtask_runtime_increase_loop.
Qed.
Lemma quiet_qtask_sleep tick : preserves quiet (qtask_sleep tick).
Proof. unfold qtask_sleep. quiet. Qed.
Lemma quiet_qtask_tick_set t tick : preserves quiet (qtask_tick_set t tick).
Proof. unfold qtask_tick_set. quiet. Qed.

Lemma quiet_run_op o : o ≠ OpExec → preserves quiet (run_op o).
Proof.
  intros Hne. destruct o; cbn [run_op]; try done.
  - apply quiet_qtask_add.
  - apply quiet_qtask_del.
  - apply quiet_qtask_suspend.
  - apply quiet_qtask_resume.
  - apply preserves_bind; [apply quiet_qtask_tick_increase|auto with quiet].
  - apply preserves_bind; [apply quiet_qtask_runtime_increase|auto with quiet].
  - apply preserves_bind; [apply quiet_qtask_sleep|auto with quiet].
  - apply preserves_bind; [apply quiet_qtask_tick_set|auto with quiet].
Qed.
End CallLog.

(** X23: no function other than [qtask_exec] invokes a task callback: on
    any store, a call of add, del, suspend, resume, tick, runtime
    accounting, sleep or set-period that returns leaves the log of
    invoked callbacks as it was. *)
Theorem X23_only_exec_invokes_callbacks o s r s' :
  o ≠ OpExec → run_op o s = Ok (r, s') → calls s' = calls s.
Proof.
  intros Hne Hrun. by apply (quiet_run_op (calls s) o Hne s r s').
Qed.

(** ** Changing the period of a running countdown *)

(** X24: [qtask_tick_set] does not restart the countdown in progress: a
    task among the first 1001 active entries whose countdown is [m > 0]
    still becomes ready after exactly [m] ticks, and it is then that the
    countdown is loaded with the new period. *)
Theorem X24_tick_set_applies_at_reload s act sus i t o p :
  Inv s act sus → act !! i = Some t → (i ≤ 1000)%nat →
  get_obj s t = Some o → 0 < timer o < 2 ^ SIZE_WIDTH →
  ∃ s1 s2,
    qtask_tick_set t p s = Ok (tt, s1) ∧
    run_ops (replicate (Z.to_nat (timer o)) OpTick) s1
    = Ok (replicate (Z.to_nat (timer o)) 0, s2) ∧
    Inv s2 act sus ∧
    get_obj s2 t = Some (set_timer p (set_isready 1 (set_period p o))).
Proof.
  intros HI Hi Hle Ho Hr. pose proof (get_obj_nonnull _ _ _ Ho) as Ht0.
  set (s1 := put_obj s t (set_period p o)).
  assert (Inv s1 act sus) as HI1.
  { eapply Inv_same_links; [|exact HI]. by eapply put_obj_same_links. }
  assert (get_obj s1 t = Some (set_period p o)) as Ho1 by (by apply get_obj_put_obj_eq).
  destruct (countdown_ticks (Z.to_nat (timer o)) s1 act sus i t _ HI1 Hi Hle Ho1)
    as (s2 & R2 & HI2 & Ho2); [simpl; lia|simpl; lia|].
  exists s1, s2. split_and!; try done.
  - by apply qtask_tick_set_spec.
  - rewrite Ho2. simpl. by rewrite decide_True by lia.
Qed.

(** ** The ready flag is a latch *)

Lemma tick_obj_keeps_ready o : isready o ≠ 0 → isready (tick_obj o) ≠ 0.
Proof.
  intros H. unfold tick_obj. destruct (0 <? timer o); [|done].
  by destruct (_ <=? 0).
Qed.

(** X25: ticks never clear a ready flag: a task that is ready stays ready
    through any number of calls of [qtask_tick_increase], until
    [qtask_exec] runs it; further expiries before that are not counted. *)
Theorem X25_ready_flag_survives_ticks s act sus t o n :
  Inv s act sus → get_obj s t = Some o → isready o ≠ 0 →
  ∃ s' o', run_ops (replicate n OpTick) s = Ok (replicate n 0, s') ∧
           Inv s' act sus ∧ get_obj s' t = Some o' ∧ isready o' ≠ 0 ∧
           calls s' = calls s.
Proof.
  revert s o. induction n as [|n IH]; intros s o HI Ho Hr.
  - by exists s, o.
  - pose proof (qtask_tick_increase_ok _ _ _ HI) as R.
    set (s1 := foldl tick_task s (take 1001%nat act)) in R.
    assert (Inv s1 act sus) as HI1.
    { eapply Inv_same_links; [|exact HI]. apply fold_tick_same_links. }
    assert (∃ o1, get_obj s1 t = Some o1 ∧ isready o1 ≠ 0) as (o1 & Ho1 & Hr1).
    { unfold s1. rewrite fold_tick_get.
      - case_decide; [|by exists o]. rewrite Ho. simpl. exists (tick_obj o).
        split; [done|]. by apply tick_obj_keeps_ready.
      - eapply sublist_NoDup; [by eapply Inv_NoDup_act|apply sublist_take]. }
    destruct (IH s1 o1 HI1 Ho1 Hr1) as (s' & o' & R' & HI' & Ho' & Hr' & Hc').
    exists s', o'. split_and!; try done.
    + eapply run_ops_cons_ok; [by apply run_op_tick_ok|done].
    + rewrite Hc'. apply fold_tick_calls.
Qed.

(** ** Suspend and resume: the paths that move a task *)

(** X26: [qtask_suspend] acts on the first task of the active list, head
    first, whose id is the id of the name: when no suspended task carries
    that id the call returns 0, that task becomes the head of the
    suspended list with its ready flag cleared and its countdown reloaded
    from the period, the other active tasks, tasks behind it with the
    same id included, keep their places, and nothing else changes. *)
Theorem X26_suspend_first_match s la t lb sus nm o :
  Inv s (la ++ t :: lb) sus → get_obj s t = Some o → id o = _id_calc nm →
  has_id s (_id_calc nm) la = false → has_id s (_id_calc nm) sus = false →
  ∃ s' o', qtask_suspend nm s = Ok (0, s') ∧ Inv s' (la ++ lb) (t :: sus) ∧
    get_obj s' t = Some o' ∧
    strip o' = strip (set_timer (period o) (set_isready 0 o)) ∧
    (∀ u, u ≠ t → payload s' u = payload s u) ∧
    run_task (sched s') = run_task (sched s) ∧ calls s' = calls s.
Proof.
  intros HI Ho Hio Hla Hsus.
  destruct (qtask_suspend_found s la t lb sus nm o) as (s' & R & HI' & PU); try done.
  destruct (payload_upd_elim _ _ _ _ PU) as (o' & ? & ? & ? & ? & ?).
  exists s', o'. by split_and!.
Qed.

(** X27: [qtask_resume] acts on the first task of the suspended list
    whose id is the id of the name: when no active task carries that id
    the call returns 0, that task becomes the head of the active list
    with its ready flag clear and its countdown reloaded from the period,
    the other suspended tasks keep their places, and nothing else
    changes. *)
Theorem X27_resume_first_match s act la t lb nm o :
  Inv s act (la ++ t :: lb) → get_obj s t = Some o → id o = _id_calc nm →
  has_id s (_id_calc nm) la = false → has_id s (_id_calc nm) act = false →
  ∃ s' o', qtask_resume nm s = Ok (0, s') ∧ Inv s' (t :: act) (la ++ lb) ∧
    get_obj s' t = Some o' ∧
    strip o' = strip (set_timer (period o) (set_isready 0 o)) ∧
    (∀ u, u ≠ t → payload s' u = payload s u) ∧
    run_task (sched s') = run_task (sched s) ∧ calls s' = calls s.
Proof.
  intros HI Ho Hio Hla Hact.
  destruct (qtask_resume_found s act la t lb nm o) as (s' & R & HI' & PU); try done.
  destruct (payload_upd_elim _ _ _ _ PU) as (o' & ? & ? & ? & ? & ?).
  exists s', o'. by split_and!.
Qed.

(** ** A null callback *)

Lemma qtask_exec_loop_prefix la : ∀ s p rest fuel safe,
  chain s p (la ++ rest) TaskListHead → NoDup (la ++ rest) →
  nxt s (first_of (la ++ rest) TaskListHead) = Some safe →
  (∀ u o, u ∈ la → get_obj s u = Some o → isready o ≠ 0 → handle o ≠ 0) →
  (length la ≤ fuel)%nat →
  ∃ safe', nxt (foldl exec_task s la) (first_of rest TaskListHead) = Some safe' ∧
    qtask_exec_loop fuel (first_of (la ++ rest) TaskListHead) safe s
    = qtask_exec_loop (fuel - length la) (first_of rest TaskListHead) safe'
        (foldl exec_task s la).
Proof.
  induction la as [|u la IH]; intros s p rest fuel safe Hc Hnd Hs Hh Hf.
  - exists safe. split; [done|]. simpl. by rewrite Nat.sub_0_r.
  - destruct fuel as [|fuel]; [simpl in Hf; lia|].
    cbn [app] in Hc, Hnd, Hs. cbn [app qtask_exec_loop first_of] in *.
    rewrite safe_continue_task by apply head_task.
    pose proof Hc as (H1 & H2 & H3).
    apply NoDup_cons in Hnd as [Hu Hnd].
    destruct (chain_first _ _ _ _ H3) as [F1 _].
    assert (safe = first_of (la ++ rest) TaskListHead) as -> by congruence.
    unfold QTASK_ENTRY. rewrite (bind_ok _ _ _ u s) by done.
    destruct (chain_alloc s p (u :: la ++ rest) TaskListHead u) as [ou Hou];
      [done|by left|].
    mrun (exec_body_ok s u ou Hou (Hh u ou ltac:(by left) Hou)).
    pose proof (exec_task_same_links s u) as SL.
    assert (chain (exec_task s u) (TaskNode u) (la ++ rest) TaskListHead) as H3'
      by (by eapply chain_same_links).
    destruct (first_of_nxt_is_Some _ _ _ _ head_task H3') as [safe2 Hs2].
    mrun (safe_advance_ok _ _ _ (first_of_not_null (la ++ rest) _ head_task) Hs2).
    cbn [fst snd foldl length Nat.sub].
    eapply (IH _ (TaskNode u)); try done.
    + intros v o Hv. rewrite get_obj_exec_task.
      rewrite decide_False by (intros ->; apply Hu; set_solver). apply Hh. by right.
    + simpl in Hf. lia.
Qed.

(** X28: [qtask_add] stores the callback without looking at it, and
    [qtask_exec] calls it without a check: an execute pass that reaches a
    ready task whose callback is null calls through the null pointer. *)
Theorem X28_exec_null_callback_faults s la t lb sus o :
  Inv s (la ++ t :: lb) sus →
  (∀ u ou, u ∈ la → get_obj s u = Some ou → isready ou ≠ 0 → handle ou ≠ 0) →
  get_obj s t = Some o → isready o ≠ 0 → handle o = 0 →
  qtask_exec s = Fault.
Proof.
  intros (Ha & Hs & Hnd) Hh Ho Hr Hnull.
  assert (NoDup (la ++ t :: lb)) as Hnda by (apply NoDup_app in Hnd; tauto).
  unfold qtask_exec, walk_fuel.
  rewrite (bind_ok _ _ _ (S (size (objs s))) s) by done.
  destruct (safe_start_ok s _ _ head_task Ha) as (safe & Hsafe & R). mrun R.
  cbn [fst snd].
  pose proof (dlist_fuel _ _ _ Ha Hnda) as Hf. rewrite length_app in Hf. simpl in Hf.
  destruct (qtask_exec_loop_prefix la s TaskListHead (t :: lb) (S (size (objs s))) safe)
    as (safe' & _ & ->); try done; [lia|].
  destruct (S (size (objs s)) - length la)%nat as [|f] eqn:E; [lia|].
  cbn [qtask_exec_loop first_of]. rewrite safe_continue_task by apply head_task.
  unfold QTASK_ENTRY. rewrite (bind_ok _ _ _ t (foldl exec_task s la)) by done.
  apply bind_fault.
  assert (get_obj (foldl exec_task s la) t = Some o) as Ho'.
  { rewrite fold_exec_get.
    - rewrite decide_False; [done|]. by apply NoDup_split_notin in Hnda as [? _].
    - by apply NoDup_app in Hnda as (? & _). }
  unfold exec_body. mrun (load_field_ok _ t isready o Ho').
  rewrite (proj2 (Z.eqb_neq _ _) Hr).
  mrun (load_field_ok _ t handle o Ho'). rewrite Hnull.
  by apply bind_fault.
Qed.

(** ** The further properties on concrete runs *)

Ltac in_eval := apply (bool_decide_unpack _); by_eval.
Ltac obj_eval := unfold the_obj; by_eval.

Lemma trio_Inv : Inv trio [3; 2; 1] [].
Proof. inv_eval. Qed.

(** X2 on the three registered tasks: the checks on task 1 (["led"]). *)
Lemma X2_witness :
  Inv trio [3; 2; 1] [] ∧ get_obj trio 1 = Some (the_obj trio 1) ∧
  ∃ ra rs,
    _qtask_isexist 1 trio = Ok (ra, trio) ∧ _qdtask_isexsit 1 trio = Ok (rs, trio) ∧
    ((ra = 1 ∧ ∃ u, u ∈ [3; 2; 1] ∧ id_of trio u = Some (id (the_obj trio 1))) ∨
     (ra = 0 ∧ ∀ u, u ∈ [3; 2; 1] → id_of trio u ≠ Some (id (the_obj trio 1)))) ∧
    ((rs = 1 ∧ ∃ u, u ∈ [] ∧ id_of trio u = Some (id (the_obj trio 1))) ∨
     (rs = 0 ∧ ∀ u, u ∈ [] → id_of trio u ≠ Some (id (the_obj trio 1)))).
Proof.
  assert (get_obj trio 1 = Some (the_obj trio 1)) as Ho by obj_eval.
  split_and!; [exact trio_Inv|exact Ho|].
  exact (X2_existence_check_by_id trio [3; 2; 1] [] 1 (the_obj trio 1) trio_Inv Ho).
Defined.

(** X3 on the three registered tasks: ["key"] is found at task 2, an
    unregistered name is not found. *)
Lemma X3_witness :
  Inv trio [3; 2; 1] [] ∧
  qtask_obj (Some "key") trio = Ok (2, trio) ∧
  qtask_obj (Some "pwm") trio = Ok (0, trio).
Proof.
  split_and!; [exact trio_Inv| |].
  - refine (proj1 (proj2 (X3_lookup_first_active trio [3; 2; 1] [] (Some "key") trio_Inv)
                     [3] 2 [1] eq_refl _ _)); by_eval.
  - refine (proj1 (X3_lookup_first_active trio [3; 2; 1] [] (Some "pwm") trio_Inv) _).
    by_eval.
Defined.

(** X4 on a fresh scheduler with one task object. *)
Lemma X4_witness :
  Inv (boot [1]) [] [] ∧ get_obj (boot [1]) 1 = Some zero_obj ∧
  ∃ s1 s2,
    qtask_add 1 (Some "led") 7 3 (boot [1]) = Ok (0, s1) ∧
    qtask_obj (Some "led") s1 = Ok (1, s1) ∧
    qtask_suspend (Some "led") s1 = Ok (0, s2) ∧
    qtask_obj (Some "led") s2 = Ok (0, s2).
Proof.
  assert (Inv (boot [1]) [] []) as HI by inv_eval.
  assert (get_obj (boot [1]) 1 = Some zero_obj) as Ho by by_eval.
  split_and!; [exact HI|exact Ho|].
  refine (X4_add_lookup_suspend (boot [1]) [] [] 1 zero_obj (Some "led") 7 3 HI Ho _ _).
  - apply not_elem_of_nil.
  - by_eval.
Defined.

(** X6 on the name ["le"]: appending ["d"] gives the id of ["led"]; and
    on the empty name: the single byte 233 is read as -23. *)
Lemma X6_witness :
  nul_free "le" = true ∧
  _id_calc (Some "led") = (33 * _id_calc (Some "le") + 100) mod 65536 ∧
  _id_calc (Some (String (Ascii.ascii_of_nat 233) EmptyString)) = 46478 ∧
  _id_calc (Some ("le" +:+ String Ascii.zero "d")) = _id_calc (Some "le").
Proof.
  assert (nul_free "le" = true) as Hn by reflexivity.
  split_and!; [exact Hn| | |].
  - refine (proj1 (X6_id_calc_recurrence "le" Hn) (Ascii.ascii_of_nat 100) _).
    by vm_compute.
  - refine (proj1 (proj2 (X6_id_calc_recurrence "" eq_refl)) (Ascii.ascii_of_nat 233) _).
    by vm_compute.
  - exact (proj2 (proj2 (X6_id_calc_recurrence "le" Hn)) "d").
Defined.

(** X7 on the state in which task 2 was unlinked from the active list and
    not linked into the suspended one: its node is linked to itself. *)
Lemma X7_witness :
  nxt collide_after (TaskNode 2) = Some (TaskNode 2) ∧
  prv collide_after (TaskNode 2) = Some (TaskNode 2) ∧
  _list_remove (TaskNode 2) collide_after = Ok (tt, collide_after).
Proof.
  assert (nxt collide_after (TaskNode 2) = Some (TaskNode 2)) as Hn by by_eval.
  assert (prv collide_after (TaskNode 2) = Some (TaskNode 2)) as Hp by by_eval.
  split_and!; [exact Hn|exact Hp|].
  exact (X7_list_remove_detached collide_after (TaskNode 2) Hn Hp).
Defined.

(** X8 on the three registered tasks and the unlinked task object 4. *)
Lemma X8_witness :
  nxt trio TaskListHead = Some (TaskNode 3) ∧
  prv trio (TaskNode 3) = Some TaskListHead ∧
  ∃ s1 s2,
    _list_insert TaskListHead (TaskNode 4) trio = Ok (tt, s1) ∧
    nxt s1 TaskListHead = Some (TaskNode 4) ∧ nxt s1 (TaskNode 4) = Some (TaskNode 3) ∧
    prv s1 (TaskNode 4) = Some TaskListHead ∧ prv s1 (TaskNode 3) = Some (TaskNode 4) ∧
    _list_remove (TaskNode 4) s1 = Ok (tt, s2) ∧
    (∀ q, q ≠ TaskNode 4 → get_node s2 q = get_node trio q) ∧
    get_node s2 (TaskNode 4) = Some (mkQTaskList (TaskNode 4) (TaskNode 4)) ∧
    same_payload trio s2.
Proof.
  assert (nxt trio TaskListHead = Some (TaskNode 3)) as Hn by by_eval.
  assert (prv trio (TaskNode 3) = Some TaskListHead) as Hp by by_eval.
  split_and!; [exact Hn|exact Hp|].
  refine (X8_insert_then_remove trio TaskListHead (TaskNode 4) (TaskNode 3) Hn Hp _ _ _).
  - discriminate.
  - discriminate.
  - exists zero_node. by_eval.
Defined.

(** X9 on the three registered tasks: deleting task 2. *)
Lemma X9_witness :
  Inv trio ([3] ++ 2 :: [1]) [] ∧ get_obj trio 2 = Some (the_obj trio 2) ∧
  ∃ s' o', qtask_del 2 trio = Ok (0, s') ∧ Inv s' ([3] ++ [1]) [2] ∧
    get_obj s' 2 = Some o' ∧
    strip o' = strip (set_timer (period (the_obj trio 2)) (set_isready 0 (the_obj trio 2))) ∧
    (∀ u, u ≠ 2 → payload s' u = payload trio u) ∧
    run_task (sched s') = run_task (sched trio) ∧ calls s' = calls trio.
Proof.
  assert (get_obj trio 2 = Some (the_obj trio 2)) as Ho by obj_eval.
  split_and!; [exact trio_Inv|exact Ho|].
  refine (X9_del_active_task trio [3] 2 [1] [] (the_obj trio 2) trio_Inv Ho _).
  by_eval.
Defined.

(** X10 on the suspended ["led"] task. *)
Lemma X10_witness :
  Inv led_suspended [] [1] ∧
  get_obj led_suspended 1 = Some (led_obj SuspendListHead 0 3) ∧
  qtask_del 1 led_suspended = Ok (-1, led_suspended).
Proof.
  assert (Inv led_suspended [] [1]) as HI by inv_eval.
  assert (get_obj led_suspended 1 = Some (led_obj SuspendListHead 0 3)) as Ho by by_eval.
  split_and!; [exact HI|exact Ho|].
  refine (X10_del_suspended_task led_suspended [] [1] 1 _ HI _ Ho _).
  - apply list_elem_of_singleton. reflexivity.
  - by_eval.
Defined.

(** X11 on the suspended ["led"] task, added again with period 4. *)
Lemma X11_witness :
  Inv led_suspended [] ([] ++ 1 :: []) ∧
  get_obj led_suspended 1 = Some (led_obj SuspendListHead 0 3) ∧
  ∃ s' o', qtask_add 1 (Some "led") 9 4 led_suspended = Ok (0, s') ∧
    Inv s' [1] ([] ++ []) ∧ get_obj s' 1 = Some o' ∧
    strip o' = strip (mkQTaskObj (Some "led") (_id_calc (Some "led")) 0 9 4 4 0 0
                        (task_node (led_obj SuspendListHead 0 3))) ∧
    (∀ u, u ≠ 1 → payload s' u = payload led_suspended u) ∧
    run_task (sched s') = run_task (sched led_suspended) ∧
    calls s' = calls led_suspended.
Proof.
  assert (Inv led_suspended [] [1]) as HI by inv_eval.
  assert (get_obj led_suspended 1 = Some (led_obj SuspendListHead 0 3)) as Ho by by_eval.
  split_and!; [exact HI|exact Ho|].
  refine (X11_add_suspended_task led_suspended [] [] 1 [] _ (Some "led") 9 4 HI Ho _).
  by_eval.
Defined.

(** X12 on the state with task 1 suspended under ["afhl"] and the
    zero-initialised task object 2, added under the same name. *)
Lemma X12_witness :
  Inv zero_id_state [] [1] ∧ get_obj zero_id_state 2 = Some zero_obj ∧
  qtask_add 2 (Some "afhl") 7 3 zero_id_state = Fault.
Proof.
  assert (Inv zero_id_state [] [1]) as HI by inv_eval.
  assert (get_obj zero_id_state 2 = Some zero_obj) as Ho by by_eval.
  split_and!; [exact HI|exact Ho|].
  refine (X12_add_unlinked_colliding_faults zero_id_state [] [1] 2 zero_obj
            (Some "afhl") 7 3 HI Ho _ _).
  - reflexivity.
  - by_eval.
Defined.

(** X13 on the three registered tasks: ["key"], the middle entry, comes
    back at the head. *)
Lemma X13_witness :
  Inv trio ([3] ++ 2 :: [1]) [] ∧ get_obj trio 2 = Some (the_obj trio 2) ∧
  ∃ s1 s2 o2,
    qtask_suspend (Some "key") trio = Ok (0, s1) ∧ Inv s1 ([3] ++ [1]) [2] ∧
    qtask_resume (Some "key") s1 = Ok (0, s2) ∧ Inv s2 (2 :: [3] ++ [1]) [] ∧
    get_obj s2 2 = Some o2 ∧
    strip o2 = strip (set_timer (period (the_obj trio 2)) (set_isready 0 (the_obj trio 2))) ∧
    (∀ u, u ≠ 2 → payload s2 u = payload trio u).
Proof.
  assert (get_obj trio 2 = Some (the_obj trio 2)) as Ho by obj_eval.
  split_and!; [exact trio_Inv|exact Ho|].
  refine (X13_suspend_resume_moves_to_head trio [3] 2 [1] [] (Some "key") (the_obj trio 2)
            trio_Inv Ho _ _); by_eval.
Defined.

(** X14 on the three registered tasks: a fourth, ["pwm"], goes to the head. *)
Lemma X14_witness :
  Inv trio [3; 2; 1] [] ∧ get_obj trio 4 = Some zero_obj ∧
  ∃ s' o', qtask_add 4 (Some "pwm") 10 5 trio = Ok (0, s') ∧ Inv s' [4; 3; 2; 1] [] ∧
    get_obj s' 4 = Some o' ∧
    strip o' = strip (mkQTaskObj (Some "pwm") (_id_calc (Some "pwm")) 0 10 5 5 0 0
                        (task_node zero_obj)) ∧
    (∀ u, u ≠ 4 → payload s' u = payload trio u) ∧
    run_task (sched s') = run_task (sched trio) ∧ calls s' = calls trio.
Proof.
  assert (get_obj trio 4 = Some zero_obj) as Ho by by_eval.
  split_and!; [exact trio_Inv|exact Ho|].
  refine (X14_add_new_task_at_head trio [3; 2; 1] [] 4 zero_obj (Some "pwm") 10 5
            trio_Inv Ho _ _).
  - in_eval.
  - by_eval.
Defined.

(** X15 on the three registered tasks: ["key"], with countdown 2, is
    ready after two ticks. *)
Lemma X15_witness :
  Inv trio [3; 2; 1] [] ∧ get_obj trio 2 = Some (the_obj trio 2) ∧
  timer (the_obj trio 2) = 2 ∧
  ∃ s', run_ops (replicate 2 OpTick) trio = Ok (replicate 2 0, s') ∧
        Inv s' [3; 2; 1] [] ∧
        get_obj s' 2
        = Some (set_timer (period (the_obj trio 2)) (set_isready 1 (the_obj trio 2))).
Proof.
  assert (get_obj trio 2 = Some (the_obj trio 2)) as Ho by obj_eval.
  assert (timer (the_obj trio 2) = 2) as Ht by obj_eval.
  split_and!; [exact trio_Inv|exact Ho|exact Ht|].
  destruct (X15_countdown_over_ticks trio [3; 2; 1] [] 1%nat 2 (the_obj trio 2) 2%nat
              trio_Inv eq_refl) as (s' & R & HI' & _ & Hfire).
  - lia.
  - exact Ho.
  - rewrite Ht. unfold SIZE_WIDTH. lia.
  - rewrite Ht. lia.
  - exists s'. split_and!; [exact R|exact HI'|]. apply Hfire. rewrite Ht. reflexivity.
Defined.

(** X16 on a task registered with a tick count of 0: five ticks later
    it is as it was. *)
Lemma X16_witness :
  Inv idle_led [1] [] ∧ get_obj idle_led 1 = Some (the_obj idle_led 1) ∧
  timer (the_obj idle_led 1) = 0 ∧ isready (the_obj idle_led 1) = 0 ∧
  ∃ s', run_ops (replicate 5 OpTick) idle_led = Ok (replicate 5 0, s') ∧
        Inv s' [1] [] ∧ get_obj s' 1 = Some (the_obj idle_led 1).
Proof.
  assert (Inv idle_led [1] []) as HI by inv_eval.
  assert (get_obj idle_led 1 = Some (the_obj idle_led 1)) as Ho by obj_eval.
  assert (timer (the_obj idle_led 1) = 0) as Ht by obj_eval.
  split_and!; [exact HI|exact Ho|exact Ht|obj_eval|].
  exact (X16_zero_countdown_never_fires idle_led [1] [] 1 (the_obj idle_led 1) 5 HI Ho Ht).
Defined.

(** X18 on zero-initialised storage with one task object. *)
Lemma X18_witness :
  qtask_tick_increase (zero_mem [1]) = Ok (tt, zero_mem [1]) ∧
  qtask_exec (zero_mem [1]) = Ok (tt, zero_mem [1]) ∧
  (∀ nm, qtask_suspend nm (zero_mem [1]) = Ok (-1, zero_mem [1]) ∧
         qtask_resume nm (zero_mem [1]) = Ok (-1, zero_mem [1]) ∧
         qtask_obj nm (zero_mem [1]) = Fault) ∧
  qtask_runtime_increase (zero_mem [1]) = Fault ∧
  (∀ t, qtask_del t (zero_mem [1]) = Fault) ∧
  (∀ t nm h tick, qtask_add t nm h tick (zero_mem [1]) = Fault).
Proof.
  exact (X18_use_before_init (zero_mem [1]) eq_refl eq_refl).
Defined.

Lemma led_ready_handles :
  ∀ u o, u ∈ [1] → get_obj (led_after 3) u = Some o → isready o ≠ 0 → handle o ≠ 0.
Proof.
  assert (get_obj (led_after 3) 1 = Some (led_obj TaskListHead 1 3)) as Ho by by_eval.
  intros u o ->%list_elem_of_singleton Ho' _. rewrite Ho in Ho'.
  injection Ho' as <-. by vm_compute.
Defined.

(** X19 on the ["led"] task: before it is ready a pass does nothing,
    even with a callback that would register the task again; once it is
    ready, a pass runs it and a second pass is idle. *)
Lemma X19_witness :
  Inv (led_after 0) [1] [] ∧
  qtask_exec_with reregister_self (led_after 0) = Ok (tt, led_after 0) ∧
  Inv (led_after 3) [1] [] ∧
  ∃ s', qtask_exec_with no_callback_code (led_after 3) = Ok (tt, s') ∧
        (∀ u o, u ∈ [1] → get_obj s' u = Some o → isready o = 0) ∧
        qtask_exec_with no_callback_code s' = Ok (tt, s').
Proof.
  assert (Inv (led_after 0) [1] []) as HI0 by inv_eval.
  assert (get_obj (led_after 0) 1 = Some (led_obj TaskListHead 0 3)) as Ho0 by by_eval.
  assert (Inv (led_after 3) [1] []) as HI by inv_eval.
  split_and!; [exact HI0| |exact HI|].
  - refine (proj1 (X19_second_exec_pass_idle reregister_self (led_after 0) [1] [] HI0) _).
    intros u o ->%list_elem_of_singleton Ho'. rewrite Ho0 in Ho'.
    injection Ho' as <-. reflexivity.
  - refine (proj2 (X19_second_exec_pass_idle no_callback_code (led_after 3) [1] [] HI)
              led_ready_handles _).
    intros u o _ _ _. apply no_callback_code_inert.
Defined.

(** X20 on the ready ["led"] task: its [rtick] goes from 0 to 1. *)
Lemma X20_witness :
  Inv (led_after 3) [1] [] ∧
  get_obj (led_after 3) 1 = Some (led_obj TaskListHead 1 3) ∧
  ∃ s', qtask_runtime_increase (led_after 3) = Ok (tt, s') ∧
        get_obj s' 1 = Some (set_rtick 1 (led_obj TaskListHead 1 3)) ∧
        sched s' = sched (led_after 3) ∧ calls s' = calls (led_after 3).
Proof.
  assert (Inv (led_after 3) [1] []) as HI by inv_eval.
  assert (get_obj (led_after 3) 1 = Some (led_obj TaskListHead 1 3)) as Ho by by_eval.
  split_and!; [exact HI|exact Ho|].
  destruct (X20_runtime_pass (led_after 3) [1] [] HI) as (s' & R & _ & Hr & _ & _ & Hs & Hc).
  exists s'. split_and!; [exact R| |exact Hs|exact Hc].
  refine (Hr 1 (led_obj TaskListHead 1 3) _ Ho _).
  - apply list_elem_of_singleton. reflexivity.
  - by vm_compute.
Defined.

(** X21 on the ready ["led"] task: four accounting calls, then execute. *)
Lemma X21_witness :
  Inv (led_after 3) [1] [] ∧
  get_obj (led_after 3) 1 = Some (led_obj TaskListHead 1 3) ∧
  ∃ s1 s2,
    run_ops (replicate 4 OpRuntime) (led_after 3) = Ok (replicate 4 0, s1) ∧
    qtask_exec_with no_callback_code s1 = Ok (tt, s2) ∧
    get_obj s2 1
    = Some (set_rtick 0 (set_isready 0 (set_rtime 4 (led_obj TaskListHead 1 3)))).
Proof.
  assert (Inv (led_after 3) [1] []) as HI by inv_eval.
  assert (get_obj (led_after 3) 1 = Some (led_obj TaskListHead 1 3)) as Ho by by_eval.
  split_and!; [exact HI|exact Ho|].
  refine (X21_runtime_measures_wait no_callback_code (led_after 3) [1] [] 1
            (led_obj TaskListHead 1 3) 4 HI _ Ho _ _ led_ready_handles _).
  - apply list_elem_of_singleton. reflexivity.
  - clear. by vm_compute.
  - clear. split; [apply Z.leb_le|apply Z.ltb_lt]; by_eval.
  - intros u o _ _ _. apply no_callback_code_inert.
Defined.

(** X22 on a tick of the ["led"] task, and on the pass that runs it. *)
Lemma X22_witness :
  run_op OpTick (led_after 0) = Ok (0, led_after 1) ∧
  (∀ p, get_node (led_after 1) p = get_node (led_after 0) p) ∧
  (∀ u, id_of (led_after 1) u = id_of (led_after 0) u) ∧
  ∃ s', qtask_exec_with no_callback_code (led_after 3) = Ok (tt, s') ∧
        calls s' = [7] ∧
        (∀ p, get_node s' p = get_node (led_after 3) p) ∧
        (∀ u, id_of s' u = id_of (led_after 3) u).
Proof.
  assert (run_op OpTick (led_after 0) = Ok (0, led_after 1)) as R
    by (apply (run_concrete 0); by_eval).
  destruct (proj1 X22_drive_keeps_links_and_ids OpTick (led_after 0) 0 (led_after 1) I
              ltac:(discriminate) R) as (Hl & Hid & _).
  split_and!; [exact R|exact Hl|exact Hid|].
  exists (state_of (qtask_exec_with no_callback_code (led_after 3))).
  assert (qtask_exec_with no_callback_code (led_after 3)
          = Ok (tt, state_of (qtask_exec_with no_callback_code (led_after 3)))) as R'
    by (apply (run_concrete tt); by_eval).
  destruct (proj2 X22_drive_keeps_links_and_ids no_callback_code (led_after 3) _
              no_callback_code_inert R') as (Hl' & Hid' & _).
  split_and!; [exact R'|by_eval|exact Hl'|exact Hid'].
Defined.

(** X23 on a tick that makes the ["led"] task ready: no callback runs. *)
Lemma X23_witness :
  run_op OpTick (led_after 2) = Ok (0, led_after 3) ∧
  ready_timer (led_after 3) 1 = Some (1, 3) ∧
  calls (led_after 3) = calls (led_after 2).
Proof.
  assert (run_op OpTick (led_after 2) = Ok (0, led_after 3)) as R
    by (apply (run_concrete 0); by_eval).
  split_and!; [exact R|by_eval|].
  refine (X23_only_exec_invokes_callbacks OpTick (led_after 2) 0 (led_after 3) _ R).
  discriminate.
Defined.

(** X24 on the three registered tasks: the period of ["key"] is set to 5
    while its countdown is 2. *)
Lemma X24_witness :
  Inv trio [3; 2; 1] [] ∧ get_obj trio 2 = Some (the_obj trio 2) ∧
  timer (the_obj trio 2) = 2 ∧
  ∃ s1 s2,
    qtask_tick_set 2 5 trio = Ok (tt, s1) ∧
    run_ops (replicate (Z.to_nat (timer (the_obj trio 2))) OpTick) s1
    = Ok (replicate (Z.to_nat (timer (the_obj trio 2))) 0, s2) ∧
    Inv s2 [3; 2; 1] [] ∧
    get_obj s2 2 = Some (set_timer 5 (set_isready 1 (set_period 5 (the_obj trio 2)))).
Proof.
  assert (get_obj trio 2 = Some (the_obj trio 2)) as Ho by obj_eval.
  assert (timer (the_obj trio 2) = 2) as Ht by obj_eval.
  split_and!; [exact trio_Inv|exact Ho|exact Ht|].
  refine (X24_tick_set_applies_at_reload trio [3; 2; 1] [] 1%nat 2 (the_obj trio 2) 5
            trio_Inv eq_refl _ Ho _).
  - lia.
  - rewrite Ht. unfold SIZE_WIDTH. lia.
Defined.

(** X25 on the ready ["led"] task: two more ticks leave it ready. *)
Lemma X25_witness :
  Inv (led_after 3) [1] [] ∧
  get_obj (led_after 3) 1 = Some (led_obj TaskListHead 1 3) ∧
  ∃ s' o', run_ops (replicate 2 OpTick) (led_after 3) = Ok (replicate 2 0, s') ∧
           Inv s' [1] [] ∧ get_obj s' 1 = Some o' ∧ isready o' ≠ 0 ∧
           calls s' = calls (led_after 3).
Proof.
  assert (Inv (led_after 3) [1] []) as HI by inv_eval.
  assert (get_obj (led_after 3) 1 = Some (led_obj TaskListHead 1 3)) as Ho by by_eval.
  split_and!; [exact HI|exact Ho|].
  refine (X25_ready_flag_survives_ticks (led_after 3) [1] [] 1 (led_obj TaskListHead 1 3) 2
            HI Ho _).
  by vm_compute.
Defined.

(** X26 on the three registered tasks: suspending ["key"]. *)
Lemma X26_witness :
  Inv trio ([3] ++ 2 :: [1]) [] ∧ get_obj trio 2 = Some (the_obj trio 2) ∧
  ∃ s' o', qtask_suspend (Some "key") trio = Ok (0, s') ∧ Inv s' ([3] ++ [1]) [2] ∧
    get_obj s' 2 = Some o' ∧
    strip o' = strip (set_timer (period (the_obj trio 2)) (set_isready 0 (the_obj trio 2))) ∧
    (∀ u, u ≠ 2 → payload s' u = payload trio u) ∧
    run_task (sched s') = run_task (sched trio) ∧ calls s' = calls trio.
Proof.
  assert (get_obj trio 2 = Some (the_obj trio 2)) as Ho by obj_eval.
  split_and!; [exact trio_Inv|exact Ho|].
  refine (X26_suspend_first_match trio [3] 2 [1] [] (Some "key") (the_obj trio 2)
            trio_Inv Ho _ _ _); by_eval.
Defined.

(** X27 on the suspended ["led"] task. *)
Lemma X27_witness :
  Inv led_suspended [] ([] ++ 1 :: []) ∧
  get_obj led_suspended 1 = Some (led_obj SuspendListHead 0 3) ∧
  ∃ s' o', qtask_resume (Some "led") led_suspended = Ok (0, s') ∧
    Inv s' [1] ([] ++ []) ∧ get_obj s' 1 = Some o' ∧
    strip o' = strip (set_timer (period (led_obj SuspendListHead 0 3))
                        (set_isready 0 (led_obj SuspendListHead 0 3))) ∧
    (∀ u, u ≠ 1 → payload s' u = payload led_suspended u) ∧
    run_task (sched s') = run_task (sched led_suspended) ∧
    calls s' = calls led_suspended.
Proof.
  assert (Inv led_suspended [] [1]) as HI by inv_eval.
  assert (get_obj led_suspended 1 = Some (led_obj SuspendListHead 0 3)) as Ho by by_eval.
  split_and!; [exact HI|exact Ho|].
  refine (X27_resume_first_match led_suspended [] [] 1 [] (Some "led") _ HI Ho _ _ _);
    by_eval.
Defined.

(** X28 on a task registered with a null callback and made ready by a
    tick. *)
Lemma X28_witness :
  Inv null_callback ([] ++ 1 :: []) [] ∧
  get_obj null_callback 1 = Some (the_obj null_callback 1) ∧
  isready (the_obj null_callback 1) = 1 ∧ handle (the_obj null_callback 1) = 0 ∧
  qtask_exec null_callback = Fault.
Proof.
  assert (Inv null_callback [1] []) as HI by inv_eval.
  assert (get_obj null_callback 1 = Some (the_obj null_callback 1)) as Ho by obj_eval.
  assert (handle (the_obj null_callback 1) = 0) as Hh by obj_eval.
  split_and!; [exact HI|exact Ho|obj_eval|exact Hh|].
  refine (X28_exec_null_callback_faults null_callback [] 1 [] [] (the_obj null_callback 1)
            HI _ Ho _ Hh).
  - intros u ou Hu. exact (False_ind _ (proj1 (elem_of_nil u) Hu)).
  - clear. by vm_compute.
Defined.
